(** * The PCjs debugger core: address unit, breakpoints, history gating,
      instruction decoder and expression evaluator

    A shallow embedding of [src/modules/pcjs/lib/debugger.js].  JavaScript
    numbers that hold integers are [Z]; the 32-bit coercions of the bitwise
    operators are written out in module [JS].  [null] and [undefined] are
    [None].  The objects the debugger mutates ([DbgAddr], the [Debugger]
    itself) are records passed in and returned.

    The files [x86.js], [x86seg.js], [strlib.js], [messages.js] and
    [component.js] are collaborators: what the debugger uses of them is
    taken as a parameter ([X86Defs], [Seg], [CPU], [StrLib], [MessageDefs],
    the [messageEnabled] field). *)

From Stdlib Require Import ZArith List String Ascii Bool Lia DecimalString.
Import ListNotations.

Local Open Scope string_scope.
Local Open Scope Z_scope.

(** ** JavaScript integer arithmetic *)

Module JS.

(** ToInt32 and ToUint32 of ECMAScript, on integers. *)
Definition toInt32 (z : Z) : Z := (z + 2^31) mod 2^32 - 2^31.
Definition toUint32 (z : Z) : Z := z mod 2^32.

(** [a & b], [a | b], [a ^ b], [~a] *)
Definition band (a b : Z) : Z := Z.land (toInt32 a) (toInt32 b).
Definition bor (a b : Z) : Z := Z.lor (toInt32 a) (toInt32 b).
Definition bxor (a b : Z) : Z := Z.lxor (toInt32 a) (toInt32 b).
Definition bnot (a : Z) : Z := Z.lnot (toInt32 a).

(** [a << n], [a >> n], [a >>> n]: the count is taken modulo 32. *)
Definition shl (a n : Z) : Z := toInt32 (Z.shiftl (toInt32 a) (toUint32 n mod 32)).
Definition sar (a n : Z) : Z := Z.shiftr (toInt32 a) (toUint32 n mod 32).
Definition shr (a n : Z) : Z := Z.shiftr (toUint32 a) (toUint32 n mod 32).

(** Truthiness of a number: everything but zero. *)
Definition truthy (z : Z) : bool := negb (z =? 0).

(** Truthiness of a number that may be [null] or [undefined]. *)
Definition truthy_opt (o : option Z) : bool :=
  match o with Some z => truthy z | None => false end.

(** [x || d] on a number that may be missing. *)
Definition or_default (o : option Z) (d : Z) : Z :=
  match o with Some z => if truthy z then z else d | None => d end.

(** Loose equality [a == b] of two values that are numbers, [null] or
    [undefined]: [null == undefined] holds, and neither equals a number. *)
Definition eq_opt (a b : option Z) : bool :=
  match a, b with
  | Some x, Some y => x =? y
  | None, None => true
  | _, _ => false
  end.

(** Rounding of an integer to the nearest IEEE double (ties to even);
    exact below 2^53.  Products of two 32-bit integers need it. *)
Definition roundDouble (p : Z) : Z :=
  let a := Z.abs p in
  if a <? 2^53 then p
  else
    let e := Z.log2 a - 52 in
    let q := Z.shiftr a e in
    let r := a - Z.shiftl q e in
    let half := Z.shiftl 1 (e - 1) in
    let q' := if r <? half then q
              else if half <? r then q + 1
              else if Z.even q then q else q + 1 in
    Z.sgn p * Z.shiftl q' e.

End JS.

(** ** Data model *)

(** The [DbgAddr] object.  [off] is always a number once [newAddr] built
    the object; [sel], [addr] may be [null]/[undefined]; [fProt] may be
    [undefined] (the breakpoint command erases it). *)
Record DbgAddr : Type := mkDbgAddr {
  off : Z;
  sel : option Z;
  addr : option Z;
  fProt : option bool;
  fTempBreak : bool;
  fData32 : bool;
  fAddr32 : bool;
  cOverrides : option Z;
  fComplete : option bool
}.

Definition set_off (d : DbgAddr) (v : Z) : DbgAddr :=
  mkDbgAddr v (sel d) (addr d) (fProt d) (fTempBreak d) (fData32 d) (fAddr32 d)
            (cOverrides d) (fComplete d).
Definition set_sel (d : DbgAddr) (v : option Z) : DbgAddr :=
  mkDbgAddr (off d) v (addr d) (fProt d) (fTempBreak d) (fData32 d) (fAddr32 d)
            (cOverrides d) (fComplete d).
Definition set_addr (d : DbgAddr) (v : option Z) : DbgAddr :=
  mkDbgAddr (off d) (sel d) v (fProt d) (fTempBreak d) (fData32 d) (fAddr32 d)
            (cOverrides d) (fComplete d).
Definition set_fProt (d : DbgAddr) (v : option bool) : DbgAddr :=
  mkDbgAddr (off d) (sel d) (addr d) v (fTempBreak d) (fData32 d) (fAddr32 d)
            (cOverrides d) (fComplete d).
Definition set_fTempBreak (d : DbgAddr) (v : bool) : DbgAddr :=
  mkDbgAddr (off d) (sel d) (addr d) (fProt d) v (fData32 d) (fAddr32 d)
            (cOverrides d) (fComplete d).
Definition set_fData32 (d : DbgAddr) (v : bool) : DbgAddr :=
  mkDbgAddr (off d) (sel d) (addr d) (fProt d) (fTempBreak d) v (fAddr32 d)
            (cOverrides d) (fComplete d).
Definition set_fAddr32 (d : DbgAddr) (v : bool) : DbgAddr :=
  mkDbgAddr (off d) (sel d) (addr d) (fProt d) (fTempBreak d) (fData32 d) v
            (cOverrides d) (fComplete d).
Definition set_cOverrides (d : DbgAddr) (v : option Z) : DbgAddr :=
  mkDbgAddr (off d) (sel d) (addr d) (fProt d) (fTempBreak d) (fData32 d) (fAddr32 d)
            v (fComplete d).
Definition set_fComplete (d : DbgAddr) (v : option bool) : DbgAddr :=
  mkDbgAddr (off d) (sel d) (addr d) (fProt d) (fTempBreak d) (fData32 d) (fAddr32 d)
            (cOverrides d) v.

(** The constants of [x86.js] the debugger refers to. *)
Record X86Defs : Type := mkX86Defs {
  ADDR_INVALID : Z;
  CR0_MSW_PE : Z;
  PS_VM : Z;
  MODEL_80186 : Z;
  MODEL_80286 : Z;
  MODEL_80386 : Z;
  OPCODE_OS : Z;
  OPCODE_AS : Z;
  OPCODE_INT3 : Z;
  OPCODE_MOVSB : Z;
  OPCODE_CMPSW : Z;
  OPCODE_STOSB : Z;
  OPCODE_SCASW : Z
}.

(** The message category bits of [messages.js] used here. *)
Record MessageDefs : Type := mkMessageDefs {
  MESSAGES_INT : Z;
  MESSAGES_HALT : Z
}.

(** What the debugger calls of [strlib.js].  [toHex n cch]: both arguments
    may be missing. *)
Record StrLib : Type := mkStrLib {
  toHex : option Z -> option Z -> string;
  toHexWord : Z -> string;
  toBinBytes : Z -> string;
  pad : string -> Z -> string;
  trim : string -> string
}.

(** An [X86Seg] as the debugger sees it: the suppressed-fault range checks
    ([checkRead(off, nb, true)], [checkWrite(off, nb, true)]), which return
    a linear address or [ADDR_INVALID], and four of its fields. *)
Record Seg : Type := mkSeg {
  checkRead : Z -> Z -> Z;
  checkWrite : Z -> Z -> Z;
  addrMask : Z;
  offMax : Z;
  dataSize : Z;
  addrSize : Z
}.

(** The CPU: the registers and selectors read here, its live segment
    registers, the unchecked memory probe (a byte, 0 to 255), and the
    checksum fields the disassembly comment shows. *)
Record CPU : Type := mkCPU {
  regCR0 : Z;
  regPS : Z;
  model : Z;
  getCS : Z; getDS : Z; getES : Z; getSS : Z; getFS : Z; getGS : Z;
  segCS : Seg; segDS : Seg; segES : Seg; segSS : Seg; segFS : Seg; segGS : Seg;
  probeAddr : Z -> Z;
  fChecksum : bool;
  getCycles : Z;
  nChecksum : Z
}.

(** The debugger's scratch segment register: [loadReal(sel, true)] and
    [loadProt(sel, true)] fill it from a selector and the debugger uses it
    at once, so each is a function of the selector. *)
Record SegLoader : Type := mkSegLoader {
  loadReal : option Z -> Seg;
  loadProt : option Z -> Seg
}.

(** A breakpoint array: element 0 is the name, the rest are addresses. *)
Record BreakList : Type := mkBreakList {
  tag : string;
  entries : list DbgAddr
}.

Definition aBreak_length (a : BreakList) : Z := 1 + Z.of_nat (List.length (entries a)).

(** Which of the three arrays a caller passed: every call site passes
    [this.aBreakExec], [this.aBreakRead] or [this.aBreakWrite], and the code
    compares the argument with them by identity. *)
Inductive BreakKind : Type := BreakExec | BreakRead | BreakWrite.

(** Calls made to the bus. *)
Inductive BusCall : Type :=
| AddMemBreak (a : Z) (fWrite : bool)
| RemoveMemBreak (a : Z) (fWrite : bool).

(** An opcode descriptor: instruction ordinal, then operand types. *)
Definition OpDesc : Type := list Z.

(** The state of a [Debugger] after [initBus]. *)
Record Debugger : Type := mkDebugger {
  cpu : CPU;
  segDebugger : SegLoader;
  maskAddr : Z;
  nSuppressBreaks : Z;
  aBreakExec : BreakList;
  aBreakRead : BreakList;
  aBreakWrite : BreakList;
  aOpcodeHistory : list DbgAddr;
  iOpcodeHistory : Z;
  aaOpcodeCounts : list (Z * Z);
  aaOpDescs : list OpDesc;
  messageEnabled : Z -> bool;
  findSymbolAtAddr : DbgAddr -> option string;
  output : list string;
  busLog : list BusCall
}.

Definition set_nSuppressBreaks (g : Debugger) (v : Z) : Debugger :=
  mkDebugger (cpu g) (segDebugger g) (maskAddr g) v (aBreakExec g) (aBreakRead g)
             (aBreakWrite g) (aOpcodeHistory g) (iOpcodeHistory g) (aaOpcodeCounts g)
             (aaOpDescs g) (messageEnabled g) (findSymbolAtAddr g) (output g) (busLog g).

Definition set_history (g : Debugger) (h : list DbgAddr) (i : Z) (c : list (Z * Z)) : Debugger :=
  mkDebugger (cpu g) (segDebugger g) (maskAddr g) (nSuppressBreaks g) (aBreakExec g)
             (aBreakRead g) (aBreakWrite g) h i c
             (aaOpDescs g) (messageEnabled g) (findSymbolAtAddr g) (output g) (busLog g).

Definition println (g : Debugger) (s : string) : Debugger :=
  mkDebugger (cpu g) (segDebugger g) (maskAddr g) (nSuppressBreaks g) (aBreakExec g)
             (aBreakRead g) (aBreakWrite g) (aOpcodeHistory g) (iOpcodeHistory g)
             (aaOpcodeCounts g) (aaOpDescs g) (messageEnabled g) (findSymbolAtAddr g)
             (output g ++ [s])%list (busLog g).

Definition busCall (g : Debugger) (c : BusCall) : Debugger :=
  mkDebugger (cpu g) (segDebugger g) (maskAddr g) (nSuppressBreaks g) (aBreakExec g)
             (aBreakRead g) (aBreakWrite g) (aOpcodeHistory g) (iOpcodeHistory g)
             (aaOpcodeCounts g) (aaOpDescs g) (messageEnabled g) (findSymbolAtAddr g)
             (output g) (busLog g ++ [c])%list.

Definition getBreak (g : Debugger) (k : BreakKind) : BreakList :=
  match k with
  | BreakExec => aBreakExec g
  | BreakRead => aBreakRead g
  | BreakWrite => aBreakWrite g
  end.

Definition setBreak (g : Debugger) (k : BreakKind) (a : BreakList) : Debugger :=
  match k with
  | BreakExec =>
    mkDebugger (cpu g) (segDebugger g) (maskAddr g) (nSuppressBreaks g) a (aBreakRead g)
               (aBreakWrite g) (aOpcodeHistory g) (iOpcodeHistory g) (aaOpcodeCounts g)
               (aaOpDescs g) (messageEnabled g) (findSymbolAtAddr g) (output g) (busLog g)
  | BreakRead =>
    mkDebugger (cpu g) (segDebugger g) (maskAddr g) (nSuppressBreaks g) (aBreakExec g) a
               (aBreakWrite g) (aOpcodeHistory g) (iOpcodeHistory g) (aaOpcodeCounts g)
               (aaOpDescs g) (messageEnabled g) (findSymbolAtAddr g) (output g) (busLog g)
  | BreakWrite =>
    mkDebugger (cpu g) (segDebugger g) (maskAddr g) (nSuppressBreaks g) (aBreakExec g)
               (aBreakRead g) a (aOpcodeHistory g) (iOpcodeHistory g) (aaOpcodeCounts g)
               (aaOpDescs g) (messageEnabled g) (findSymbolAtAddr g) (output g) (busLog g)
  end.

(** The collaborators' constants and the two build flags ([DEBUG],
    [I386]) the code is compiled with. *)
Class Env : Type := mkEnv {
  x86 : X86Defs;
  msgs : MessageDefs;
  str : StrLib;
  DEBUG : bool;
  I386 : bool
}.

(** ** Address unit *)

Section AddressUnit.

Context {env : Env}.

(** [sel === n] for a selector that may be missing. *)
Definition strict_eq (o : option Z) (n : Z) : bool :=
  match o with Some s => s =? n | None => false end.

Definition getProtMode (g : Debugger) : bool :=
  JS.truthy (JS.band (regCR0 (cpu g)) (CR0_MSW_PE x86))
  && negb (JS.truthy (JS.band (regPS (cpu g)) (PS_VM x86))).

Definition getSegment (g : Debugger) (s : option Z) (fProtArg : option bool) : option Seg :=
  let fProtMode := getProtMode g in
  let fP := match fProtArg with Some b => b | None => fProtMode end in
  let c := cpu g in
  let loaded :=
    if negb fP then loadReal (segDebugger g) s else loadProt (segDebugger g) s in
  if Bool.eqb fP fProtMode then
    if strict_eq s (getCS c) then Some (segCS c)
    else if strict_eq s (getDS c) then Some (segDS c)
    else if strict_eq s (getES c) then Some (segES c)
    else if strict_eq s (getSS c) then Some (segSS c)
    else if I386 && (MODEL_80386 x86 <=? model c) && strict_eq s (getFS c)
         then Some (segFS c)
    else if I386 && (MODEL_80386 x86 <=? model c) && strict_eq s (getGS c)
         then Some (segGS c)
    else if JS.truthy (nSuppressBreaks g) && fP then None
    else Some loaded
  else Some loaded.

(** [getAddr(dbgAddr, fWrite, nb)]: the linear address, and the address
    object with its cache filled when a segment was found. *)
Definition getAddr (g : Debugger) (d : DbgAddr) (fWrite : bool) (nb : option Z)
  : Z * DbgAddr :=
  match addr d with
  | Some a => (a, d)
  | None =>
    match getSegment g (sel d) (fProt d) with
    | Some seg =>
      let a := if negb fWrite then checkRead seg (off d) (JS.or_default nb 1)
               else checkWrite seg (off d) (JS.or_default nb 1) in
      (a, set_addr d (Some a))
    | None => (ADDR_INVALID x86, d)
    end
  end.

Definition checkLimit (g : Debugger) (d : DbgAddr) : DbgAddr :=
  match sel d with
  | Some _ =>
    match getSegment g (sel d) (fProt d) with
    | Some seg =>
      let d1 := set_off d (JS.band (off d) (addrMask seg)) in
      if offMax seg <=? JS.shr (off d1) 0
      then set_addr (set_off d1 0) None
      else d1
    | None => d
    end
  | None => d
  end.

Definition incAddr (g : Debugger) (d : DbgAddr) (inc : Z) : DbgAddr :=
  let inc := if JS.truthy inc then inc else 1 in
  let d1 := match addr d with
            | Some a => set_addr d (Some (a + inc))
            | None => d
            end in
  match sel d1 with
  | Some _ => checkLimit g (set_off d1 (off d1 + inc))
  | None => d1
  end.

Definition getByte (g : Debugger) (d : DbgAddr) (inc : Z) : Z * DbgAddr :=
  let b := 0xff in
  let '(a, d) := getAddr g d false (Some 1) in
  if negb (a =? ADDR_INVALID x86) then
    let b := JS.bor (probeAddr (cpu g) a) 0 in
    (b, if JS.truthy inc then incAddr g d inc else d)
  else (b, d).

Definition getShort (g : Debugger) (d : DbgAddr) (inc : Z) : Z * DbgAddr :=
  let w := 0xffff in
  let '(a, d) := getAddr g d false (Some 2) in
  if negb (a =? ADDR_INVALID x86) then
    let w := JS.bor (probeAddr (cpu g) a) (JS.shl (probeAddr (cpu g) (a + 1)) 8) in
    (w, if JS.truthy inc then incAddr g d inc else d)
  else (w, d).

Definition getLong (g : Debugger) (d : DbgAddr) (inc : Z) : Z * DbgAddr :=
  let l := -1 in
  let '(a, d) := getAddr g d false (Some 4) in
  if negb (a =? ADDR_INVALID x86) then
    let l := JS.bor (JS.bor (JS.bor (probeAddr (cpu g) a)
                                    (JS.shl (probeAddr (cpu g) (a + 1)) 8))
                            (JS.shl (probeAddr (cpu g) (a + 2)) 16))
                    (JS.shl (probeAddr (cpu g) (a + 3)) 24) in
    (l, if JS.truthy inc then incAddr g d inc else d)
  else (l, d).

Definition getWord (g : Debugger) (d : DbgAddr) (fAdvance : bool) : Z * DbgAddr :=
  if negb (fData32 d) then getShort g d (if fAdvance then 2 else 0)
  else getLong g d (if fAdvance then 4 else 0).

Definition newAddr (g : Debugger) (o s a : option Z) (fP fD32 fA32 : option bool)
  : DbgAddr :=
  let fP := match fP with Some b => b | None => getProtMode g end in
  let fD32 := match fD32 with
              | Some b => b | None => dataSize (segCS (cpu g)) =? 4 end in
  let fA32 := match fA32 with
              | Some b => b | None => addrSize (segCS (cpu g)) =? 4 end in
  mkDbgAddr (JS.or_default o 0) s a (Some fP) false fD32 fA32 None None.

Definition hexOffset (o : Z) (s : option Z) (fA32 : bool) : string :=
  match s with
  | Some _ =>
    toHex str s (Some 4) ++ ":" ++
    toHex str (Some o)
      (Some (if JS.truthy (JS.band o (JS.bnot 0xffff)) || fA32 then 8 else 4))
  | None => toHex str (Some o) None
  end.

Definition hexAddr (d : DbgAddr) : string :=
  match sel d with
  | None => "%" ++ toHex str (addr d) None
  | Some _ => hexOffset (off d) (sel d) (fAddr32 d)
  end.

End AddressUnit.

(** ** History gating and the breakpoint engine *)

Section Breakpoints.

Context {env : Env}.

Definition HISTORY_LIMIT : Z := 100000.

(** [checksEnabled(fRelease)] *)
Definition checksEnabled (g : Debugger) (fRelease : bool) : bool :=
  if DEBUG && negb fRelease then true
  else (1 <? aBreak_length (aBreakExec g)) || messageEnabled g (MESSAGES_INT msgs).

Definition isEmpty {A : Type} (l : list A) : bool :=
  match l with [] => true | _ :: _ => false end.

(** [historyInit()]: an array that is [undefined] and one that is empty
    take the same branches, so both are the empty list. *)
Definition historyInit (g : Debugger) : Debugger :=
  if negb (checksEnabled g false) then
    let g1 := if negb (isEmpty (aOpcodeHistory g))
              then println g "instruction history buffer freed" else g in
    set_history g1 [] 0 []
  else
    let g1 :=
      if isEmpty (aOpcodeHistory g) then
        println
          (set_history g
             (List.repeat (newAddr g None None None None None None)
                          (Z.to_nat HISTORY_LIMIT))
             0 (aaOpcodeCounts g))
          "instruction history buffer allocated"
      else g in
    if isEmpty (aaOpcodeCounts g1) then
      set_history g1 (aOpcodeHistory g1) (iOpcodeHistory g1)
                  (List.map (fun i => (Z.of_nat i, 0)) (List.seq 0 256))
    else g1.

(** [mapBreakpoint(addr)] *)
Definition mapBreakpoint (g : Debugger) (a : Z) : Z :=
  if negb (a =? ADDR_INVALID x86) then
    let mask := JS.band (maskAddr g) (JS.bnot 0xffff) in
    if JS.band a mask =? mask then JS.band a 0x000fffff else a
  else a.

Definition isExec (k : BreakKind) : bool :=
  match k with BreakExec => true | _ => false end.
Definition isWrite (k : BreakKind) : bool :=
  match k with BreakWrite => true | _ => false end.

(** The test of [findBreakpoint]'s loop on one entry.  [getAddr] on the
    entry is reached only when the address looked for is valid. *)
Definition matchBreak (g : Debugger) (a : Z) (d e : DbgAddr) : bool * DbgAddr :=
  if negb (a =? ADDR_INVALID x86) then
    let '(ae, e') := getAddr g e false None in
    (a =? mapBreakpoint g ae, e')
  else (JS.eq_opt (sel d) (sel e) && (off d =? off e), e).

(** The loop of [findBreakpoint]: the entries passed over, the entry
    found, the entries after it. *)
Fixpoint scanBreak (g : Debugger) (a : Z) (d : DbgAddr) (l : list DbgAddr)
  : list DbgAddr * option DbgAddr * list DbgAddr :=
  match l with
  | [] => ([], None, [])
  | e :: l' =>
    let '(hit, e') := matchBreak g a d e in
    if hit then ([], Some e', l')
    else let '(v, h, r) := scanBreak g a d l' in (e' :: v, h, r)
  end.

Definition breakLine (what : string) (e : DbgAddr) (a : BreakList) : string :=
  what ++ hexAddr e ++ " (" ++ tag a ++ ")".

(** [findBreakpoint(aBreak, dbgAddr, fRemove)]: found or not, the
    debugger, and [dbgAddr] after [getAddr] filled its cache. *)
Definition findBreakpoint (g : Debugger) (k : BreakKind) (d : DbgAddr) (fRemove : bool)
  : bool * Debugger * DbgAddr :=
  let '(a0, d) := getAddr g d false None in
  let a := mapBreakpoint g a0 in
  let aBreak := getBreak g k in
  let '(v, h, r) := scanBreak g a d (entries aBreak) in
  match h with
  | None => (false, setBreak g k (mkBreakList (tag aBreak) v), d)
  | Some e =>
    if fRemove then
      let g1 := setBreak g k (mkBreakList (tag aBreak) (v ++ r)%list) in
      let g2 := if negb (isExec k) then busCall g1 (RemoveMemBreak a (isWrite k))
                else g1 in
      let g3 := if negb (fTempBreak e)
                then println g2 (breakLine "breakpoint cleared: " e aBreak) else g2 in
      (true, historyInit g3, d)
    else
      let g1 := setBreak g k (mkBreakList (tag aBreak) (v ++ e :: r)%list) in
      (true, println g1 (breakLine "breakpoint exists: " e aBreak), d)
  end.

(** [addBreakpoint(aBreak, dbgAddr, fTemp)].  The array holds the object
    passed in, so what is stored is [dbgAddr] as the function leaves it. *)
Definition addBreakpoint (g : Debugger) (k : BreakKind) (d : DbgAddr) (fTemp : bool)
  : bool * Debugger * DbgAddr :=
  let g := set_nSuppressBreaks g (nSuppressBreaks g + 1) in
  let '(fFound, g, d) := findBreakpoint g k d false in
  if negb fFound then
    let d := set_fTempBreak d fTemp in
    let '(a, d) := if negb (isExec k) then getAddr g d false None else (0, d) in
    let d := if fTemp then
               if JS.truthy_opt (addr d) then set_sel d None else d
             else d in
    let aBreak := getBreak g k in
    let g := setBreak g k (mkBreakList (tag aBreak) (entries aBreak ++ [d])%list) in
    let g := if negb (isExec k) then busCall g (AddMemBreak a (isWrite k)) else g in
    let g := if fTemp then g
             else println g (breakLine "breakpoint enabled: " d aBreak) in
    let g := if negb fTemp then historyInit g else g in
    (true, set_nSuppressBreaks g (nSuppressBreaks g - 1), d)
  else (false, set_nSuppressBreaks g (nSuppressBreaks g - 1), d).

(** The inner loop of [checkBreakpoint], [for (n = 0; n < nb; n++)], whose
    body ends with [addrBreak++; n++].  [fuel] bounds the iterations. *)
Fixpoint rangeHit (fuel : nat) (a n nb addrBreak : Z) : bool :=
  match fuel with
  | O => false
  | S fuel' =>
    if n <? nb then
      if a + n =? addrBreak then true
      else rangeHit fuel' a (n + 1 + 1) nb (addrBreak + 1)
    else false
  end.

(** One entry of [checkBreakpoint]'s scan: the address cache is dropped
    for a segmented breakpoint and computed again. *)
Definition resolveBreak (g : Debugger) (e : DbgAddr) : Z * DbgAddr :=
  let e := match sel e with Some _ => set_addr e None | None => e end in
  let '(a, e) := getAddr g e false None in
  (mapBreakpoint g a, e).

Fixpoint checkLoop (g : Debugger) (a nb : Z) (k : BreakKind) (fTemp : bool)
         (visited rest : list DbgAddr) : bool * Debugger :=
  let aBreak := getBreak g k in
  match rest with
  | [] => (false, setBreak g k (mkBreakList (tag aBreak) visited))
  | e :: rest' =>
    let '(addrBreak, e) := resolveBreak g e in
    if rangeHit (Z.to_nat nb) a 0 nb addrBreak then
      let g := setBreak g k (mkBreakList (tag aBreak) (visited ++ e :: rest')%list) in
      let g := if fTempBreak e then snd (fst (findBreakpoint g k e true))
               else if negb fTemp
                    then println g (breakLine "breakpoint hit: " e aBreak)
                    else g in
      (true, g)
    else checkLoop g a nb k fTemp (visited ++ [e])%list rest'
  end.

(** [checkBreakpoint(addr, nb, aBreak, fTemp)] *)
Definition checkBreakpoint (g : Debugger) (a nb : Z) (k : BreakKind) (fTemp : bool)
  : bool * Debugger :=
  let n := nSuppressBreaks g in
  let g := set_nSuppressBreaks g (n + 1) in
  let '(fBreak, g) :=
    if negb (JS.truthy n) then
      let a := mapBreakpoint g a in
      let fBreak :=
        if messageEnabled g (JS.bor (MESSAGES_INT msgs) (MESSAGES_HALT msgs))
        then probeAddr (cpu g) a =? OPCODE_INT3 x86
        else false in
      if fBreak then (true, g)
      else checkLoop g a nb k fTemp [] (entries (getBreak g k))
    else (false, g) in
  (fBreak, set_nSuppressBreaks g (nSuppressBreaks g - 1)).

(** [setTempBreakpoint(dbgAddr)] *)
Definition setTempBreakpoint (g : Debugger) (d : DbgAddr) : Debugger * DbgAddr :=
  let '(_, g, d) := addBreakpoint g BreakExec d true in (g, d).

End Breakpoints.

(** ** Expression evaluator *)

Section Expressions.

Context {env : Env}.

(** [parseValue(s)] reads a register name from the CPU or a literal with
    [str.parseInt]; both belong to collaborators, so the function from an
    operand to its value ([None] for [undefined]) is a parameter.  The
    values are 32-bit integers. *)
Variable parseValue : string -> option Z.

Local Open Scope char_scope.

(** The class [[|^&+%/*-]] of the regular expression the input is split
    with. *)
Definition isBinOp (c : ascii) : bool :=
  match c with
  | "|" | "^" | "&" | "+" | "%" | "/" | "*" | "-" => true
  | _ => false
  end.

(** [Debugger.aBinOpPrecedence] *)
Definition aBinOpPrecedence (c : ascii) : option Z :=
  match c with
  | "|" => Some 0
  | "^" => Some 1
  | "&" => Some 2
  | "-" => Some 4
  | "+" => Some 4
  | "%" => Some 5
  | "/" => Some 5
  | "*" => Some 5
  | _ => None
  end.

(** The [switch] of [evalExpression]: [None] is [return false]. *)
Definition binop (chOp : ascii) (val1 val2 : Z) : option Z :=
  match chOp with
  | "+" => Some (val1 + val2)
  | "-" => Some (val1 - val2)
  | "*" => Some (JS.roundDouble (val1 * val2))
  | "/" => if negb (JS.truthy val2) then None else Some (Z.quot val1 val2)
  | "%" => if negb (JS.truthy val2) then None else Some (Z.rem val1 val2)
  | "&" => Some (JS.band val1 val2)
  | "^" => Some (JS.bxor val1 val2)
  | "|" => Some (JS.bor val1 val2)
  | _ => None
  end.

Local Close Scope char_scope.

(** [s.split(/[|^&+%\/*-]/)] *)
Fixpoint split (s : string) : list string :=
  match s with
  | EmptyString => [EmptyString]
  | String c s' =>
    if isBinOp c then EmptyString :: split s'
    else match split s' with
         | h :: t => String c h :: t
         | [] => [String c EmptyString]
         end
  end.

(** [s.substr(n)] *)
Fixpoint substr_from (n : nat) (s : string) : string :=
  match n, s with
  | O, _ => s
  | S n', EmptyString => EmptyString
  | S n', String _ s' => substr_from n' s'
  end.

(** The loop of [evalExpression] after [cOps = cOps || -1].  Both stacks
    have their top at the head of the list.  The operator is popped before
    the values are counted, and the values before the divisor is tested. *)
Fixpoint evalLoop (aVals : list Z) (aOps : list ascii) (cOps : Z)
  : bool * list Z * list ascii :=
  if negb (JS.truthy cOps) then (true, aVals, aOps)
  else
    match aOps with
    | [] => (true, aVals, aOps)
    | chOp :: aOps' =>
      match aVals with
      | val2 :: val1 :: aVals' =>
        match binop chOp val1 val2 with
        | Some valNew => evalLoop (JS.bor valNew 0 :: aVals') aOps' (cOps - 1)
        | None => (false, aVals', aOps')
        end
      | _ => (false, aVals, aOps')
      end
    end.

(** [evalExpression(aVals, aOps, cOps)] *)
Definition evalExpression (aVals : list Z) (aOps : list ascii) (cOps : option Z)
  : bool * list Z * list ascii :=
  evalLoop aVals aOps (JS.or_default cOps (-1)).

Definition lt_opt (a b : option Z) : bool :=
  match a, b with Some x, Some y => x <? y | _, _ => false end.

Record ParseState : Type := mkParseState {
  ps_fError : bool;
  ps_aVals : list Z;
  ps_aOps : list ascii;
  ps_sExp : string
}.

(** The [for] loop of [parseExpression] over [asValues]. *)
Fixpoint parseLoop (asValues : list string) (sExp : string)
         (aVals : list Z) (aOps : list ascii) : ParseState :=
  match asValues with
  | [] => mkParseState false aVals aOps sExp
  | sValue :: rest =>
    let s := trim str sValue in
    match s with
    | EmptyString => mkParseState true aVals aOps sExp
    | String _ _ =>
      match parseValue s with
      | None => mkParseState true aVals aOps sExp
      | Some v =>
        let aVals := v :: aVals in
        match substring (String.length sValue) 1 sExp with
        | EmptyString => mkParseState false aVals aOps sExp
        | String chOp _ =>
          let '(aVals, aOps) :=
            match aOps with
            | top :: _ =>
              if lt_opt (aBinOpPrecedence chOp) (aBinOpPrecedence top)
              then let '(_, aVals', aOps') := evalExpression aVals aOps (Some 1) in
                   (aVals', aOps')
              else (aVals, aOps)
            | [] => (aVals, aOps)
            end in
          parseLoop rest (substr_from (String.length sValue + 1) sExp)
                    aVals (chOp :: aOps)
        end
      end
    end
  end.

Definition decimal (z : Z) : string :=
  DecimalString.NilZero.string_of_int (Z.to_int z).

(** [parseExpression(sExp, fPrint)]: the value ([None] for [undefined])
    and the lines printed. *)
Definition parseExpression (sExp : string) (fPrint : bool) : option Z * list string :=
  let sExpOrig := sExp in
  let st := parseLoop (split sExp) sExp [] [] in
  let '(ok, aVals, aOps) := evalExpression (ps_aVals st) (ps_aOps st) None in
  let fError :=
    if negb ok || negb (Z.of_nat (List.length aVals) =? 1) then true
    else ps_fError st in
  if negb fError then
    match aVals with
    | value :: _ =>
      (Some value,
       if fPrint
       then [sExpOrig ++ "=" ++ toHex str (Some value) None ++ "h (" ++
             decimal value ++ ". " ++ toBinBytes str value ++ ")"]
       else [])
    | [] => (None, [])
    end
  else
    (None,
     if fPrint
     then ["error parsing '" ++ sExpOrig ++ "' at character " ++
           decimal (Z.of_nat (String.length sExpOrig)
                    - Z.of_nat (String.length (ps_sExp st)))]
     else []).

End Expressions.

(** ** Opcode tables *)

(** [a | b] in the table initialisers. *)
Notation "a .| b" := (JS.bor a b) (at level 50, left associativity).

(** [Debugger.INS]: instruction ordinals. *)
Module INS.
Definition NONE : Z := 0.
Definition AAA : Z := 1.
Definition AAD : Z := 2.
Definition AAM : Z := 3.
Definition AAS : Z := 4.
Definition ADC : Z := 5.
Definition ADD : Z := 6.
Definition AND : Z := 7.
Definition ARPL : Z := 8.
Definition AS : Z := 9.
Definition BOUND : Z := 10.
Definition BSF : Z := 11.
Definition BSR : Z := 12.
Definition BT : Z := 13.
Definition BTC : Z := 14.
Definition BTR : Z := 15.
Definition BTS : Z := 16.
Definition CALL : Z := 17.
Definition CBW : Z := 18.
Definition CLC : Z := 19.
Definition CLD : Z := 20.
Definition CLI : Z := 21.
Definition CLTS : Z := 22.
Definition CMC : Z := 23.
Definition CMP : Z := 24.
Definition CMPSB : Z := 25.
Definition CMPSW : Z := 26.
Definition CS : Z := 27.
Definition CWD : Z := 28.
Definition DAA : Z := 29.
Definition DAS : Z := 30.
Definition DEC : Z := 31.
Definition DIV : Z := 32.
Definition DS : Z := 33.
Definition ENTER : Z := 34.
Definition ES : Z := 35.
Definition ESC : Z := 36.
Definition FADD : Z := 37.
Definition FBLD : Z := 38.
Definition FBSTP : Z := 39.
Definition FCOM : Z := 40.
Definition FCOMP : Z := 41.
Definition FDIV : Z := 42.
Definition FDIVR : Z := 43.
Definition FIADD : Z := 44.
Definition FICOM : Z := 45.
Definition FICOMP : Z := 46.
Definition FIDIV : Z := 47.
Definition FIDIVR : Z := 48.
Definition FILD : Z := 49.
Definition FIMUL : Z := 50.
Definition FIST : Z := 51.
Definition FISTP : Z := 52.
Definition FISUB : Z := 53.
Definition FISUBR : Z := 54.
Definition FLD : Z := 55.
Definition FLDCW : Z := 56.
Definition FLDENV : Z := 57.
Definition FMUL : Z := 58.
Definition FNSAVE : Z := 59.
Definition FNSTCW : Z := 60.
Definition FNSTENV : Z := 61.
Definition FNSTSW : Z := 62.
Definition FRSTOR : Z := 63.
Definition FS : Z := 64.
Definition FST : Z := 65.
Definition FSTP : Z := 66.
Definition FSUB : Z := 67.
Definition FSUBR : Z := 68.
Definition GS : Z := 69.
Definition HLT : Z := 70.
Definition IDIV : Z := 71.
Definition IMUL : Z := 72.
Definition IN : Z := 73.
Definition INC : Z := 74.
Definition INS : Z := 75.
Definition INT : Z := 76.
Definition INT3 : Z := 77.
Definition INTO : Z := 78.
Definition IRET : Z := 79.
Definition JBE : Z := 80.
Definition JC : Z := 81.
Definition JCXZ : Z := 82.
Definition JG : Z := 83.
Definition JGE : Z := 84.
Definition JL : Z := 85.
Definition JLE : Z := 86.
Definition JMP : Z := 87.
Definition JA : Z := 88.
Definition JNC : Z := 89.
Definition JNO : Z := 90.
Definition JNP : Z := 91.
Definition JNS : Z := 92.
Definition JNZ : Z := 93.
Definition JO : Z := 94.
Definition JP : Z := 95.
Definition JS : Z := 96.
Definition JZ : Z := 97.
Definition LAHF : Z := 98.
Definition LAR : Z := 99.
Definition LDS : Z := 100.
Definition LEA : Z := 101.
Definition LEAVE : Z := 102.
Definition LES : Z := 103.
Definition LFS : Z := 104.
Definition LGDT : Z := 105.
Definition LGS : Z := 106.
Definition LIDT : Z := 107.
Definition LLDT : Z := 108.
Definition LMSW : Z := 109.
Definition LOADALL : Z := 110.
Definition LOCK : Z := 111.
Definition LODSB : Z := 112.
Definition LODSW : Z := 113.
Definition LOOP : Z := 114.
Definition LOOPNZ : Z := 115.
Definition LOOPZ : Z := 116.
Definition LSL : Z := 117.
Definition LSS : Z := 118.
Definition LTR : Z := 119.
Definition MOV : Z := 120.
Definition MOVSB : Z := 121.
Definition MOVSW : Z := 122.
Definition MOVSX : Z := 123.
Definition MOVZX : Z := 124.
Definition MUL : Z := 125.
Definition NEG : Z := 126.
Definition NOP : Z := 127.
Definition NOT : Z := 128.
Definition OR : Z := 129.
Definition OS : Z := 130.
Definition OUT : Z := 131.
Definition OUTS : Z := 132.
Definition POP : Z := 133.
Definition POPA : Z := 134.
Definition POPF : Z := 135.
Definition PUSH : Z := 136.
Definition PUSHA : Z := 137.
Definition PUSHF : Z := 138.
Definition RCL : Z := 139.
Definition RCR : Z := 140.
Definition REPNZ : Z := 141.
Definition REPZ : Z := 142.
Definition RET : Z := 143.
Definition RETF : Z := 144.
Definition ROL : Z := 145.
Definition ROR : Z := 146.
Definition SAHF : Z := 147.
Definition SALC : Z := 148.
Definition SAR : Z := 149.
Definition SBB : Z := 150.
Definition SCASB : Z := 151.
Definition SCASW : Z := 152.
Definition SETBE : Z := 153.
Definition SETC : Z := 154.
Definition SETG : Z := 155.
Definition SETGE : Z := 156.
Definition SETL : Z := 157.
Definition SETLE : Z := 158.
Definition SETNBE : Z := 159.
Definition SETNC : Z := 160.
Definition SETNO : Z := 161.
Definition SETNP : Z := 162.
Definition SETNS : Z := 163.
Definition SETNZ : Z := 164.
Definition SETO : Z := 165.
Definition SETP : Z := 166.
Definition SETS : Z := 167.
Definition SETZ : Z := 168.
Definition SGDT : Z := 169.
Definition SHL : Z := 170.
Definition SHLD : Z := 171.
Definition SHR : Z := 172.
Definition SHRD : Z := 173.
Definition SIDT : Z := 174.
Definition SLDT : Z := 175.
Definition SMSW : Z := 176.
Definition SS : Z := 177.
Definition STC : Z := 178.
Definition STD : Z := 179.
Definition STI : Z := 180.
Definition STOSB : Z := 181.
Definition STOSW : Z := 182.
Definition STR : Z := 183.
Definition SUB : Z := 184.
Definition TEST : Z := 185.
Definition VERR : Z := 186.
Definition VERW : Z := 187.
Definition WAIT : Z := 188.
Definition XCHG : Z := 189.
Definition XLAT : Z := 190.
Definition XOR : Z := 191.
Definition GRP1B : Z := 192.
Definition GRP1W : Z := 193.
Definition GRP1SW : Z := 194.
Definition GRP2B : Z := 195.
Definition GRP2W : Z := 196.
Definition GRP2B1 : Z := 197.
Definition GRP2W1 : Z := 198.
Definition GRP2BC : Z := 199.
Definition GRP2WC : Z := 200.
Definition GRP3B : Z := 201.
Definition GRP3W : Z := 202.
Definition GRP4B : Z := 203.
Definition GRP4W : Z := 204.
Definition OP0F : Z := 205.
Definition GRP6 : Z := 206.
Definition GRP7 : Z := 207.
Definition GRP8 : Z := 208.
End INS.

(** [Debugger.INS_NAMES]: mnemonics, by instruction ordinal. *)
Definition INS_NAMES : list string := [
  "INVALID"; "AAA"; "AAD"; "AAM"; "AAS"; "ADC"; "ADD"; "AND";
  "ARPL"; "AS:"; "BOUND"; "BSF"; "BSR"; "BT"; "BTC"; "BTR";
  "BTS"; "CALL"; "CBW"; "CLC"; "CLD"; "CLI"; "CLTS"; "CMC";
  "CMP"; "CMPSB"; "CMPSW"; "CS:"; "CWD"; "DAA"; "DAS"; "DEC";
  "DIV"; "DS:"; "ENTER"; "ES:"; "ESC"; "FADD"; "FBLD"; "FBSTP";
  "FCOM"; "FCOMP"; "FDIV"; "FDIVR"; "FIADD"; "FICOM"; "FICOMP"; "FIDIV";
  "FIDIVR"; "FILD"; "FIMUL"; "FIST"; "FISTP"; "FISUB"; "FISUBR"; "FLD";
  "FLDCW"; "FLDENV"; "FMUL"; "FNSAVE"; "FNSTCW"; "FNSTENV"; "FNSTSW"; "FRSTOR";
  "FS:"; "FST"; "FSTP"; "FSUB"; "FSUBR"; "GS:"; "HLT"; "IDIV";
  "IMUL"; "IN"; "INC"; "INS"; "INT"; "INT3"; "INTO"; "IRET";
  "JBE"; "JC"; "JCXZ"; "JG"; "JGE"; "JL"; "JLE"; "JMP";
  "JA"; "JNC"; "JNO"; "JNP"; "JNS"; "JNZ"; "JO"; "JP";
  "JS"; "JZ"; "LAHF"; "LAR"; "LDS"; "LEA"; "LEAVE"; "LES";
  "LFS"; "LGDT"; "LGS"; "LIDT"; "LLDT"; "LMSW"; "LOADALL"; "LOCK";
  "LODSB"; "LODSW"; "LOOP"; "LOOPNZ"; "LOOPZ"; "LSL"; "LSS"; "LTR";
  "MOV"; "MOVSB"; "MOVSW"; "MOVSX"; "MOVZX"; "MUL"; "NEG"; "NOP";
  "NOT"; "OR"; "OS:"; "OUT"; "OUTS"; "POP"; "POPA"; "POPF";
  "PUSH"; "PUSHA"; "PUSHF"; "RCL"; "RCR"; "REPNZ"; "REPZ"; "RET";
  "RETF"; "ROL"; "ROR"; "SAHF"; "SALC"; "SAR"; "SBB"; "SCASB";
  "SCASW"; "SETBE"; "SETC"; "SETG"; "SETGE"; "SETL"; "SETLE"; "SETNBE";
  "SETNC"; "SETNO"; "SETNP"; "SETNS"; "SETNZ"; "SETO"; "SETP"; "SETS";
  "SETZ"; "SGDT"; "SHL"; "SHLD"; "SHR"; "SHRD"; "SIDT"; "SLDT";
  "SMSW"; "SS:"; "STC"; "STD"; "STI"; "STOSB"; "STOSW"; "STR";
  "SUB"; "TEST"; "VERR"; "VERW"; "WAIT"; "XCHG"; "XLAT"; "XOR"
].

Definition CPU_8086 : Z := 0.
Definition CPU_80186 : Z := 1.
Definition CPU_80286 : Z := 2.
Definition CPU_80386 : Z := 3.
Definition CPUS : list Z := [8086; 80186; 80286; 80386].

(** Register numbers and names. *)
Definition REG_AL : Z := 0x00.
Definition REG_CL : Z := 0x01.
Definition REG_DL : Z := 0x02.
Definition REG_BL : Z := 0x03.
Definition REG_AH : Z := 0x04.
Definition REG_CH : Z := 0x05.
Definition REG_DH : Z := 0x06.
Definition REG_BH : Z := 0x07.
Definition REG_AX : Z := 0x08.
Definition REG_CX : Z := 0x09.
Definition REG_DX : Z := 0x0A.
Definition REG_BX : Z := 0x0B.
Definition REG_SP : Z := 0x0C.
Definition REG_BP : Z := 0x0D.
Definition REG_SI : Z := 0x0E.
Definition REG_DI : Z := 0x0F.
Definition REG_SEG : Z := 0x10.
Definition REG_IP : Z := 0x16.
Definition REG_PS : Z := 0x17.
Definition REG_EAX : Z := 0x18.
Definition REG_CR0 : Z := 0x20.
Definition REG_DR0 : Z := 0x28.
Definition REG_TR0 : Z := 0x30.
Definition REG_EIP : Z := 0x38.

Definition REGS : list (option string) := [
  Some "AL";  Some "CL";  Some "DL";  Some "BL";  Some "AH";  Some "CH";  Some "DH";  Some "BH";
  Some "AX";  Some "CX";  Some "DX";  Some "BX";  Some "SP";  Some "BP";  Some "SI";  Some "DI";
  Some "ES";  Some "CS";  Some "SS";  Some "DS";  Some "FS";  Some "GS";  Some "IP";  Some "PS";
  Some "EAX"; Some "ECX"; Some "EDX"; Some "EBX"; Some "ESP"; Some "EBP"; Some "ESI"; Some "EDI";
  Some "CR0"; Some "CR1"; Some "CR2"; Some "CR3"; None;       None;       None;       None;
  Some "DR0"; Some "DR1"; Some "DR2"; Some "DR3"; None;       None;       Some "DR6"; Some "DR7";
  None;       None;       None;       None;       None;       None;       Some "TR6"; Some "TR7";
  Some "EIP"
].

Definition REG_ES : Z := 0x00.
Definition REG_CS : Z := 0x01.
Definition REG_SS : Z := 0x02.
Definition REG_DS : Z := 0x03.
Definition REG_FS : Z := 0x04.
Definition REG_GS : Z := 0x05.

Definition RMS : list string := [
  "BX+SI"; "BX+DI"; "BP+SI"; "BP+DI"; "SI";    "DI";    "BP";    "BX";
  "EAX";   "ECX";   "EDX";   "EBX";   "ESP";   "EBP";   "ESI";   "EDI"
].

(** Operand type descriptor masks. *)
Definition TYPE_SIZE : Z := 0x000F.
Definition TYPE_MODE : Z := 0x00F0.
Definition TYPE_IREG : Z := 0x0F00.
Definition TYPE_OTHER : Z := 0xF000.

(** [TYPE_SIZE] values *)
Definition TYPE_NONE : Z := 0x0000.
Definition TYPE_BYTE : Z := 0x0001.
Definition TYPE_SBYTE : Z := 0x0002.
Definition TYPE_WORD : Z := 0x0003.
Definition TYPE_VWORD : Z := 0x0004.
Definition TYPE_DWORD : Z := 0x0005.
Definition TYPE_SEGP : Z := 0x0006.
Definition TYPE_FARP : Z := 0x0007.
Definition TYPE_2WORD : Z := 0x0008.
Definition TYPE_DESC : Z := 0x0009.
Definition TYPE_WORDIB : Z := 0x000A.
Definition TYPE_WORDIW : Z := 0x000B.
Definition TYPE_PREFIX : Z := 0x000F.

(** [TYPE_MODE] values *)
Definition TYPE_IMM : Z := 0x0000.
Definition TYPE_ONE : Z := 0x0010.
Definition TYPE_IMMOFF : Z := 0x0020.
Definition TYPE_IMMREL : Z := 0x0030.
Definition TYPE_DSSI : Z := 0x0040.
Definition TYPE_ESDI : Z := 0x0050.
Definition TYPE_IMPREG : Z := 0x0060.
Definition TYPE_IMPSEG : Z := 0x0070.
Definition TYPE_MODRM : Z := 0x0080.
Definition TYPE_MODMEM : Z := 0x0090.
Definition TYPE_MODREG : Z := 0x00A0.
Definition TYPE_REG : Z := 0x00B0.
Definition TYPE_SEGREG : Z := 0x00C0.
Definition TYPE_CTLREG : Z := 0x00D0.
Definition TYPE_DBGREG : Z := 0x00E0.
Definition TYPE_TSTREG : Z := 0x00F0.

(** [TYPE_IREG] values *)
Definition TYPE_AL : Z := JS.shl REG_AL 8 .| TYPE_IMPREG .| TYPE_BYTE.
Definition TYPE_CL : Z := JS.shl REG_CL 8 .| TYPE_IMPREG .| TYPE_BYTE.
Definition TYPE_DL : Z := JS.shl REG_DL 8 .| TYPE_IMPREG .| TYPE_BYTE.
Definition TYPE_BL : Z := JS.shl REG_BL 8 .| TYPE_IMPREG .| TYPE_BYTE.
Definition TYPE_AH : Z := JS.shl REG_AH 8 .| TYPE_IMPREG .| TYPE_BYTE.
Definition TYPE_CH : Z := JS.shl REG_CH 8 .| TYPE_IMPREG .| TYPE_BYTE.
Definition TYPE_DH : Z := JS.shl REG_DH 8 .| TYPE_IMPREG .| TYPE_BYTE.
Definition TYPE_BH : Z := JS.shl REG_BH 8 .| TYPE_IMPREG .| TYPE_BYTE.
Definition TYPE_AX : Z := JS.shl REG_AX 8 .| TYPE_IMPREG .| TYPE_VWORD.
Definition TYPE_CX : Z := JS.shl REG_CX 8 .| TYPE_IMPREG .| TYPE_VWORD.
Definition TYPE_DX : Z := JS.shl REG_DX 8 .| TYPE_IMPREG .| TYPE_VWORD.
Definition TYPE_BX : Z := JS.shl REG_BX 8 .| TYPE_IMPREG .| TYPE_VWORD.
Definition TYPE_SP : Z := JS.shl REG_SP 8 .| TYPE_IMPREG .| TYPE_VWORD.
Definition TYPE_BP : Z := JS.shl REG_BP 8 .| TYPE_IMPREG .| TYPE_VWORD.
Definition TYPE_SI : Z := JS.shl REG_SI 8 .| TYPE_IMPREG .| TYPE_VWORD.
Definition TYPE_DI : Z := JS.shl REG_DI 8 .| TYPE_IMPREG .| TYPE_VWORD.
Definition TYPE_ES : Z := JS.shl REG_ES 8 .| TYPE_IMPSEG .| TYPE_WORD.
Definition TYPE_CS : Z := JS.shl REG_CS 8 .| TYPE_IMPSEG .| TYPE_WORD.
Definition TYPE_SS : Z := JS.shl REG_SS 8 .| TYPE_IMPSEG .| TYPE_WORD.
Definition TYPE_DS : Z := JS.shl REG_DS 8 .| TYPE_IMPSEG .| TYPE_WORD.
Definition TYPE_FS : Z := JS.shl REG_FS 8 .| TYPE_IMPSEG .| TYPE_WORD.
Definition TYPE_GS : Z := JS.shl REG_GS 8 .| TYPE_IMPSEG .| TYPE_WORD.

(** [TYPE_OTHER] bits *)
Definition TYPE_IN : Z := 0x1000.
Definition TYPE_OUT : Z := 0x2000.
Definition TYPE_BOTH : Z := TYPE_IN .| TYPE_OUT.
Definition TYPE_8086 : Z := JS.shl CPU_8086 14.
Definition TYPE_80186 : Z := JS.shl CPU_80186 14.
Definition TYPE_80286 : Z := JS.shl CPU_80286 14.
Definition TYPE_80386 : Z := JS.shl CPU_80386 14.
Definition TYPE_CPU_SHIFT : Z := 14.

Definition aOpDescPopCS : OpDesc := [INS.POP; TYPE_CS .| TYPE_OUT].
Definition aOpDescUndefined : OpDesc := [INS.NONE; TYPE_NONE].
Definition aOpDesc0F : OpDesc := [INS.OP0F; TYPE_WORD .| TYPE_BOTH].

(** [Debugger.aaOpDescs]: the descriptors of the 256 primary opcodes. *)
Definition Debugger_aaOpDescs : list OpDesc := [
  (* 0x00 *) [INS.ADD; TYPE_MODRM .| TYPE_BYTE .| TYPE_BOTH; TYPE_REG .| TYPE_BYTE .| TYPE_IN];
  (* 0x01 *) [INS.ADD; TYPE_MODRM .| TYPE_VWORD .| TYPE_BOTH; TYPE_REG .| TYPE_VWORD .| TYPE_IN];
  (* 0x02 *) [INS.ADD; TYPE_REG .| TYPE_BYTE .| TYPE_BOTH; TYPE_MODRM .| TYPE_BYTE .| TYPE_IN];
  (* 0x03 *) [INS.ADD; TYPE_REG .| TYPE_VWORD .| TYPE_BOTH; TYPE_MODRM .| TYPE_VWORD .| TYPE_IN];
  (* 0x04 *) [INS.ADD; TYPE_AL .| TYPE_BOTH; TYPE_IMM .| TYPE_BYTE .| TYPE_IN];
  (* 0x05 *) [INS.ADD; TYPE_AX .| TYPE_BOTH; TYPE_IMM .| TYPE_VWORD .| TYPE_IN];
  (* 0x06 *) [INS.PUSH; TYPE_ES .| TYPE_IN];
  (* 0x07 *) [INS.POP; TYPE_ES .| TYPE_OUT];
  (* 0x08 *) [INS.OR; TYPE_MODRM .| TYPE_BYTE .| TYPE_BOTH; TYPE_REG .| TYPE_BYTE .| TYPE_IN];
  (* 0x09 *) [INS.OR; TYPE_MODRM .| TYPE_VWORD .| TYPE_BOTH; TYPE_REG .| TYPE_VWORD .| TYPE_IN];
  (* 0x0A *) [INS.OR; TYPE_REG .| TYPE_BYTE .| TYPE_BOTH; TYPE_MODRM .| TYPE_BYTE .| TYPE_IN];
  (* 0x0B *) [INS.OR; TYPE_REG .| TYPE_VWORD .| TYPE_BOTH; TYPE_MODRM .| TYPE_VWORD .| TYPE_IN];
  (* 0x0C *) [INS.OR; TYPE_AL .| TYPE_BOTH; TYPE_IMM .| TYPE_BYTE .| TYPE_IN];
  (* 0x0D *) [INS.OR; TYPE_AX .| TYPE_BOTH; TYPE_IMM .| TYPE_VWORD .| TYPE_IN];
  (* 0x0E *) [INS.PUSH; TYPE_CS .| TYPE_IN];
  (* 0x0F *) aOpDescPopCS;
  (* 0x10 *) [INS.ADC; TYPE_MODRM .| TYPE_BYTE .| TYPE_BOTH; TYPE_REG .| TYPE_BYTE .| TYPE_IN];
  (* 0x11 *) [INS.ADC; TYPE_MODRM .| TYPE_VWORD .| TYPE_BOTH; TYPE_REG .| TYPE_VWORD .| TYPE_IN];
  (* 0x12 *) [INS.ADC; TYPE_REG .| TYPE_BYTE .| TYPE_BOTH; TYPE_MODRM .| TYPE_BYTE .| TYPE_IN];
  (* 0x13 *) [INS.ADC; TYPE_REG .| TYPE_VWORD .| TYPE_BOTH; TYPE_MODRM .| TYPE_VWORD .| TYPE_IN];
  (* 0x14 *) [INS.ADC; TYPE_AL .| TYPE_BOTH; TYPE_IMM .| TYPE_BYTE .| TYPE_IN];
  (* 0x15 *) [INS.ADC; TYPE_AX .| TYPE_BOTH; TYPE_IMM .| TYPE_VWORD .| TYPE_IN];
  (* 0x16 *) [INS.PUSH; TYPE_SS .| TYPE_IN];
  (* 0x17 *) [INS.POP; TYPE_SS .| TYPE_OUT];
  (* 0x18 *) [INS.SBB; TYPE_MODRM .| TYPE_BYTE .| TYPE_BOTH; TYPE_REG .| TYPE_BYTE .| TYPE_IN];
  (* 0x19 *) [INS.SBB; TYPE_MODRM .| TYPE_VWORD .| TYPE_BOTH; TYPE_REG .| TYPE_VWORD .| TYPE_IN];
  (* 0x1A *) [INS.SBB; TYPE_REG .| TYPE_BYTE .| TYPE_BOTH; TYPE_MODRM .| TYPE_BYTE .| TYPE_IN];
  (* 0x1B *) [INS.SBB; TYPE_REG .| TYPE_VWORD .| TYPE_BOTH; TYPE_MODRM .| TYPE_VWORD .| TYPE_IN];
  (* 0x1C *) [INS.SBB; TYPE_AL .| TYPE_BOTH; TYPE_IMM .| TYPE_BYTE .| TYPE_IN];
  (* 0x1D *) [INS.SBB; TYPE_AX .| TYPE_BOTH; TYPE_IMM .| TYPE_VWORD .| TYPE_IN];
  (* 0x1E *) [INS.PUSH; TYPE_DS .| TYPE_IN];
  (* 0x1F *) [INS.POP; TYPE_DS .| TYPE_OUT];
  (* 0x20 *) [INS.AND; TYPE_MODRM .| TYPE_BYTE .| TYPE_BOTH; TYPE_REG .| TYPE_BYTE .| TYPE_IN];
  (* 0x21 *) [INS.AND; TYPE_MODRM .| TYPE_VWORD .| TYPE_BOTH; TYPE_REG .| TYPE_VWORD .| TYPE_IN];
  (* 0x22 *) [INS.AND; TYPE_REG .| TYPE_BYTE .| TYPE_BOTH; TYPE_MODRM .| TYPE_BYTE .| TYPE_IN];
  (* 0x23 *) [INS.AND; TYPE_REG .| TYPE_VWORD .| TYPE_BOTH; TYPE_MODRM .| TYPE_VWORD .| TYPE_IN];
  (* 0x24 *) [INS.AND; TYPE_AL .| TYPE_BOTH; TYPE_IMM .| TYPE_BYTE .| TYPE_IN];
  (* 0x25 *) [INS.AND; TYPE_AX .| TYPE_BOTH; TYPE_IMM .| TYPE_VWORD .| TYPE_IN];
  (* 0x26 *) [INS.ES; TYPE_PREFIX];
  (* 0x27 *) [INS.DAA];
  (* 0x28 *) [INS.SUB; TYPE_MODRM .| TYPE_BYTE .| TYPE_BOTH; TYPE_REG .| TYPE_BYTE .| TYPE_IN];
  (* 0x29 *) [INS.SUB; TYPE_MODRM .| TYPE_VWORD .| TYPE_BOTH; TYPE_REG .| TYPE_VWORD .| TYPE_IN];
  (* 0x2A *) [INS.SUB; TYPE_REG .| TYPE_BYTE .| TYPE_BOTH; TYPE_MODRM .| TYPE_BYTE .| TYPE_IN];
  (* 0x2B *) [INS.SUB; TYPE_REG .| TYPE_VWORD .| TYPE_BOTH; TYPE_MODRM .| TYPE_VWORD .| TYPE_IN];
  (* 0x2C *) [INS.SUB; TYPE_AL .| TYPE_BOTH; TYPE_IMM .| TYPE_BYTE .| TYPE_IN];
  (* 0x2D *) [INS.SUB; TYPE_AX .| TYPE_BOTH; TYPE_IMM .| TYPE_VWORD .| TYPE_IN];
  (* 0x2E *) [INS.CS; TYPE_PREFIX];
  (* 0x2F *) [INS.DAS];
  (* 0x30 *) [INS.XOR; TYPE_MODRM .| TYPE_BYTE .| TYPE_BOTH; TYPE_REG .| TYPE_BYTE .| TYPE_IN];
  (* 0x31 *) [INS.XOR; TYPE_MODRM .| TYPE_VWORD .| TYPE_BOTH; TYPE_REG .| TYPE_VWORD .| TYPE_IN];
  (* 0x32 *) [INS.XOR; TYPE_REG .| TYPE_BYTE .| TYPE_BOTH; TYPE_MODRM .| TYPE_BYTE .| TYPE_IN];
  (* 0x33 *) [INS.XOR; TYPE_REG .| TYPE_VWORD .| TYPE_BOTH; TYPE_MODRM .| TYPE_VWORD .| TYPE_IN];
  (* 0x34 *) [INS.XOR; TYPE_AL .| TYPE_BOTH; TYPE_IMM .| TYPE_BYTE .| TYPE_IN];
  (* 0x35 *) [INS.XOR; TYPE_AX .| TYPE_BOTH; TYPE_IMM .| TYPE_VWORD .| TYPE_IN];
  (* 0x36 *) [INS.SS; TYPE_PREFIX];
  (* 0x37 *) [INS.AAA];
  (* 0x38 *) [INS.CMP; TYPE_MODRM .| TYPE_BYTE .| TYPE_IN; TYPE_REG .| TYPE_BYTE .| TYPE_IN];
  (* 0x39 *) [INS.CMP; TYPE_MODRM .| TYPE_VWORD .| TYPE_IN; TYPE_REG .| TYPE_VWORD .| TYPE_IN];
  (* 0x3A *) [INS.CMP; TYPE_REG .| TYPE_BYTE .| TYPE_IN; TYPE_MODRM .| TYPE_BYTE .| TYPE_IN];
  (* 0x3B *) [INS.CMP; TYPE_REG .| TYPE_VWORD .| TYPE_IN; TYPE_MODRM .| TYPE_VWORD .| TYPE_IN];
  (* 0x3C *) [INS.CMP; TYPE_AL .| TYPE_IN; TYPE_IMM .| TYPE_BYTE .| TYPE_IN];
  (* 0x3D *) [INS.CMP; TYPE_AX .| TYPE_IN; TYPE_IMM .| TYPE_VWORD .| TYPE_IN];
  (* 0x3E *) [INS.DS; TYPE_PREFIX];
  (* 0x3F *) [INS.AAS];
  (* 0x40 *) [INS.INC; TYPE_AX .| TYPE_BOTH];
  (* 0x41 *) [INS.INC; TYPE_CX .| TYPE_BOTH];
  (* 0x42 *) [INS.INC; TYPE_DX .| TYPE_BOTH];
  (* 0x43 *) [INS.INC; TYPE_BX .| TYPE_BOTH];
  (* 0x44 *) [INS.INC; TYPE_SP .| TYPE_BOTH];
  (* 0x45 *) [INS.INC; TYPE_BP .| TYPE_BOTH];
  (* 0x46 *) [INS.INC; TYPE_SI .| TYPE_BOTH];
  (* 0x47 *) [INS.INC; TYPE_DI .| TYPE_BOTH];
  (* 0x48 *) [INS.DEC; TYPE_AX .| TYPE_BOTH];
  (* 0x49 *) [INS.DEC; TYPE_CX .| TYPE_BOTH];
  (* 0x4A *) [INS.DEC; TYPE_DX .| TYPE_BOTH];
  (* 0x4B *) [INS.DEC; TYPE_BX .| TYPE_BOTH];
  (* 0x4C *) [INS.DEC; TYPE_SP .| TYPE_BOTH];
  (* 0x4D *) [INS.DEC; TYPE_BP .| TYPE_BOTH];
  (* 0x4E *) [INS.DEC; TYPE_SI .| TYPE_BOTH];
  (* 0x4F *) [INS.DEC; TYPE_DI .| TYPE_BOTH];
  (* 0x50 *) [INS.PUSH; TYPE_AX .| TYPE_IN];
  (* 0x51 *) [INS.PUSH; TYPE_CX .| TYPE_IN];
  (* 0x52 *) [INS.PUSH; TYPE_DX .| TYPE_IN];
  (* 0x53 *) [INS.PUSH; TYPE_BX .| TYPE_IN];
  (* 0x54 *) [INS.PUSH; TYPE_SP .| TYPE_IN];
  (* 0x55 *) [INS.PUSH; TYPE_BP .| TYPE_IN];
  (* 0x56 *) [INS.PUSH; TYPE_SI .| TYPE_IN];
  (* 0x57 *) [INS.PUSH; TYPE_DI .| TYPE_IN];
  (* 0x58 *) [INS.POP; TYPE_AX .| TYPE_OUT];
  (* 0x59 *) [INS.POP; TYPE_CX .| TYPE_OUT];
  (* 0x5A *) [INS.POP; TYPE_DX .| TYPE_OUT];
  (* 0x5B *) [INS.POP; TYPE_BX .| TYPE_OUT];
  (* 0x5C *) [INS.POP; TYPE_SP .| TYPE_OUT];
  (* 0x5D *) [INS.POP; TYPE_BP .| TYPE_OUT];
  (* 0x5E *) [INS.POP; TYPE_SI .| TYPE_OUT];
  (* 0x5F *) [INS.POP; TYPE_DI .| TYPE_OUT];
  (* 0x60 *) [INS.PUSHA; TYPE_NONE .| TYPE_80286];
  (* 0x61 *) [INS.POPA; TYPE_NONE .| TYPE_80286];
  (* 0x62 *) [INS.BOUND; TYPE_REG .| TYPE_VWORD .| TYPE_IN .| TYPE_80286; TYPE_MODRM .| TYPE_2WORD .| TYPE_IN];
  (* 0x63 *) [INS.ARPL; TYPE_MODRM .| TYPE_WORD .| TYPE_OUT; TYPE_REG .| TYPE_WORD .| TYPE_IN];
  (* 0x64 *) [INS.FS; TYPE_PREFIX .| TYPE_80386];
  (* 0x65 *) [INS.GS; TYPE_PREFIX .| TYPE_80386];
  (* 0x66 *) [INS.OS; TYPE_PREFIX .| TYPE_80386];
  (* 0x67 *) [INS.AS; TYPE_PREFIX .| TYPE_80386];
  (* 0x68 *) [INS.PUSH; TYPE_IMM .| TYPE_VWORD .| TYPE_IN .| TYPE_80286];
  (* 0x69 *) [INS.IMUL; TYPE_REG .| TYPE_WORD .| TYPE_BOTH .| TYPE_80286; TYPE_MODRM .| TYPE_WORDIW .| TYPE_IN];
  (* 0x6A *) [INS.PUSH; TYPE_IMM .| TYPE_SBYTE .| TYPE_IN .| TYPE_80286];
  (* 0x6B *) [INS.IMUL; TYPE_REG .| TYPE_WORD .| TYPE_BOTH .| TYPE_80286; TYPE_MODRM .| TYPE_WORDIB .| TYPE_IN];
  (* 0x6C *) [INS.INS; TYPE_ESDI .| TYPE_BYTE .| TYPE_OUT .| TYPE_80286; TYPE_DX .| TYPE_IN];
  (* 0x6D *) [INS.INS; TYPE_ESDI .| TYPE_VWORD .| TYPE_OUT .| TYPE_80286; TYPE_DX .| TYPE_IN];
  (* 0x6E *) [INS.OUTS; TYPE_DX .| TYPE_IN .| TYPE_80286; TYPE_DSSI .| TYPE_BYTE .| TYPE_IN];
  (* 0x6F *) [INS.OUTS; TYPE_DX .| TYPE_IN .| TYPE_80286; TYPE_DSSI .| TYPE_VWORD .| TYPE_IN];
  (* 0x70 *) [INS.JO; TYPE_IMMREL .| TYPE_BYTE .| TYPE_IN];
  (* 0x71 *) [INS.JNO; TYPE_IMMREL .| TYPE_BYTE .| TYPE_IN];
  (* 0x72 *) [INS.JC; TYPE_IMMREL .| TYPE_BYTE .| TYPE_IN];
  (* 0x73 *) [INS.JNC; TYPE_IMMREL .| TYPE_BYTE .| TYPE_IN];
  (* 0x74 *) [INS.JZ; TYPE_IMMREL .| TYPE_BYTE .| TYPE_IN];
  (* 0x75 *) [INS.JNZ; TYPE_IMMREL .| TYPE_BYTE .| TYPE_IN];
  (* 0x76 *) [INS.JBE; TYPE_IMMREL .| TYPE_BYTE .| TYPE_IN];
  (* 0x77 *) [INS.JA; TYPE_IMMREL .| TYPE_BYTE .| TYPE_IN];
  (* 0x78 *) [INS.JS; TYPE_IMMREL .| TYPE_BYTE .| TYPE_IN];
  (* 0x79 *) [INS.JNS; TYPE_IMMREL .| TYPE_BYTE .| TYPE_IN];
  (* 0x7A *) [INS.JP; TYPE_IMMREL .| TYPE_BYTE .| TYPE_IN];
  (* 0x7B *) [INS.JNP; TYPE_IMMREL .| TYPE_BYTE .| TYPE_IN];
  (* 0x7C *) [INS.JL; TYPE_IMMREL .| TYPE_BYTE .| TYPE_IN];
  (* 0x7D *) [INS.JGE; TYPE_IMMREL .| TYPE_BYTE .| TYPE_IN];
  (* 0x7E *) [INS.JLE; TYPE_IMMREL .| TYPE_BYTE .| TYPE_IN];
  (* 0x7F *) [INS.JG; TYPE_IMMREL .| TYPE_BYTE .| TYPE_IN];
  (* 0x80 *) [INS.GRP1B; TYPE_MODRM .| TYPE_BYTE .| TYPE_BOTH; TYPE_IMM .| TYPE_BYTE .| TYPE_IN];
  (* 0x81 *) [INS.GRP1W; TYPE_MODRM .| TYPE_VWORD .| TYPE_BOTH; TYPE_IMM .| TYPE_VWORD .| TYPE_IN];
  (* 0x82 *) [INS.GRP1B; TYPE_MODRM .| TYPE_BYTE .| TYPE_BOTH; TYPE_IMM .| TYPE_BYTE .| TYPE_IN];
  (* 0x83 *) [INS.GRP1SW; TYPE_MODRM .| TYPE_VWORD .| TYPE_BOTH; TYPE_IMM .| TYPE_BYTE .| TYPE_IN];
  (* 0x84 *) [INS.TEST; TYPE_MODRM .| TYPE_BYTE .| TYPE_IN; TYPE_REG .| TYPE_BYTE .| TYPE_IN];
  (* 0x85 *) [INS.TEST; TYPE_MODRM .| TYPE_VWORD .| TYPE_IN; TYPE_REG .| TYPE_VWORD .| TYPE_IN];
  (* 0x86 *) [INS.XCHG; TYPE_REG .| TYPE_BYTE .| TYPE_BOTH; TYPE_MODRM .| TYPE_BYTE .| TYPE_BOTH];
  (* 0x87 *) [INS.XCHG; TYPE_REG .| TYPE_VWORD .| TYPE_BOTH; TYPE_MODRM .| TYPE_VWORD .| TYPE_BOTH];
  (* 0x88 *) [INS.MOV; TYPE_MODRM .| TYPE_BYTE .| TYPE_OUT; TYPE_REG .| TYPE_BYTE .| TYPE_IN];
  (* 0x89 *) [INS.MOV; TYPE_MODRM .| TYPE_VWORD .| TYPE_OUT; TYPE_REG .| TYPE_VWORD .| TYPE_IN];
  (* 0x8A *) [INS.MOV; TYPE_REG .| TYPE_BYTE .| TYPE_OUT; TYPE_MODRM .| TYPE_BYTE .| TYPE_IN];
  (* 0x8B *) [INS.MOV; TYPE_REG .| TYPE_VWORD .| TYPE_OUT; TYPE_MODRM .| TYPE_VWORD .| TYPE_IN];
  (* 0x8C *) [INS.MOV; TYPE_MODRM .| TYPE_VWORD .| TYPE_OUT; TYPE_SEGREG .| TYPE_WORD .| TYPE_IN];
  (* 0x8D *) [INS.LEA; TYPE_REG .| TYPE_VWORD .| TYPE_OUT; TYPE_MODMEM .| TYPE_VWORD];
  (* 0x8E *) [INS.MOV; TYPE_SEGREG .| TYPE_WORD .| TYPE_OUT; TYPE_MODRM .| TYPE_VWORD .| TYPE_IN];
  (* 0x8F *) [INS.POP; TYPE_MODRM .| TYPE_VWORD .| TYPE_OUT];
  (* 0x90 *) [INS.NOP];
  (* 0x91 *) [INS.XCHG; TYPE_AX .| TYPE_BOTH; TYPE_CX .| TYPE_BOTH];
  (* 0x92 *) [INS.XCHG; TYPE_AX .| TYPE_BOTH; TYPE_DX .| TYPE_BOTH];
  (* 0x93 *) [INS.XCHG; TYPE_AX .| TYPE_BOTH; TYPE_BX .| TYPE_BOTH];
  (* 0x94 *) [INS.XCHG; TYPE_AX .| TYPE_BOTH; TYPE_SP .| TYPE_BOTH];
  (* 0x95 *) [INS.XCHG; TYPE_AX .| TYPE_BOTH; TYPE_BP .| TYPE_BOTH];
  (* 0x96 *) [INS.XCHG; TYPE_AX .| TYPE_BOTH; TYPE_SI .| TYPE_BOTH];
  (* 0x97 *) [INS.XCHG; TYPE_AX .| TYPE_BOTH; TYPE_DI .| TYPE_BOTH];
  (* 0x98 *) [INS.CBW];
  (* 0x99 *) [INS.CWD];
  (* 0x9A *) [INS.CALL; TYPE_IMM .| TYPE_FARP .| TYPE_IN];
  (* 0x9B *) [INS.WAIT];
  (* 0x9C *) [INS.PUSHF];
  (* 0x9D *) [INS.POPF];
  (* 0x9E *) [INS.SAHF];
  (* 0x9F *) [INS.LAHF];
  (* 0xA0 *) [INS.MOV; TYPE_AL .| TYPE_OUT; TYPE_IMMOFF .| TYPE_BYTE .| TYPE_IN];
  (* 0xA1 *) [INS.MOV; TYPE_AX .| TYPE_OUT; TYPE_IMMOFF .| TYPE_VWORD .| TYPE_IN];
  (* 0xA2 *) [INS.MOV; TYPE_IMMOFF .| TYPE_BYTE .| TYPE_OUT; TYPE_AL .| TYPE_IN];
  (* 0xA3 *) [INS.MOV; TYPE_IMMOFF .| TYPE_VWORD .| TYPE_OUT; TYPE_AX .| TYPE_IN];
  (* 0xA4 *) [INS.MOVSB; TYPE_ESDI .| TYPE_BYTE .| TYPE_OUT; TYPE_DSSI .| TYPE_BYTE .| TYPE_IN];
  (* 0xA5 *) [INS.MOVSW; TYPE_ESDI .| TYPE_VWORD .| TYPE_OUT; TYPE_DSSI .| TYPE_VWORD .| TYPE_IN];
  (* 0xA6 *) [INS.CMPSB; TYPE_ESDI .| TYPE_BYTE .| TYPE_IN; TYPE_DSSI .| TYPE_BYTE .| TYPE_IN];
  (* 0xA7 *) [INS.CMPSW; TYPE_ESDI .| TYPE_VWORD .| TYPE_IN; TYPE_DSSI .| TYPE_VWORD .| TYPE_IN];
  (* 0xA8 *) [INS.TEST; TYPE_AL .| TYPE_IN; TYPE_IMM .| TYPE_BYTE .| TYPE_IN];
  (* 0xA9 *) [INS.TEST; TYPE_AX .| TYPE_IN; TYPE_IMM .| TYPE_VWORD .| TYPE_IN];
  (* 0xAA *) [INS.STOSB; TYPE_ESDI .| TYPE_BYTE .| TYPE_OUT; TYPE_AL .| TYPE_IN];
  (* 0xAB *) [INS.STOSW; TYPE_ESDI .| TYPE_VWORD .| TYPE_OUT; TYPE_AX .| TYPE_IN];
  (* 0xAC *) [INS.LODSB; TYPE_AL .| TYPE_OUT; TYPE_DSSI .| TYPE_BYTE .| TYPE_IN];
  (* 0xAD *) [INS.LODSW; TYPE_AX .| TYPE_OUT; TYPE_DSSI .| TYPE_VWORD .| TYPE_IN];
  (* 0xAE *) [INS.SCASB; TYPE_AL .| TYPE_IN; TYPE_ESDI .| TYPE_BYTE .| TYPE_IN];
  (* 0xAF *) [INS.SCASW; TYPE_AX .| TYPE_IN; TYPE_ESDI .| TYPE_VWORD .| TYPE_IN];
  (* 0xB0 *) [INS.MOV; TYPE_AL .| TYPE_OUT; TYPE_IMM .| TYPE_BYTE .| TYPE_IN];
  (* 0xB1 *) [INS.MOV; TYPE_CL .| TYPE_OUT; TYPE_IMM .| TYPE_BYTE .| TYPE_IN];
  (* 0xB2 *) [INS.MOV; TYPE_DL .| TYPE_OUT; TYPE_IMM .| TYPE_BYTE .| TYPE_IN];
  (* 0xB3 *) [INS.MOV; TYPE_BL .| TYPE_OUT; TYPE_IMM .| TYPE_BYTE .| TYPE_IN];
  (* 0xB4 *) [INS.MOV; TYPE_AH .| TYPE_OUT; TYPE_IMM .| TYPE_BYTE .| TYPE_IN];
  (* 0xB5 *) [INS.MOV; TYPE_CH .| TYPE_OUT; TYPE_IMM .| TYPE_BYTE .| TYPE_IN];
  (* 0xB6 *) [INS.MOV; TYPE_DH .| TYPE_OUT; TYPE_IMM .| TYPE_BYTE .| TYPE_IN];
  (* 0xB7 *) [INS.MOV; TYPE_BH .| TYPE_OUT; TYPE_IMM .| TYPE_BYTE .| TYPE_IN];
  (* 0xB8 *) [INS.MOV; TYPE_AX .| TYPE_OUT; TYPE_IMM .| TYPE_VWORD .| TYPE_IN];
  (* 0xB9 *) [INS.MOV; TYPE_CX .| TYPE_OUT; TYPE_IMM .| TYPE_VWORD .| TYPE_IN];
  (* 0xBA *) [INS.MOV; TYPE_DX .| TYPE_OUT; TYPE_IMM .| TYPE_VWORD .| TYPE_IN];
  (* 0xBB *) [INS.MOV; TYPE_BX .| TYPE_OUT; TYPE_IMM .| TYPE_VWORD .| TYPE_IN];
  (* 0xBC *) [INS.MOV; TYPE_SP .| TYPE_OUT; TYPE_IMM .| TYPE_VWORD .| TYPE_IN];
  (* 0xBD *) [INS.MOV; TYPE_BP .| TYPE_OUT; TYPE_IMM .| TYPE_VWORD .| TYPE_IN];
  (* 0xBE *) [INS.MOV; TYPE_SI .| TYPE_OUT; TYPE_IMM .| TYPE_VWORD .| TYPE_IN];
  (* 0xBF *) [INS.MOV; TYPE_DI .| TYPE_OUT; TYPE_IMM .| TYPE_VWORD .| TYPE_IN];
  (* 0xC0 *) [INS.GRP2B; TYPE_MODRM .| TYPE_BYTE .| TYPE_BOTH .| TYPE_80186; TYPE_IMM .| TYPE_BYTE .| TYPE_IN];
  (* 0xC1 *) [INS.GRP2W; TYPE_MODRM .| TYPE_VWORD .| TYPE_BOTH .| TYPE_80186; TYPE_IMM .| TYPE_BYTE .| TYPE_IN];
  (* 0xC2 *) [INS.RET; TYPE_IMM .| TYPE_WORD .| TYPE_IN];
  (* 0xC3 *) [INS.RET];
  (* 0xC4 *) [INS.LES; TYPE_REG .| TYPE_VWORD .| TYPE_OUT; TYPE_MODMEM .| TYPE_SEGP .| TYPE_IN];
  (* 0xC5 *) [INS.LDS; TYPE_REG .| TYPE_VWORD .| TYPE_OUT; TYPE_MODMEM .| TYPE_SEGP .| TYPE_IN];
  (* 0xC6 *) [INS.MOV; TYPE_MODRM .| TYPE_BYTE .| TYPE_OUT; TYPE_IMM .| TYPE_BYTE .| TYPE_IN];
  (* 0xC7 *) [INS.MOV; TYPE_MODRM .| TYPE_VWORD .| TYPE_OUT; TYPE_IMM .| TYPE_VWORD .| TYPE_IN];
  (* 0xC8 *) [INS.ENTER; TYPE_IMM .| TYPE_WORD .| TYPE_IN .| TYPE_80286; TYPE_IMM .| TYPE_BYTE .| TYPE_IN];
  (* 0xC9 *) [INS.LEAVE; TYPE_NONE .| TYPE_80286];
  (* 0xCA *) [INS.RETF; TYPE_IMM .| TYPE_WORD .| TYPE_IN];
  (* 0xCB *) [INS.RETF];
  (* 0xCC *) [INS.INT3];
  (* 0xCD *) [INS.INT; TYPE_IMM .| TYPE_BYTE .| TYPE_IN];
  (* 0xCE *) [INS.INTO];
  (* 0xCF *) [INS.IRET];
  (* 0xD0 *) [INS.GRP2B1; TYPE_MODRM .| TYPE_BYTE .| TYPE_BOTH; TYPE_ONE .| TYPE_BYTE .| TYPE_IN];
  (* 0xD1 *) [INS.GRP2W1; TYPE_MODRM .| TYPE_VWORD .| TYPE_BOTH; TYPE_ONE .| TYPE_BYTE .| TYPE_IN];
  (* 0xD2 *) [INS.GRP2BC; TYPE_MODRM .| TYPE_BYTE .| TYPE_BOTH; TYPE_IMPREG .| TYPE_CL .| TYPE_IN];
  (* 0xD3 *) [INS.GRP2WC; TYPE_MODRM .| TYPE_VWORD .| TYPE_BOTH; TYPE_IMPREG .| TYPE_CL .| TYPE_IN];
  (* 0xD4 *) [INS.AAM; TYPE_IMM .| TYPE_BYTE];
  (* 0xD5 *) [INS.AAD; TYPE_IMM .| TYPE_BYTE];
  (* 0xD6 *) [INS.SALC];
  (* 0xD7 *) [INS.XLAT];
  (* 0xD8 *) [INS.ESC; TYPE_MODRM .| TYPE_VWORD .| TYPE_IN];
  (* 0xD9 *) [INS.ESC; TYPE_MODRM .| TYPE_VWORD .| TYPE_IN];
  (* 0xDA *) [INS.ESC; TYPE_MODRM .| TYPE_VWORD .| TYPE_IN];
  (* 0xDB *) [INS.ESC; TYPE_MODRM .| TYPE_VWORD .| TYPE_IN];
  (* 0xDC *) [INS.ESC; TYPE_MODRM .| TYPE_VWORD .| TYPE_IN];
  (* 0xDD *) [INS.ESC; TYPE_MODRM .| TYPE_VWORD .| TYPE_IN];
  (* 0xDE *) [INS.ESC; TYPE_MODRM .| TYPE_VWORD .| TYPE_IN];
  (* 0xDF *) [INS.ESC; TYPE_MODRM .| TYPE_VWORD .| TYPE_IN];
  (* 0xE0 *) [INS.LOOPNZ; TYPE_IMMREL .| TYPE_BYTE .| TYPE_IN];
  (* 0xE1 *) [INS.LOOPZ; TYPE_IMMREL .| TYPE_BYTE .| TYPE_IN];
  (* 0xE2 *) [INS.LOOP; TYPE_IMMREL .| TYPE_BYTE .| TYPE_IN];
  (* 0xE3 *) [INS.JCXZ; TYPE_IMMREL .| TYPE_BYTE .| TYPE_IN];
  (* 0xE4 *) [INS.IN; TYPE_AL .| TYPE_OUT; TYPE_IMM .| TYPE_BYTE .| TYPE_IN];
  (* 0xE5 *) [INS.IN; TYPE_AX .| TYPE_OUT; TYPE_IMM .| TYPE_BYTE .| TYPE_IN];
  (* 0xE6 *) [INS.OUT; TYPE_IMM .| TYPE_BYTE .| TYPE_IN; TYPE_AL .| TYPE_IN];
  (* 0xE7 *) [INS.OUT; TYPE_IMM .| TYPE_BYTE .| TYPE_IN; TYPE_AX .| TYPE_IN];
  (* 0xE8 *) [INS.CALL; TYPE_IMMREL .| TYPE_VWORD .| TYPE_IN];
  (* 0xE9 *) [INS.JMP; TYPE_IMMREL .| TYPE_VWORD .| TYPE_IN];
  (* 0xEA *) [INS.JMP; TYPE_IMM .| TYPE_FARP .| TYPE_IN];
  (* 0xEB *) [INS.JMP; TYPE_IMMREL .| TYPE_BYTE .| TYPE_IN];
  (* 0xEC *) [INS.IN; TYPE_AL .| TYPE_OUT; TYPE_DX .| TYPE_IN];
  (* 0xED *) [INS.IN; TYPE_AX .| TYPE_OUT; TYPE_DX .| TYPE_IN];
  (* 0xEE *) [INS.OUT; TYPE_DX .| TYPE_IN; TYPE_AL .| TYPE_IN];
  (* 0xEF *) [INS.OUT; TYPE_DX .| TYPE_IN; TYPE_AX .| TYPE_IN];
  (* 0xF0 *) [INS.LOCK; TYPE_PREFIX];
  (* 0xF1 *) [INS.NONE];
  (* 0xF2 *) [INS.REPNZ; TYPE_PREFIX];
  (* 0xF3 *) [INS.REPZ; TYPE_PREFIX];
  (* 0xF4 *) [INS.HLT];
  (* 0xF5 *) [INS.CMC];
  (* 0xF6 *) [INS.GRP3B; TYPE_MODRM .| TYPE_BYTE .| TYPE_BOTH];
  (* 0xF7 *) [INS.GRP3W; TYPE_MODRM .| TYPE_VWORD .| TYPE_BOTH];
  (* 0xF8 *) [INS.CLC];
  (* 0xF9 *) [INS.STC];
  (* 0xFA *) [INS.CLI];
  (* 0xFB *) [INS.STI];
  (* 0xFC *) [INS.CLD];
  (* 0xFD *) [INS.STD];
  (* 0xFE *) [INS.GRP4B; TYPE_MODRM .| TYPE_BYTE .| TYPE_BOTH];
  (* 0xFF *) [INS.GRP4W; TYPE_MODRM .| TYPE_VWORD .| TYPE_BOTH]
].

(** [Debugger.aaOp0FDescs]: the two-byte opcodes, by second byte. *)
Definition aaOp0FDescs : list (Z * OpDesc) := [
  (0x00, [INS.GRP6; TYPE_MODRM .| TYPE_WORD .| TYPE_BOTH]);
  (0x01, [INS.GRP7; TYPE_MODRM .| TYPE_WORD .| TYPE_BOTH]);
  (0x02, [INS.LAR; TYPE_REG .| TYPE_WORD .| TYPE_OUT .| TYPE_80286; TYPE_MODMEM .| TYPE_WORD .| TYPE_IN]);
  (0x03, [INS.LSL; TYPE_REG .| TYPE_WORD .| TYPE_OUT .| TYPE_80286; TYPE_MODMEM .| TYPE_WORD .| TYPE_IN]);
  (0x05, [INS.LOADALL; TYPE_80286]);
  (0x06, [INS.CLTS; TYPE_80286]);
  (0x20, [INS.MOV; TYPE_MODREG .| TYPE_DWORD .| TYPE_OUT .| TYPE_80386; TYPE_CTLREG .| TYPE_DWORD .| TYPE_IN]);
  (0x21, [INS.MOV; TYPE_MODREG .| TYPE_DWORD .| TYPE_OUT .| TYPE_80386; TYPE_DBGREG .| TYPE_DWORD .| TYPE_IN]);
  (0x22, [INS.MOV; TYPE_CTLREG .| TYPE_DWORD .| TYPE_OUT .| TYPE_80386; TYPE_MODREG .| TYPE_DWORD .| TYPE_IN]);
  (0x23, [INS.MOV; TYPE_DBGREG .| TYPE_DWORD .| TYPE_OUT .| TYPE_80386; TYPE_MODREG .| TYPE_DWORD .| TYPE_IN]);
  (0x24, [INS.MOV; TYPE_MODREG .| TYPE_DWORD .| TYPE_OUT .| TYPE_80386; TYPE_TSTREG .| TYPE_DWORD .| TYPE_IN]);
  (0x26, [INS.MOV; TYPE_TSTREG .| TYPE_DWORD .| TYPE_OUT .| TYPE_80386; TYPE_MODREG .| TYPE_DWORD .| TYPE_IN]);
  (0x80, [INS.JO; TYPE_IMMREL .| TYPE_VWORD .| TYPE_IN .| TYPE_80386]);
  (0x81, [INS.JNO; TYPE_IMMREL .| TYPE_VWORD .| TYPE_IN .| TYPE_80386]);
  (0x82, [INS.JC; TYPE_IMMREL .| TYPE_VWORD .| TYPE_IN .| TYPE_80386]);
  (0x83, [INS.JNC; TYPE_IMMREL .| TYPE_VWORD .| TYPE_IN .| TYPE_80386]);
  (0x84, [INS.JZ; TYPE_IMMREL .| TYPE_VWORD .| TYPE_IN .| TYPE_80386]);
  (0x85, [INS.JNZ; TYPE_IMMREL .| TYPE_VWORD .| TYPE_IN .| TYPE_80386]);
  (0x86, [INS.JBE; TYPE_IMMREL .| TYPE_VWORD .| TYPE_IN .| TYPE_80386]);
  (0x87, [INS.JA; TYPE_IMMREL .| TYPE_VWORD .| TYPE_IN .| TYPE_80386]);
  (0x88, [INS.JS; TYPE_IMMREL .| TYPE_VWORD .| TYPE_IN .| TYPE_80386]);
  (0x89, [INS.JNS; TYPE_IMMREL .| TYPE_VWORD .| TYPE_IN .| TYPE_80386]);
  (0x8A, [INS.JP; TYPE_IMMREL .| TYPE_VWORD .| TYPE_IN .| TYPE_80386]);
  (0x8B, [INS.JNP; TYPE_IMMREL .| TYPE_VWORD .| TYPE_IN .| TYPE_80386]);
  (0x8C, [INS.JL; TYPE_IMMREL .| TYPE_VWORD .| TYPE_IN .| TYPE_80386]);
  (0x8D, [INS.JGE; TYPE_IMMREL .| TYPE_VWORD .| TYPE_IN .| TYPE_80386]);
  (0x8E, [INS.JLE; TYPE_IMMREL .| TYPE_VWORD .| TYPE_IN .| TYPE_80386]);
  (0x8F, [INS.JG; TYPE_IMMREL .| TYPE_VWORD .| TYPE_IN .| TYPE_80386]);
  (0x90, [INS.SETO; TYPE_MODRM .| TYPE_BYTE .| TYPE_OUT .| TYPE_80386]);
  (0x91, [INS.SETNO; TYPE_MODRM .| TYPE_BYTE .| TYPE_OUT .| TYPE_80386]);
  (0x92, [INS.SETC; TYPE_MODRM .| TYPE_BYTE .| TYPE_OUT .| TYPE_80386]);
  (0x93, [INS.SETNC; TYPE_MODRM .| TYPE_BYTE .| TYPE_OUT .| TYPE_80386]);
  (0x94, [INS.SETZ; TYPE_MODRM .| TYPE_BYTE .| TYPE_OUT .| TYPE_80386]);
  (0x95, [INS.SETNZ; TYPE_MODRM .| TYPE_BYTE .| TYPE_OUT .| TYPE_80386]);
  (0x96, [INS.SETBE; TYPE_MODRM .| TYPE_BYTE .| TYPE_OUT .| TYPE_80386]);
  (0x97, [INS.SETNBE; TYPE_MODRM .| TYPE_BYTE .| TYPE_OUT .| TYPE_80386]);
  (0x98, [INS.SETS; TYPE_MODRM .| TYPE_BYTE .| TYPE_OUT .| TYPE_80386]);
  (0x99, [INS.SETNS; TYPE_MODRM .| TYPE_BYTE .| TYPE_OUT .| TYPE_80386]);
  (0x9A, [INS.SETP; TYPE_MODRM .| TYPE_BYTE .| TYPE_OUT .| TYPE_80386]);
  (0x9B, [INS.SETNP; TYPE_MODRM .| TYPE_BYTE .| TYPE_OUT .| TYPE_80386]);
  (0x9C, [INS.SETL; TYPE_MODRM .| TYPE_BYTE .| TYPE_OUT .| TYPE_80386]);
  (0x9D, [INS.SETGE; TYPE_MODRM .| TYPE_BYTE .| TYPE_OUT .| TYPE_80386]);
  (0x9E, [INS.SETLE; TYPE_MODRM .| TYPE_BYTE .| TYPE_OUT .| TYPE_80386]);
  (0x9F, [INS.SETG; TYPE_MODRM .| TYPE_BYTE .| TYPE_OUT .| TYPE_80386]);
  (0xA0, [INS.PUSH; TYPE_FS .| TYPE_IN .| TYPE_80386]);
  (0xA1, [INS.POP; TYPE_FS .| TYPE_OUT .| TYPE_80386]);
  (0xA3, [INS.BT; TYPE_MODRM .| TYPE_VWORD .| TYPE_IN .| TYPE_80386; TYPE_REG .| TYPE_VWORD .| TYPE_IN]);
  (0xA4, [INS.SHLD; TYPE_MODRM .| TYPE_VWORD .| TYPE_OUT .| TYPE_80386; TYPE_REG .| TYPE_VWORD .| TYPE_IN; TYPE_IMM .| TYPE_BYTE .| TYPE_IN]);
  (0xA5, [INS.SHLD; TYPE_MODRM .| TYPE_VWORD .| TYPE_OUT .| TYPE_80386; TYPE_REG .| TYPE_VWORD .| TYPE_IN; TYPE_IMPREG .| TYPE_CL .| TYPE_IN]);
  (0xA8, [INS.PUSH; TYPE_GS .| TYPE_IN .| TYPE_80386]);
  (0xA9, [INS.POP; TYPE_GS .| TYPE_OUT .| TYPE_80386]);
  (0xAB, [INS.BTS; TYPE_MODRM .| TYPE_VWORD .| TYPE_OUT .| TYPE_80386; TYPE_REG .| TYPE_VWORD .| TYPE_IN]);
  (0xAC, [INS.SHRD; TYPE_MODRM .| TYPE_VWORD .| TYPE_OUT .| TYPE_80386; TYPE_REG .| TYPE_VWORD .| TYPE_IN; TYPE_IMM .| TYPE_BYTE .| TYPE_IN]);
  (0xAD, [INS.SHRD; TYPE_MODRM .| TYPE_VWORD .| TYPE_OUT .| TYPE_80386; TYPE_REG .| TYPE_VWORD .| TYPE_IN; TYPE_IMPREG .| TYPE_CL .| TYPE_IN]);
  (0xAF, [INS.IMUL; TYPE_MODRM .| TYPE_VWORD .| TYPE_BOTH .| TYPE_80386; TYPE_REG .| TYPE_VWORD .| TYPE_IN]);
  (0xB2, [INS.LSS; TYPE_REG .| TYPE_VWORD .| TYPE_OUT; TYPE_MODMEM .| TYPE_SEGP .| TYPE_IN]);
  (0xB3, [INS.BTR; TYPE_MODRM .| TYPE_VWORD .| TYPE_OUT .| TYPE_80386; TYPE_REG .| TYPE_VWORD .| TYPE_IN]);
  (0xB4, [INS.LFS; TYPE_REG .| TYPE_VWORD .| TYPE_OUT; TYPE_MODMEM .| TYPE_SEGP .| TYPE_IN]);
  (0xB5, [INS.LGS; TYPE_REG .| TYPE_VWORD .| TYPE_OUT; TYPE_MODMEM .| TYPE_SEGP .| TYPE_IN]);
  (0xB6, [INS.MOVZX; TYPE_REG .| TYPE_VWORD .| TYPE_OUT .| TYPE_80386; TYPE_MODRM .| TYPE_BYTE .| TYPE_IN]);
  (0xB7, [INS.MOVZX; TYPE_REG .| TYPE_DWORD .| TYPE_OUT .| TYPE_80386; TYPE_MODRM .| TYPE_WORD .| TYPE_IN]);
  (0xBA, [INS.GRP8; TYPE_MODRM .| TYPE_VWORD .| TYPE_BOTH .| TYPE_80386; TYPE_IMM .| TYPE_BYTE .| TYPE_IN]);
  (0xBB, [INS.BTC; TYPE_MODRM .| TYPE_VWORD .| TYPE_OUT .| TYPE_80386; TYPE_REG .| TYPE_VWORD .| TYPE_IN]);
  (0xBC, [INS.BSF; TYPE_REG .| TYPE_VWORD .| TYPE_OUT .| TYPE_80386; TYPE_MODRM .| TYPE_VWORD .| TYPE_IN]);
  (0xBD, [INS.BSR; TYPE_REG .| TYPE_VWORD .| TYPE_OUT .| TYPE_80386; TYPE_MODRM .| TYPE_VWORD .| TYPE_IN]);
  (0xBE, [INS.MOVSX; TYPE_REG .| TYPE_VWORD .| TYPE_OUT .| TYPE_80386; TYPE_MODRM .| TYPE_BYTE .| TYPE_IN]);
  (0xBF, [INS.MOVSX; TYPE_REG .| TYPE_DWORD .| TYPE_OUT .| TYPE_80386; TYPE_MODRM .| TYPE_WORD .| TYPE_IN])
].

(** [Debugger.aaGrpDescs]: the group tables, indexed by the reg field of
    the ModRM byte. *)
Definition aaGrpDescs : list (list OpDesc) := [
  (* GRP1B *)
  [[INS.ADD; TYPE_MODRM .| TYPE_BYTE .| TYPE_BOTH; TYPE_IMM .| TYPE_BYTE .| TYPE_IN];
   [INS.OR; TYPE_MODRM .| TYPE_BYTE .| TYPE_BOTH; TYPE_IMM .| TYPE_BYTE .| TYPE_IN];
   [INS.ADC; TYPE_MODRM .| TYPE_BYTE .| TYPE_BOTH; TYPE_IMM .| TYPE_BYTE .| TYPE_IN];
   [INS.SBB; TYPE_MODRM .| TYPE_BYTE .| TYPE_BOTH; TYPE_IMM .| TYPE_BYTE .| TYPE_IN];
   [INS.AND; TYPE_MODRM .| TYPE_BYTE .| TYPE_BOTH; TYPE_IMM .| TYPE_BYTE .| TYPE_IN];
   [INS.SUB; TYPE_MODRM .| TYPE_BYTE .| TYPE_BOTH; TYPE_IMM .| TYPE_BYTE .| TYPE_IN];
   [INS.XOR; TYPE_MODRM .| TYPE_BYTE .| TYPE_BOTH; TYPE_IMM .| TYPE_BYTE .| TYPE_IN];
   [INS.CMP; TYPE_MODRM .| TYPE_BYTE .| TYPE_IN; TYPE_IMM .| TYPE_BYTE .| TYPE_IN]];
  (* GRP1W *)
  [[INS.ADD; TYPE_MODRM .| TYPE_VWORD .| TYPE_BOTH; TYPE_IMM .| TYPE_VWORD .| TYPE_IN];
   [INS.OR; TYPE_MODRM .| TYPE_VWORD .| TYPE_BOTH; TYPE_IMM .| TYPE_VWORD .| TYPE_IN];
   [INS.ADC; TYPE_MODRM .| TYPE_VWORD .| TYPE_BOTH; TYPE_IMM .| TYPE_VWORD .| TYPE_IN];
   [INS.SBB; TYPE_MODRM .| TYPE_VWORD .| TYPE_BOTH; TYPE_IMM .| TYPE_VWORD .| TYPE_IN];
   [INS.AND; TYPE_MODRM .| TYPE_VWORD .| TYPE_BOTH; TYPE_IMM .| TYPE_VWORD .| TYPE_IN];
   [INS.SUB; TYPE_MODRM .| TYPE_VWORD .| TYPE_BOTH; TYPE_IMM .| TYPE_VWORD .| TYPE_IN];
   [INS.XOR; TYPE_MODRM .| TYPE_VWORD .| TYPE_BOTH; TYPE_IMM .| TYPE_VWORD .| TYPE_IN];
   [INS.CMP; TYPE_MODRM .| TYPE_VWORD .| TYPE_IN; TYPE_IMM .| TYPE_VWORD .| TYPE_IN]];
  (* GRP1SW *)
  [[INS.ADD; TYPE_MODRM .| TYPE_VWORD .| TYPE_BOTH; TYPE_IMM .| TYPE_SBYTE .| TYPE_IN];
   [INS.OR; TYPE_MODRM .| TYPE_VWORD .| TYPE_BOTH; TYPE_IMM .| TYPE_SBYTE .| TYPE_IN];
   [INS.ADC; TYPE_MODRM .| TYPE_VWORD .| TYPE_BOTH; TYPE_IMM .| TYPE_SBYTE .| TYPE_IN];
   [INS.SBB; TYPE_MODRM .| TYPE_VWORD .| TYPE_BOTH; TYPE_IMM .| TYPE_SBYTE .| TYPE_IN];
   [INS.AND; TYPE_MODRM .| TYPE_VWORD .| TYPE_BOTH; TYPE_IMM .| TYPE_SBYTE .| TYPE_IN];
   [INS.SUB; TYPE_MODRM .| TYPE_VWORD .| TYPE_BOTH; TYPE_IMM .| TYPE_SBYTE .| TYPE_IN];
   [INS.XOR; TYPE_MODRM .| TYPE_VWORD .| TYPE_BOTH; TYPE_IMM .| TYPE_SBYTE .| TYPE_IN];
   [INS.CMP; TYPE_MODRM .| TYPE_VWORD .| TYPE_IN; TYPE_IMM .| TYPE_SBYTE .| TYPE_IN]];
  (* GRP2B *)
  [[INS.ROL; TYPE_MODRM .| TYPE_BYTE .| TYPE_BOTH .| TYPE_80286; TYPE_IMM .| TYPE_BYTE .| TYPE_IN];
   [INS.ROR; TYPE_MODRM .| TYPE_BYTE .| TYPE_BOTH .| TYPE_80286; TYPE_IMM .| TYPE_BYTE .| TYPE_IN];
   [INS.RCL; TYPE_MODRM .| TYPE_BYTE .| TYPE_BOTH .| TYPE_80286; TYPE_IMM .| TYPE_BYTE .| TYPE_IN];
   [INS.RCR; TYPE_MODRM .| TYPE_BYTE .| TYPE_BOTH .| TYPE_80286; TYPE_IMM .| TYPE_BYTE .| TYPE_IN];
   [INS.SHL; TYPE_MODRM .| TYPE_BYTE .| TYPE_BOTH .| TYPE_80286; TYPE_IMM .| TYPE_BYTE .| TYPE_IN];
   [INS.SHR; TYPE_MODRM .| TYPE_BYTE .| TYPE_BOTH .| TYPE_80286; TYPE_IMM .| TYPE_BYTE .| TYPE_IN];
   aOpDescUndefined;
   [INS.SAR; TYPE_MODRM .| TYPE_BYTE .| TYPE_BOTH .| TYPE_80286; TYPE_IMM .| TYPE_BYTE .| TYPE_IN]];
  (* GRP2W *)
  [[INS.ROL; TYPE_MODRM .| TYPE_VWORD .| TYPE_BOTH .| TYPE_80286; TYPE_IMM .| TYPE_BYTE .| TYPE_IN];
   [INS.ROR; TYPE_MODRM .| TYPE_VWORD .| TYPE_BOTH .| TYPE_80286; TYPE_IMM .| TYPE_BYTE .| TYPE_IN];
   [INS.RCL; TYPE_MODRM .| TYPE_VWORD .| TYPE_BOTH .| TYPE_80286; TYPE_IMM .| TYPE_BYTE .| TYPE_IN];
   [INS.RCR; TYPE_MODRM .| TYPE_VWORD .| TYPE_BOTH .| TYPE_80286; TYPE_IMM .| TYPE_BYTE .| TYPE_IN];
   [INS.SHL; TYPE_MODRM .| TYPE_VWORD .| TYPE_BOTH .| TYPE_80286; TYPE_IMM .| TYPE_BYTE .| TYPE_IN];
   [INS.SHR; TYPE_MODRM .| TYPE_VWORD .| TYPE_BOTH .| TYPE_80286; TYPE_IMM .| TYPE_BYTE .| TYPE_IN];
   aOpDescUndefined;
   [INS.SAR; TYPE_MODRM .| TYPE_VWORD .| TYPE_BOTH .| TYPE_80286; TYPE_IMM .| TYPE_BYTE .| TYPE_IN]];
  (* GRP2B1 *)
  [[INS.ROL; TYPE_MODRM .| TYPE_BYTE .| TYPE_BOTH; TYPE_ONE .| TYPE_BYTE .| TYPE_IN];
   [INS.ROR; TYPE_MODRM .| TYPE_BYTE .| TYPE_BOTH; TYPE_ONE .| TYPE_BYTE .| TYPE_IN];
   [INS.RCL; TYPE_MODRM .| TYPE_BYTE .| TYPE_BOTH; TYPE_ONE .| TYPE_BYTE .| TYPE_IN];
   [INS.RCR; TYPE_MODRM .| TYPE_BYTE .| TYPE_BOTH; TYPE_ONE .| TYPE_BYTE .| TYPE_IN];
   [INS.SHL; TYPE_MODRM .| TYPE_BYTE .| TYPE_BOTH; TYPE_ONE .| TYPE_BYTE .| TYPE_IN];
   [INS.SHR; TYPE_MODRM .| TYPE_BYTE .| TYPE_BOTH; TYPE_ONE .| TYPE_BYTE .| TYPE_IN];
   aOpDescUndefined;
   [INS.SAR; TYPE_MODRM .| TYPE_BYTE .| TYPE_BOTH; TYPE_ONE .| TYPE_BYTE .| TYPE_IN]];
  (* GRP2W1 *)
  [[INS.ROL; TYPE_MODRM .| TYPE_VWORD .| TYPE_BOTH; TYPE_ONE .| TYPE_BYTE .| TYPE_IN];
   [INS.ROR; TYPE_MODRM .| TYPE_VWORD .| TYPE_BOTH; TYPE_ONE .| TYPE_BYTE .| TYPE_IN];
   [INS.RCL; TYPE_MODRM .| TYPE_VWORD .| TYPE_BOTH; TYPE_ONE .| TYPE_BYTE .| TYPE_IN];
   [INS.RCR; TYPE_MODRM .| TYPE_VWORD .| TYPE_BOTH; TYPE_ONE .| TYPE_BYTE .| TYPE_IN];
   [INS.SHL; TYPE_MODRM .| TYPE_VWORD .| TYPE_BOTH; TYPE_ONE .| TYPE_BYTE .| TYPE_IN];
   [INS.SHR; TYPE_MODRM .| TYPE_VWORD .| TYPE_BOTH; TYPE_ONE .| TYPE_BYTE .| TYPE_IN];
   aOpDescUndefined;
   [INS.SAR; TYPE_MODRM .| TYPE_VWORD .| TYPE_BOTH; TYPE_ONE .| TYPE_BYTE .| TYPE_IN]];
  (* GRP2BC *)
  [[INS.ROL; TYPE_MODRM .| TYPE_BYTE .| TYPE_BOTH; TYPE_IMPREG .| TYPE_CL .| TYPE_IN];
   [INS.ROR; TYPE_MODRM .| TYPE_BYTE .| TYPE_BOTH; TYPE_IMPREG .| TYPE_CL .| TYPE_IN];
   [INS.RCL; TYPE_MODRM .| TYPE_BYTE .| TYPE_BOTH; TYPE_IMPREG .| TYPE_CL .| TYPE_IN];
   [INS.RCR; TYPE_MODRM .| TYPE_BYTE .| TYPE_BOTH; TYPE_IMPREG .| TYPE_CL .| TYPE_IN];
   [INS.SHL; TYPE_MODRM .| TYPE_BYTE .| TYPE_BOTH; TYPE_IMPREG .| TYPE_CL .| TYPE_IN];
   [INS.SHR; TYPE_MODRM .| TYPE_BYTE .| TYPE_BOTH; TYPE_IMPREG .| TYPE_CL .| TYPE_IN];
   aOpDescUndefined;
   [INS.SAR; TYPE_MODRM .| TYPE_BYTE .| TYPE_BOTH; TYPE_IMPREG .| TYPE_CL .| TYPE_IN]];
  (* GRP2WC *)
  [[INS.ROL; TYPE_MODRM .| TYPE_VWORD .| TYPE_BOTH; TYPE_IMPREG .| TYPE_CL .| TYPE_IN];
   [INS.ROR; TYPE_MODRM .| TYPE_VWORD .| TYPE_BOTH; TYPE_IMPREG .| TYPE_CL .| TYPE_IN];
   [INS.RCL; TYPE_MODRM .| TYPE_VWORD .| TYPE_BOTH; TYPE_IMPREG .| TYPE_CL .| TYPE_IN];
   [INS.RCR; TYPE_MODRM .| TYPE_VWORD .| TYPE_BOTH; TYPE_IMPREG .| TYPE_CL .| TYPE_IN];
   [INS.SHL; TYPE_MODRM .| TYPE_VWORD .| TYPE_BOTH; TYPE_IMPREG .| TYPE_CL .| TYPE_IN];
   [INS.SHR; TYPE_MODRM .| TYPE_VWORD .| TYPE_BOTH; TYPE_IMPREG .| TYPE_CL .| TYPE_IN];
   aOpDescUndefined;
   [INS.SAR; TYPE_MODRM .| TYPE_VWORD .| TYPE_BOTH; TYPE_IMPREG .| TYPE_CL .| TYPE_IN]];
  (* GRP3B *)
  [[INS.TEST; TYPE_MODRM .| TYPE_BYTE .| TYPE_IN; TYPE_IMM .| TYPE_BYTE .| TYPE_IN];
   aOpDescUndefined;
   [INS.NOT; TYPE_MODRM .| TYPE_BYTE .| TYPE_BOTH];
   [INS.NEG; TYPE_MODRM .| TYPE_BYTE .| TYPE_BOTH];
   [INS.MUL; TYPE_MODRM .| TYPE_BYTE .| TYPE_IN];
   [INS.IMUL; TYPE_MODRM .| TYPE_BYTE .| TYPE_BOTH];
   [INS.DIV; TYPE_MODRM .| TYPE_BYTE .| TYPE_IN];
   [INS.IDIV; TYPE_MODRM .| TYPE_BYTE .| TYPE_BOTH]];
  (* GRP3W *)
  [[INS.TEST; TYPE_MODRM .| TYPE_VWORD .| TYPE_IN; TYPE_IMM .| TYPE_VWORD .| TYPE_IN];
   aOpDescUndefined;
   [INS.NOT; TYPE_MODRM .| TYPE_VWORD .| TYPE_BOTH];
   [INS.NEG; TYPE_MODRM .| TYPE_VWORD .| TYPE_BOTH];
   [INS.MUL; TYPE_MODRM .| TYPE_VWORD .| TYPE_IN];
   [INS.IMUL; TYPE_MODRM .| TYPE_VWORD .| TYPE_BOTH];
   [INS.DIV; TYPE_MODRM .| TYPE_VWORD .| TYPE_IN];
   [INS.IDIV; TYPE_MODRM .| TYPE_VWORD .| TYPE_BOTH]];
  (* GRP4B *)
  [[INS.INC; TYPE_MODRM .| TYPE_BYTE .| TYPE_BOTH];
   [INS.DEC; TYPE_MODRM .| TYPE_BYTE .| TYPE_BOTH];
   aOpDescUndefined;
   aOpDescUndefined;
   aOpDescUndefined;
   aOpDescUndefined;
   aOpDescUndefined;
   aOpDescUndefined];
  (* GRP4W *)
  [[INS.INC; TYPE_MODRM .| TYPE_VWORD .| TYPE_BOTH];
   [INS.DEC; TYPE_MODRM .| TYPE_VWORD .| TYPE_BOTH];
   [INS.CALL; TYPE_MODRM .| TYPE_VWORD .| TYPE_IN];
   [INS.CALL; TYPE_MODRM .| TYPE_FARP .| TYPE_IN];
   [INS.JMP; TYPE_MODRM .| TYPE_VWORD .| TYPE_IN];
   [INS.JMP; TYPE_MODRM .| TYPE_FARP .| TYPE_IN];
   [INS.PUSH; TYPE_MODRM .| TYPE_VWORD .| TYPE_IN];
   aOpDescUndefined];
  (* OP0F *)
  [];
  (* GRP6 *)
  [[INS.SLDT; TYPE_MODRM .| TYPE_WORD .| TYPE_OUT .| TYPE_80286];
   [INS.STR; TYPE_MODRM .| TYPE_WORD .| TYPE_OUT .| TYPE_80286];
   [INS.LLDT; TYPE_MODRM .| TYPE_WORD .| TYPE_IN .| TYPE_80286];
   [INS.LTR; TYPE_MODRM .| TYPE_WORD .| TYPE_IN .| TYPE_80286];
   [INS.VERR; TYPE_MODRM .| TYPE_WORD .| TYPE_IN .| TYPE_80286];
   [INS.VERW; TYPE_MODRM .| TYPE_WORD .| TYPE_IN .| TYPE_80286];
   aOpDescUndefined;
   aOpDescUndefined];
  (* GRP7 *)
  [[INS.SGDT; TYPE_MODRM .| TYPE_WORD .| TYPE_OUT .| TYPE_80286];
   [INS.SIDT; TYPE_MODRM .| TYPE_WORD .| TYPE_OUT .| TYPE_80286];
   [INS.LGDT; TYPE_MODRM .| TYPE_WORD .| TYPE_IN .| TYPE_80286];
   [INS.LIDT; TYPE_MODRM .| TYPE_WORD .| TYPE_IN .| TYPE_80286];
   [INS.SMSW; TYPE_MODRM .| TYPE_WORD .| TYPE_OUT .| TYPE_80286];
   aOpDescUndefined;
   [INS.LMSW; TYPE_MODRM .| TYPE_WORD .| TYPE_IN .| TYPE_80286];
   aOpDescUndefined];
  (* GRP8 *)
  [aOpDescUndefined;
   aOpDescUndefined;
   aOpDescUndefined;
   aOpDescUndefined;
   [INS.BT; TYPE_MODRM .| TYPE_VWORD .| TYPE_IN .| TYPE_80386; TYPE_IMM .| TYPE_BYTE .| TYPE_IN];
   [INS.BTS; TYPE_MODRM .| TYPE_VWORD .| TYPE_OUT .| TYPE_80386; TYPE_IMM .| TYPE_BYTE .| TYPE_IN];
   [INS.BTR; TYPE_MODRM .| TYPE_VWORD .| TYPE_OUT .| TYPE_80386; TYPE_IMM .| TYPE_BYTE .| TYPE_IN];
   [INS.BTC; TYPE_MODRM .| TYPE_VWORD .| TYPE_OUT .| TYPE_80386; TYPE_IMM .| TYPE_BYTE .| TYPE_IN]]
].

(** ** Instruction decoder *)

(** The decoder reads through a [DbgAddr] that every read advances: a state
    monad over the address. *)
Definition Dec (A : Type) : Type := DbgAddr -> A * DbgAddr.

Definition ret {A : Type} (a : A) : Dec A := fun d => (a, d).

Definition bind {A B : Type} (m : Dec A) (k : A -> Dec B) : Dec B :=
  fun d => let '(a, d') := m d in k a d'.

Definition gets {A : Type} (f : DbgAddr -> A) : Dec A := fun d => (f d, d).

Definition modify (f : DbgAddr -> DbgAddr) : Dec unit := fun d => (tt, f d).

Notation "x <- m ;; k" := (bind m (fun x => k))
  (at level 61, m at next level, right associativity).

Section Decoder.

Context {env : Env}.

(** [this]; the decoder only reads it. *)
Variable g : Debugger.

(** [a[i]] on a list: [None] out of range. *)
Definition js_index {A : Type} (l : list A) (i : Z) : option A :=
  if i <? 0 then None else List.nth_error l (Z.to_nat i).

Definition REGS_at (i : Z) : option string :=
  match js_index REGS i with Some r => r | None => None end.

(** [Debugger.RMS[i]]; the index comes from three bits of a byte. *)
Definition RMS_at (i : Z) : string :=
  match js_index RMS i with Some r => r | None => "" end.

Definition nonEmpty (s : string) : bool :=
  match s with EmptyString => false | String _ _ => true end.

Definition readByte (inc : Z) : Dec Z := fun d => getByte g d inc.
Definition readShort (inc : Z) : Dec Z := fun d => getShort g d inc.
Definition readLong (inc : Z) : Dec Z := fun d => getLong g d inc.
Definition readWord (fAdvance : bool) : Dec Z := fun d => getWord g d fAdvance.

(** [getRegOperand(bReg, type, dbgAddr)]; [None] is [null]/[undefined]. *)
Definition getRegOperand (bReg type : Z) (d : DbgAddr) : option string :=
  let typeMode := JS.band type TYPE_MODE in
  if typeMode =? TYPE_SEGREG then
    if (REG_GS <? bReg) || ((REG_FS <=? bReg) && (model (cpu g) <? MODEL_80386 x86))
    then Some "??"
    else REGS_at (bReg + REG_SEG)
  else if typeMode =? TYPE_CTLREG then REGS_at (bReg + REG_CR0)
  else if typeMode =? TYPE_DBGREG then REGS_at (bReg + REG_DR0)
  else if typeMode =? TYPE_TSTREG then REGS_at (bReg + REG_TR0)
  else
    let typeSize := JS.band type TYPE_SIZE in
    let bReg :=
      if TYPE_WORD <=? typeSize then
        let bReg := if bReg <? REG_AX then bReg + (REG_AX - REG_AL) else bReg in
        if (typeSize =? TYPE_DWORD) || ((typeSize =? TYPE_VWORD) && fData32 d)
        then bReg + (REG_EAX - REG_AX) else bReg
      else bReg in
    REGS_at bReg.

(** [(b << 24) >> 24] *)
Definition signExtendByte (b : Z) : Z := JS.sar (JS.shl b 24) 24.

(** [getImmOperand(type, dbgAddr)] *)
Definition getImmOperand (type : Z) : Dec string :=
  let typeSize := JS.band type TYPE_SIZE in
  if typeSize =? TYPE_BYTE then
    if JS.truthy (JS.band type TYPE_BOTH) then
      b <- readByte 1 ;; ret (toHex str (Some b) (Some 2))
    else ret " "
  else if typeSize =? TYPE_SBYTE then
    b <- readByte 1 ;;
    fD32 <- gets fData32 ;;
    ret (toHex str (Some (signExtendByte b)) (Some (if fD32 then 8 else 4)))
  else if (typeSize =? TYPE_VWORD) || (typeSize =? TYPE_2WORD) || (typeSize =? TYPE_WORD) then
    fD32 <- gets fData32 ;;
    if negb (typeSize =? TYPE_WORD) && fD32 then
      l <- readLong 4 ;; ret (toHex str (Some l) None)
    else
      w <- readShort 2 ;; ret (toHex str (Some w) (Some 4))
  else if typeSize =? TYPE_FARP then
    o <- readWord true ;;
    s <- readShort 2 ;;
    d <- gets (fun d => d) ;;
    ret (hexAddr (newAddr g (Some o) (Some s) None (fProt d)
                          (Some (fData32 d)) (Some (fAddr32 d))))
  else ret ("imm(" ++ toHexWord str type ++ ")").

(** [getSIBOperand(bMod, dbgAddr)] *)
Definition getSIBOperand (bMod : Z) : Dec string :=
  bSIB <- readByte 1 ;;
  let bScale := JS.sar bSIB 6 in
  let bIndex := JS.band (JS.sar bSIB 3) 0x7 in
  let bBase := JS.band bSIB 0x7 in
  let sOperand := "" in
  let sOperand :=
    if JS.truthy bMod || negb (bBase =? 5) then RMS_at (bBase + 8) else sOperand in
  let sOperand :=
    if negb (bIndex =? 4) then
      let sOperand := if nonEmpty sOperand then sOperand ++ "+" else sOperand in
      let sOperand := sOperand ++ RMS_at (bIndex + 8) in
      if JS.truthy bScale then sOperand ++ "*" ++ decimal (JS.shl 0x1 bScale)
      else sOperand
    else sOperand in
  if negb (JS.truthy bMod) && (bBase =? 5) then
    let sOperand := if nonEmpty sOperand then sOperand ++ "+" else sOperand in
    l <- readLong 4 ;;
    ret (sOperand ++ toHex str (Some l) None)
  else ret sOperand.

(** The size prefix a lone memory operand is printed with. *)
Definition sizePrefix (type : Z) (fD32 : bool) : string :=
  let type := JS.band type TYPE_SIZE in
  let type := if type =? TYPE_VWORD
              then (if fD32 then TYPE_DWORD else TYPE_WORD) else type in
  if type =? TYPE_FARP then "FAR"
  else if type =? TYPE_BYTE then "BYTE"
  else if type =? TYPE_WORD then "WORD"
  else if type =? TYPE_DWORD then "DWORD"
  else "".

(** [getModRMOperand(bModRM, type, cOperands, dbgAddr)] *)
Definition getModRMOperand (bModRM type cOperands : Z) : Dec (option string) :=
  let bMod := JS.sar bModRM 6 in
  let bRM := JS.band bModRM 0x7 in
  if bMod <? 3 then
    fA32 <- gets fAddr32 ;;
    r <- (if negb (JS.truthy bMod)
             && ((negb fA32 && (bRM =? 6)) || (fA32 && (bRM =? 5)))
          then ret (2, "")
          else
            r1 <- (if fA32 then
                     if negb (bRM =? 4) then ret (bRM + 8, "")
                     else s <- getSIBOperand bMod ;; ret (bRM, s)
                   else ret (bRM, "")) ;;
            let '(bRM, sOperand) := r1 in
            ret (bMod, if negb (nonEmpty sOperand) then RMS_at bRM else sOperand)) ;;
    let '(bMod, sOperand) := r in
    sOperand <-
      (if bMod =? 1 then
         disp <- readByte 1 ;;
         if negb (JS.truthy (JS.band disp 0x80))
         then ret (sOperand ++ "+" ++ toHex str (Some disp) (Some 2))
         else ret (sOperand ++ "-" ++ toHex str (Some (- signExtendByte disp)) (Some 2))
       else if bMod =? 2 then
         let sOperand := if nonEmpty sOperand then sOperand ++ "+" else sOperand in
         if negb fA32 then
           disp <- readShort 2 ;; ret (sOperand ++ toHex str (Some disp) (Some 4))
         else
           disp <- readLong 4 ;; ret (sOperand ++ toHex str (Some disp) None)
       else ret sOperand) ;;
    let sOperand := "[" ++ sOperand ++ "]" in
    fD32 <- gets fData32 ;;
    if cOperands =? 1 then
      let sPrefix := sizePrefix type fD32 in
      ret (Some (if nonEmpty sPrefix then sPrefix ++ " " ++ sOperand else sOperand))
    else ret (Some sOperand)
  else
    d <- gets (fun d => d) ;;
    ret (getRegOperand bRM type d).

(** [isStringIns(bOpcode)] *)
Definition isStringIns (bOpcode : Z) : bool :=
  ((OPCODE_MOVSB x86 <=? bOpcode) && (bOpcode <=? OPCODE_CMPSW x86))
  || ((OPCODE_STOSB x86 <=? bOpcode) && (bOpcode <=? OPCODE_SCASW x86)).

(** [initAddrSize(dbgAddr, fNonPrefix, cOverrides)] *)
Definition initAddrSize (d : DbgAddr) (fNonPrefix : bool) (cOv : Z) : DbgAddr :=
  let d := set_cOverrides d (Some cOv) in
  let d := if fNonPrefix then
             set_fAddr32 (set_fData32 d (dataSize (segCS (cpu g)) =? 4))
                         (addrSize (segCS (cpu g)) =? 4)
           else d in
  set_fComplete d (Some fNonPrefix).

(** The loop over operand-size and address-size prefixes, at most
    [cMax] of them. *)
Fixpoint prefixLoop (cMax : nat) (bOpcode : Z) (fDataPrefix fAddrPrefix : bool)
  : Dec (Z * bool * bool) :=
  if (bOpcode =? OPCODE_OS x86) || (bOpcode =? OPCODE_AS x86) then
    match cMax with
    | O => ret (bOpcode, fDataPrefix, fAddrPrefix)
    | S cMax' =>
      fs <- (if bOpcode =? OPCODE_OS x86 then
               if negb fDataPrefix then
                 _ <- modify (fun d => set_fData32 d (negb (fData32 d))) ;;
                 ret (true, fAddrPrefix)
               else ret (fDataPrefix, fAddrPrefix)
             else
               if negb fAddrPrefix then
                 _ <- modify (fun d => set_fAddr32 d (negb (fAddr32 d))) ;;
                 ret (fDataPrefix, true)
               else ret (fDataPrefix, fAddrPrefix)) ;;
      b <- readByte 1 ;;
      prefixLoop cMax' b (fst fs) (snd fs)
    end
  else ret (bOpcode, fDataPrefix, fAddrPrefix).

(** What the operand loop carries from one operand to the next. *)
Record OperandState : Type := mkOperandState {
  os_bModRM : Z;
  os_typeCPU : option Z;
  os_fNonPrefix : bool;
  os_sOperands : string
}.

(** One operand: the text, or nothing when the operand is skipped. *)
Definition getOperand (type cOperands : Z) (st : OperandState)
  : Dec (OperandState * option (option string)) :=
  let st := match os_typeCPU st with
            | None => mkOperandState (os_bModRM st) (Some (JS.sar type TYPE_CPU_SHIFT))
                                     (os_fNonPrefix st) (os_sOperands st)
            | Some _ => st
            end in
  let typeSize := JS.band type TYPE_SIZE in
  if typeSize =? TYPE_NONE then ret (st, None)
  else if typeSize =? TYPE_PREFIX then
    ret (mkOperandState (os_bModRM st) (os_typeCPU st) false (os_sOperands st), None)
  else
    let typeMode := JS.band type TYPE_MODE in
    if TYPE_MODRM <=? typeMode then
      bModRM <- (if os_bModRM st <? 0 then readByte 1 else ret (os_bModRM st)) ;;
      let st := mkOperandState bModRM (os_typeCPU st) (os_fNonPrefix st)
                               (os_sOperands st) in
      if typeMode <? TYPE_MODREG then
        s <- getModRMOperand bModRM type cOperands ;; ret (st, Some s)
      else if typeMode =? TYPE_MODREG then
        d <- gets (fun d => d) ;;
        ret (st, Some (getRegOperand (JS.band bModRM 0x7) type d))
      else
        d <- gets (fun d => d) ;;
        ret (st, Some (getRegOperand (JS.band (JS.sar bModRM 3) 0x7) type d))
    else if typeMode =? TYPE_ONE then ret (st, Some (Some "1"))
    else if typeMode =? TYPE_IMM then
      s <- getImmOperand type ;; ret (st, Some (Some s))
    else if typeMode =? TYPE_IMMOFF then
      fA32 <- gets fAddr32 ;;
      if negb fA32 then
        o <- readShort 2 ;;
        ret (st, Some (Some ("[" ++ toHex str (Some o) (Some 4) ++ "]")))
      else
        o <- readLong 4 ;;
        ret (st, Some (Some ("[" ++ toHex str (Some o) (Some 8) ++ "]")))
    else if typeMode =? TYPE_IMMREL then
      disp <- (if typeSize =? TYPE_BYTE
               then b <- readByte 1 ;; ret (signExtendByte b)
               else readWord true) ;;
      d <- gets (fun d => d) ;;
      let offset := JS.band (off d + disp) (if fData32 d then -1 else 0xffff) in
      let sym := findSymbolAtAddr g (newAddr g (Some offset) (sel d) None None None None) in
      let hex := toHex str (Some offset) (Some (if fData32 d then 8 else 4)) in
      ret (st, Some (Some (match sym with
                           | Some s => if nonEmpty s then s else hex
                           | None => hex
                           end)))
    else if typeMode =? TYPE_IMPREG then
      d <- gets (fun d => d) ;;
      ret (st, Some (getRegOperand (JS.sar (JS.band type TYPE_IREG) 8) type d))
    else if typeMode =? TYPE_IMPSEG then
      d <- gets (fun d => d) ;;
      ret (st, Some (getRegOperand (JS.sar (JS.band type TYPE_IREG) 8) TYPE_SEGREG d))
    else if typeMode =? TYPE_DSSI then ret (st, Some (Some "DS:[SI]"))
    else if typeMode =? TYPE_ESDI then ret (st, Some (Some "ES:[DI]"))
    else ret (st, Some (Some "")).

(** The [for] loop over the operand descriptors. *)
Fixpoint operandLoop (types : list Z) (cOperands : Z) (st : OperandState)
  : Dec OperandState :=
  match types with
  | [] => ret st
  | type :: types' =>
    r <- getOperand type cOperands st ;;
    let '(st, res) := r in
    match res with
    | None => operandLoop types' cOperands st
    | Some sOperand =>
      match sOperand with
      | Some (String c s) =>
        let sOperands := os_sOperands st in
        let sOperands := if nonEmpty sOperands then sOperands ++ "," else sOperands in
        operandLoop types' cOperands
          (mkOperandState (os_bModRM st) (os_typeCPU st) (os_fNonPrefix st)
                          (sOperands ++ String c s))
      | _ =>
        ret (mkOperandState (os_bModRM st) (os_typeCPU st) (os_fNonPrefix st) "INVALID")
      end
    end
  end.

(** [s.slice(-1)] and [s.slice(0, -1)] *)
Fixpoint lastChar (s : string) : string :=
  match s with
  | EmptyString => EmptyString
  | String c EmptyString => s
  | String _ s' => lastChar s'
  end.

Fixpoint dropLast (s : string) : string :=
  match s with
  | EmptyString => EmptyString
  | String c EmptyString => EmptyString
  | String c s' => String c (dropLast s')
  end.

Definition opDesc_at (t : list OpDesc) (i : Z) : OpDesc :=
  match js_index t i with Some a => a | None => aOpDescUndefined end.

Definition opDesc0F_at (b : Z) : OpDesc :=
  match List.find (fun p => fst p =? b) aaOp0FDescs with
  | Some p => snd p
  | None => aOpDescUndefined
  end.

Definition insOf (aOpDesc : OpDesc) : Z := List.hd 0 aOpDesc.

(** What [getInstruction] has decoded when it starts to build the line. *)
Record Decoded : Type := mkDecoded {
  dc_sOpcode : string;
  dc_sOperands : string;
  dc_typeCPU : option Z;
  dc_fNonPrefix : bool;
  dc_cOverrides : Z
}.

(** [getInstruction], from the opcode byte to the end of the operand
    loop. *)
Definition decode : Dec Decoded :=
  bOpcode <- readByte 1 ;;
  p <- prefixLoop 4 bOpcode false false ;;
  let '(bOpcode, fDataPrefix, fAddrPrefix) := p in
  let aOpDesc := opDesc_at (aaOpDescs g) bOpcode in
  let iIns := insOf aOpDesc in
  let bModRM := -1 in
  r <- (if iIns =? INS.OP0F then
          b <- readByte 1 ;;
          let aOpDesc := opDesc0F_at b in
          ret (aOpDesc, JS.bor bOpcode (JS.shl b 8), insOf aOpDesc)
        else ret (aOpDesc, bOpcode, iIns)) ;;
  let '(aOpDesc, bOpcode, iIns) := r in
  let nNames := Z.of_nat (List.length INS_NAMES) in
  r <- (if nNames <=? iIns then
          bModRM <- readByte 1 ;;
          ret (bModRM,
               opDesc_at (match js_index aaGrpDescs (iIns - nNames) with
                          | Some t => t | None => [] end)
                         (JS.band (JS.sar bModRM 3) 0x7))
        else ret (bModRM, aOpDesc)) ;;
  let '(bModRM, aOpDesc) := r in
  let sOpcode := match js_index INS_NAMES (insOf aOpDesc) with
                 | Some s => s | None => "" end in
  let cOperands := Z.of_nat (List.length aOpDesc) - 1 in
  fD32 <- gets fData32 ;;
  let '(cOperands, sOpcode) :=
    if isStringIns bOpcode then
      (0, if fD32 && String.eqb (lastChar sOpcode) "W"
          then dropLast sOpcode ++ "D" else sOpcode)
    else (cOperands, sOpcode) in
  st <- operandLoop (List.firstn (Z.to_nat cOperands) (List.tl aOpDesc)) cOperands
                    (mkOperandState bModRM None true "") ;;
  ret (mkDecoded sOpcode (os_sOperands st) (os_typeCPU st) (os_fNonPrefix st)
                 ((if fDataPrefix then 1 else 0) + (if fAddrPrefix then 1 else 0))).

(** The [do ... while] that reads the instruction's bytes again, from
    the address it started at to the address the decoder reached.  It has
    no bound in the source; out of fuel is [None]. *)
Fixpoint bytesLoop (fuel : nat) (dIns : DbgAddr) (target : option Z) (sBytes : string)
  : option (string * DbgAddr) :=
  match fuel with
  | O => None
  | S fuel' =>
    let '(b, dIns) := getByte g dIns 1 in
    let sBytes := sBytes ++ toHex str (Some b) (Some 2) in
    if negb (JS.eq_opt (addr dIns) target) then bytesLoop fuel' dIns target sBytes
    else Some (sBytes, dIns)
  end.

(** [getInstruction(dbgAddr, sComment, nSequence)]: the line, and
    [dbgAddr] advanced to the next instruction. *)
Definition getInstruction (fuel : nat) (d : DbgAddr) (sComment : option string)
           (nSequence : option Z) : option (string * DbgAddr) :=
  let dIns := newAddr g (Some (off d)) (sel d) (addr d) (fProt d) None None in
  let '(dc, d) := decode d in
  let sLine := hexAddr dIns ++ " " in
  match (if negb (JS.eq_opt (addr dIns) (Some (ADDR_INVALID x86)))
            && negb (JS.eq_opt (addr d) (Some (ADDR_INVALID x86)))
         then bytesLoop fuel dIns (addr d) ""
         else Some ("", dIns)) with
  | None => None
  | Some (sBytes, dIns) =>
    let sLine := sLine ++ pad str sBytes (if fAddr32 dIns then 24 else 16) in
    let sLine := sLine ++ pad str (dc_sOpcode dc) 8 in
    let sLine := if nonEmpty (dc_sOperands dc)
                 then sLine ++ " " ++ dc_sOperands dc else sLine in
    let sComment :=
      match dc_typeCPU dc with
      | Some t =>
        match js_index CPUS t with
        | Some m => if model (cpu g) <? m then Some (decimal m ++ " CPU only")
                    else sComment
        | None => sComment
        end
      | None => sComment
      end in
    let sLine :=
      match sComment with
      | Some (String c s) =>
        if dc_fNonPrefix dc then
          let sLine := pad str sLine (if fAddr32 dIns then 74 else 56)
                       ++ ";" ++ String c s in
          if negb (fChecksum (cpu g)) then
            sLine ++ match nSequence with
                     | Some n => "=" ++ decimal n
                     | None => ""
                     end
          else
            sLine ++ "cycles=" ++ decimal (getCycles (cpu g)) ++ " cs="
                  ++ toHex str (Some (nChecksum (cpu g))) None
        else sLine
      | _ => sLine
      end in
    Some (sLine, initAddrSize d (dc_fNonPrefix dc) (dc_cOverrides dc))
  end.

End Decoder.

(** ** Memory writes, saved addresses and strings *)

(** Calls made to the CPU by the functions that write memory. *)
Inductive CpuCall : Type :=
| SetByte (a b : Z)
| SetShort (a w : Z)
| UpdateCPU.

(** The array [packAddr] builds, by position. *)
Record PackedAddr : Type := mkPackedAddr {
  pa0 : Z;
  pa1 : option Z;
  pa2 : option Z;
  pa3 : bool;
  pa4 : bool;
  pa5 : bool;
  pa6 : option Z;
  pa7 : option bool
}.

(** [packAddr(dbgAddr)] *)
Definition packAddr (d : DbgAddr) : PackedAddr :=
  mkPackedAddr (off d) (sel d) (addr d) (fTempBreak d) (fData32 d) (fAddr32 d)
               (cOverrides d) (fComplete d).

(** [unpackAddr(aAddr)]: the object it builds has no [fProt]. *)
Definition unpackAddr (a : PackedAddr) : DbgAddr :=
  mkDbgAddr (pa0 a) (pa1 a) (pa2 a) None (pa3 a) (pa4 a) (pa5 a) (pa6 a) (pa7 a).

Section MemoryUnit.

Context {env : Env}.

(** [setByte(dbgAddr, b, inc)]: the calls made to the CPU, and [dbgAddr]. *)
Definition setByte (g : Debugger) (d : DbgAddr) (b inc : Z) : list CpuCall * DbgAddr :=
  let '(a, d) := getAddr g d true (Some 1) in
  if negb (a =? ADDR_INVALID x86) then
    ([SetByte a b; UpdateCPU], if JS.truthy inc then incAddr g d inc else d)
  else ([], d).

(** [setShort(dbgAddr, w, inc)] *)
Definition setShort (g : Debugger) (d : DbgAddr) (w inc : Z) : list CpuCall * DbgAddr :=
  let '(a, d) := getAddr g d true (Some 2) in
  if negb (a =? ADDR_INVALID x86) then
    ([SetShort a w; UpdateCPU], if JS.truthy inc then incAddr g d inc else d)
  else ([], d).

(** [b >= 32 && b < 128? String.fromCharCode(b) : "."] *)
Definition printable (b : Z) : string :=
  if (32 <=? b) && (b <? 128)
  then String (ascii_of_nat (Z.to_nat b)) EmptyString
  else ".".

(** The loop of [getSZ].  Every pass that does not leave the loop makes
    the string one character longer, so [n] counts the characters that may
    still be added before [s.length < cchMax] fails. *)
Fixpoint getSZ_loop (g : Debugger) (n : nat) (d : DbgAddr) (s : string)
  : string * DbgAddr :=
  match n with
  | O => (s, d)
  | S n' =>
    let '(b, d) := getByte g d 1 in
    if negb (JS.truthy b) || (b =? 0x24) then (s, d)
    else getSZ_loop g n' d (s ++ printable b)
  end.

(** [getSZ(dbgAddr, cchMax)] *)
Definition getSZ (g : Debugger) (d : DbgAddr) (cchMax : option Z) : string * DbgAddr :=
  getSZ_loop g (Z.to_nat (JS.or_default cchMax 256)) d "".

End MemoryUnit.

(** ** More of the breakpoint engine *)

Section BreakpointsMore.

Context {env : Env}.

(** The loops of [clearBreakpoints] over the read and the write
    breakpoints: one call to the bus for each. *)
Definition removeMemBreaks (g : Debugger) (l : list DbgAddr) (fWrite : bool) : Debugger :=
  List.fold_left
    (fun g e => busCall g (RemoveMemBreak (fst (getAddr g e false None)) fWrite))
    l g.

(** [clearBreakpoints()].  The three arrays exist once the constructor has
    run, so the tests for [undefined] succeed. *)
Definition clearBreakpoints (g : Debugger) : Debugger :=
  let g := setBreak g BreakExec (mkBreakList "exec" []) in
  let g := removeMemBreaks g (entries (aBreakRead g)) false in
  let g := setBreak g BreakRead (mkBreakList "read" []) in
  let g := removeMemBreaks g (entries (aBreakWrite g)) true in
  let g := setBreak g BreakWrite (mkBreakList "write" []) in
  set_nSuppressBreaks g 0.

(** [listBreakpoints(aBreak)]: the number listed, and the debugger with
    the lines printed. *)
Definition listBreakpoints (g : Debugger) (k : BreakKind) : Z * Debugger :=
  let aBreak := getBreak g k in
  (aBreak_length aBreak - 1,
   List.fold_left
     (fun g e => println g (breakLine "breakpoint enabled: " e aBreak))
     (entries aBreak) g).

(** The loop of [redoBreakpoints] on one array: [getAddr] fills the cache
    of each entry, and the bus is called for those inside the block. *)
Fixpoint redoLoop (g : Debugger) (a size : Z) (fWrite : bool) (rest : list DbgAddr)
  : list DbgAddr * Debugger :=
  match rest with
  | [] => ([], g)
  | e :: rest' =>
    let '(addrBreak, e) := getAddr g e false None in
    let g := if (a <=? addrBreak) && (addrBreak <? a + size)
             then busCall g (AddMemBreak addrBreak fWrite) else g in
    let '(es, g) := redoLoop g a size fWrite rest' in
    (e :: es, g)
  end.

Definition redoBreakpointsIn (g : Debugger) (a size : Z) (k : BreakKind) : Debugger :=
  let aBreak := getBreak g k in
  let '(es, g) := redoLoop g a size (isWrite k) (entries aBreak) in
  setBreak g k (mkBreakList (tag aBreak) es).

(** [redoBreakpoints(addr, size, aBreak)]; without an array, the read and
    then the write breakpoints. *)
Definition redoBreakpoints (g : Debugger) (a size : Z) (k : option BreakKind) : Debugger :=
  match k with
  | None => redoBreakpointsIn (redoBreakpointsIn g a size BreakRead) a size BreakWrite
  | Some k => redoBreakpointsIn g a size k
  end.

(** The first temporary entry of an array, with those before and after. *)
Fixpoint firstTemp (l : list DbgAddr) : option (list DbgAddr * DbgAddr * list DbgAddr) :=
  match l with
  | [] => None
  | e :: l' =>
    if fTempBreak e then Some ([], e, l')
    else match firstTemp l' with
         | Some (before, t, after) => Some (e :: before, t, after)
         | None => None
         end
  end.

(** The loop of [clearTempBreakpoint()], which starts again from the
    first entry after each removal.  [findBreakpoint] is given the entry
    itself: the cache that its first [getAddr] fills is the entry's, so the
    entry is updated in the array before the array is searched.  The loop
    has no bound in the source; out of fuel is [None]. *)
Fixpoint clearTempLoop (fuel : nat) (g : Debugger) : option Debugger :=
  match fuel with
  | O => None
  | S fuel' =>
    match firstTemp (entries (aBreakExec g)) with
    | None => Some g
    | Some (before, e, after) =>
      let e := snd (getAddr g e false None) in
      let g := setBreak g BreakExec
                 (mkBreakList (tag (aBreakExec g)) (before ++ e :: after)%list) in
      let '(fFound, g, _) := findBreakpoint g BreakExec e true in
      if negb fFound then Some g else clearTempLoop fuel' g
    end
  end.

(** [clearTempBreakpoint(addr)].  The field [fProcStep], which the first
    branch resets, is not part of the state modelled. *)
Definition clearTempBreakpoint (fuel : nat) (g : Debugger) (a : option Z)
  : option Debugger :=
  match a with
  | Some a => Some (snd (checkBreakpoint g a 1 BreakExec true))
  | None => clearTempLoop fuel g
  end.

End BreakpointsMore.

(** ** Instruction tracking *)

(** What [checkInstruction] reads of the CPU besides the fields of [CPU]:
    the mask [X86.PS.IF], the two privilege levels and the instruction
    pointer. *)
Record Privilege : Type := mkPrivilege {
  PS_IF : Z;
  nIOPL : Z;
  nCPL : Z;
  getIP : Z
}.

(** [a[i] = v] on a list, for an index the list has. *)
Definition js_update {A : Type} (l : list A) (i : Z) (v : A) : list A :=
  (List.firstn (Z.to_nat i) l ++ v :: List.skipn (S (Z.to_nat i)) l)%list.

Section InstructionTracking.

Context {env : Env}.

Variable pv : Privilege.

(** [printMessage(sMessage, true)], a method of [component.js]. *)
Variable printMessage : Debugger -> string -> Debugger.

(** The part of [checkInstruction] that counts the opcode and records the
    address in the history ring.  An index that the count table or the
    ring does not have makes the source fail with a TypeError: [None]. *)
Definition trackInstruction (g : Debugger) (cInstructions a : Z) : option (Debugger * Z) :=
  let bOpcode := probeAddr (cpu g) a in
  match js_index (aaOpcodeCounts g) bOpcode with
  | None => None
  | Some (i, n) =>
    let counts := js_update (aaOpcodeCounts g) bOpcode (i, n + 1) in
    match js_index (aOpcodeHistory g) (iOpcodeHistory g) with
    | None => None
    | Some e =>
      let e := mkDbgAddr (getIP pv) (Some (getCS (cpu g))) (Some a)
                         (Some (getProtMode g)) (fTempBreak e)
                         (dataSize (segCS (cpu g)) =? 4) (addrSize (segCS (cpu g)) =? 4)
                         (cOverrides e) (fComplete e) in
      let hist := js_update (aOpcodeHistory g) (iOpcodeHistory g) e in
      let i' := iOpcodeHistory g + 1 in
      Some (set_history g hist
                        (if i' =? Z.of_nat (List.length (aOpcodeHistory g)) then 0 else i')
                        counts,
            cInstructions + 1)
    end
  end.

(** [checkInstruction(addr, nState)], with the counter [cInstructions]. *)
Definition checkInstruction (g : Debugger) (cInstructions a nState : Z)
  : option (bool * Debugger * Z) :=
  let '(fStop, g) :=
    if 0 <? nState then
      let '(fBreak, g) := checkBreakpoint g a 1 BreakExec false in
      if fBreak then (true, g)
      else if negb (JS.truthy (JS.band (regPS (cpu g)) (PS_IF pv)))
              && (nIOPL pv <? nCPL pv)
           then (true, printMessage g ("interrupts disabled at IOPL "
                                       ++ decimal (nIOPL pv) ++ " and CPL "
                                       ++ decimal (nCPL pv)))
           else (false, g)
    else (false, g) in
  if fStop then Some (true, g, cInstructions)
  else if (0 <=? nState) && negb (isEmpty (aaOpcodeCounts g)) then
    match trackInstruction g cInstructions a with
    | Some (g, c) => Some (false, g, c)
    | None => None
    end
  else Some (false, g, cInstructions).

End InstructionTracking.

(** ** Commands *)

Section Commands.

Context {env : Env}.

(** The branch of [doBreak] for the command [bl]: the three arrays are
    listed, and a line says so when nothing was listed. *)
Definition doBreakList (g : Debugger) : Debugger :=
  let cBreaks := 0 in
  let '(c, g) := listBreakpoints g BreakExec in
  let cBreaks := cBreaks + c in
  let '(c, g) := listBreakpoints g BreakRead in
  let cBreaks := cBreaks + c in
  let '(c, g) := listBreakpoints g BreakWrite in
  let cBreaks := cBreaks + c in
  if negb (JS.truthy cBreaks) then println g "no breakpoints" else g.

(** [s.split(ch)] for a separator of one character. *)
Fixpoint splitOn (ch : ascii) (s : string) : list string :=
  match s with
  | EmptyString => [EmptyString]
  | String c s' =>
    if Ascii.eqb c ch then EmptyString :: splitOn ch s'
    else match splitOn ch s' with
         | h :: t => String c h :: t
         | [] => [String c EmptyString]
         end
  end.

(** The command history: [aPrevCmds] and [iPrevCmd]. *)
Record CmdHistory : Type := mkCmdHistory {
  aPrevCmds : list string;
  iPrevCmd : Z
}.

(** [sCmd != this.aPrevCmds[i]], where the entry may be missing. *)
Definition differs (sCmd : string) (o : option string) : bool :=
  match o with
  | Some s => negb (String.eqb sCmd s)
  | None => true
  end.

(** [parseCommand(sCmd, fSave, chSep)]: the commands, and the history.
    [chSep] is a character, as its callers pass it. *)
Definition parseCommand (h : CmdHistory) (sCmd : option string) (fSave : bool)
           (chSep : option ascii) : list string * CmdHistory :=
  let '(sCmd, h) :=
    if fSave then
      match sCmd with
      | Some (String c s) =>
        let sCmd := String c s in
        let i := if (iPrevCmd h <? 0) && negb (isEmpty (aPrevCmds h))
                 then 0 else iPrevCmd h in
        let h := mkCmdHistory (aPrevCmds h) i in
        let h := if (iPrevCmd h <? 0) || differs sCmd (js_index (aPrevCmds h) (iPrevCmd h))
                 then mkCmdHistory (sCmd :: aPrevCmds h) 0 else h in
        (Some sCmd, mkCmdHistory (aPrevCmds h) (iPrevCmd h - 1))
      | _ => (js_index (aPrevCmds h) (iPrevCmd h + 1), h)
      end
    else (sCmd, h) in
  let a := match sCmd with
           | Some (String c s) =>
             splitOn (match chSep with Some ch => ch | None => ";"%char end) (String c s)
           | _ => [EmptyString]
           end in
  (List.map (trim str) a, h).

End Commands.

(** ** A reference machine

    Concrete collaborators, for running the debugger on examples. *)

Module PC.

(** Modelled from the spec: the constants of [x86.js], which is not among
    the sources: the reserved sentinel of an invalid address, the
    protected-mode and virtual-8086 bits, the processor models by number,
    the two size-override prefixes, INT3 and the string instructions. *)
Definition x86 : X86Defs :=
  mkX86Defs (-1) 0x1 0x20000 80186 80286 80386 0x66 0x67 0xCC 0xA4 0xA7 0xAA 0xAF.

(** Modelled from the spec: two message category bits of [messages.js]. *)
Definition msgs : MessageDefs := mkMessageDefs 0x10 0x80000000.

Definition hexDigit (n : Z) : ascii :=
  ascii_of_nat (Z.to_nat (if n <? 10 then 48 + n else 55 + n)).

Fixpoint hexDigits (cch : nat) (n : Z) (acc : string) : string :=
  match cch with
  | O => acc
  | S cch' => hexDigits cch' (JS.sar n 4) (String (hexDigit (JS.band n 0xf)) acc)
  end.

Fixpoint questionMarks (cch : nat) : string :=
  match cch with
  | O => EmptyString
  | S cch' => String "?"%char (questionMarks cch')
  end.

(** Modelled from the spec: [str.toHex] of [strlib.js], which is not among
    the sources: the number as [cch] upper-case hexadecimal digits, 8 when
    [cch] is missing, and question marks for a missing number. *)
Definition toHex (n : option Z) (cch : option Z) : string :=
  let cch := match cch with
             | Some c => if 8 <? c then 8 else c
             | None => 8
             end in
  match n with
  | Some n => hexDigits (Z.to_nat cch) n EmptyString
  | None => questionMarks (Z.to_nat cch)
  end.

Definition toHexWord (w : Z) : string := "0x" ++ toHex (Some w) (Some 4).

Fixpoint binDigits (cch : nat) (n : Z) (acc : string) : string :=
  match cch with
  | O => acc
  | S cch' =>
    binDigits cch' (JS.sar n 1)
              (String (if JS.truthy (JS.band n 1) then "1"%char else "0"%char) acc)
  end.

Definition toBinBytes (n : Z) : string := binDigits 8 n EmptyString.

Fixpoint spaces (n : nat) : string :=
  match n with
  | O => EmptyString
  | S n' => String " "%char (spaces n')
  end.

(** Modelled from the spec: [str.pad] of [strlib.js]: the string followed
    by the spaces that bring it to [cch] characters. *)
Definition pad (s : string) (cch : Z) : string :=
  s ++ spaces (Z.to_nat (cch - Z.of_nat (String.length s))).

Definition isSpace (c : ascii) : bool :=
  match c with
  | " "%char | "009"%char | "010"%char | "013"%char => true
  | _ => false
  end.

Fixpoint trimLeft (s : string) : string :=
  match s with
  | String c s' => if isSpace c then trimLeft s' else s
  | EmptyString => EmptyString
  end.

Fixpoint trimRight (s : string) : string :=
  match s with
  | String c s' =>
    match trimRight s' with
    | EmptyString => if isSpace c then EmptyString else String c EmptyString
    | t => String c t
    end
  | EmptyString => EmptyString
  end.

(** Modelled from the spec: [str.trim] of [strlib.js]: the string without
    the white space at its two ends. *)
Definition trim (s : string) : string := trimRight (trimLeft s).

Definition str : StrLib := mkStrLib toHex toHexWord toBinBytes pad trim.

(** A release build with 80386 support. *)
Definition env : Env := mkEnv x86 msgs str false true.

Fixpoint digitsValue (s : string) (acc : Z) : option Z :=
  match s with
  | EmptyString => Some acc
  | String c s' =>
    let n := Z.of_nat (nat_of_ascii c) in
    if (48 <=? n) && (n <=? 57) then digitsValue s' (acc * 10 + (n - 48)) else None
  end.

(** A value parser for the examples: unsigned literals written with the
    digits 0 to 9. *)
Definition parseValue (s : string) : option Z :=
  match s with
  | EmptyString => None
  | String _ _ => digitsValue s 0
  end.

(** A real-mode segment: base [16 * sel], 64K long. *)
Definition segReal (s : Z) : Seg :=
  mkSeg (fun o nb => if o + nb <=? 0x10000 then s * 16 + o else ADDR_INVALID x86)
        (fun o nb => if o + nb <=? 0x10000 then s * 16 + o else ADDR_INVALID x86)
        0xffff 0x10000 2 2.

(** A protected-mode data or readable code segment of the given base and
    size. *)
Definition segProt (base size : Z) : Seg :=
  mkSeg (fun o nb => if o + nb <=? size then base + o else ADDR_INVALID x86)
        (fun o nb => if o + nb <=? size then base + o else ADDR_INVALID x86)
        0xffff size 2 2.

(** An execute-only code segment: no offset can be read or written. *)
Definition segExecOnly (size : Z) : Seg :=
  mkSeg (fun _ _ => ADDR_INVALID x86) (fun _ _ => ADDR_INVALID x86)
        0xffff size 2 2.

(** A selector that is in no descriptor table. *)
Definition segNone : Seg :=
  mkSeg (fun _ _ => ADDR_INVALID x86) (fun _ _ => ADDR_INVALID x86) 0xffff 0 2 2.

Definition loader : SegLoader :=
  mkSegLoader (fun s => segReal (match s with Some s => s | None => 0 end))
              (fun _ => segNone).

(** Memory holding [B8 34 12] at linear address 0x100, zero elsewhere. *)
Definition memory (a : Z) : Z :=
  if a =? 0x100 then 0xB8
  else if a =? 0x101 then 0x34
  else if a =? 0x102 then 0x12
  else 0.

(** An 80286 in real mode, CS = F000 and the other selectors 0040. *)
Definition cpuReal : CPU :=
  mkCPU 0 0x2 80286 0xF000 0x40 0x40 0x40 0 0
        (segReal 0xF000) (segReal 0x40) (segReal 0x40) (segReal 0x40)
        (segReal 0) (segReal 0) memory false 0 0.

(** An 80286 in protected mode: CS = 0008 is an execute-only segment of
    64K, DS = ES = SS = 0010 a data segment of 4K at 0x20000. *)
Definition cpuProt : CPU :=
  mkCPU 0x1 0x2 80286 0x08 0x10 0x10 0x10 0 0
        (segExecOnly 0x10000) (segProt 0x20000 0x1000) (segProt 0x20000 0x1000)
        (segProt 0x20000 0x1000) segNone segNone memory false 0 0.

Definition noBreaks (name : string) : BreakList := mkBreakList name [].

(** The debugger as [initBus] leaves it on a 16Mb bus with an 80286, with
    the given nesting counter and execution breakpoints, no message
    category enabled unless [m] says so, and no symbols. *)
Definition dbgWith (c : CPU) (n : Z) (exec : list DbgAddr) (m : Z -> bool) : Debugger :=
  mkDebugger c loader 0xffffff n (mkBreakList "exec" exec) (noBreaks "read")
             (noBreaks "write") [] 0 []
             (List.firstn 15 Debugger_aaOpDescs
              ++ aOpDesc0F :: List.skipn 16 Debugger_aaOpDescs)%list
             m (fun _ => None) [] [].

(** The debugger as [clearBreakpoints] leaves it. *)
Definition dbg (c : CPU) : Debugger := dbgWith c 0 [] (fun _ => false).

Definition dbgReal : Debugger := dbg cpuReal.
Definition dbgProt : Debugger := dbg cpuProt.

(** A segmented address as [newAddr(off, sel)] builds it in 16-bit code,
    with [fProt] erased as the breakpoint command does. *)
Definition segmented (s o : Z) : DbgAddr :=
  mkDbgAddr o (Some s) None None false false false None None.

(** A linear address, [%addr]. *)
Definition linear (a : Z) : DbgAddr :=
  mkDbgAddr 0 None (Some a) None false false false None None.

(** One execution breakpoint, on the linear address [a]. *)
Definition dbgOne (a : Z) : Debugger :=
  dbgWith cpuReal 0 [linear a] (fun _ => false).

(** The same with the breakpoint on 0x100, while another lookup runs. *)
Definition dbgNested : Debugger :=
  dbgWith cpuReal 1 [linear 0x100] (fun _ => false).

End PC.

(** ** More machines for the examples *)

Module Lab.

(** A protected-mode segment that can be read and not written. *)
Definition segReadOnly (base size : Z) : Seg :=
  mkSeg (fun o nb => if o + nb <=? size then base + o else ADDR_INVALID PC.x86)
        (fun _ _ => ADDR_INVALID PC.x86)
        0xffff size 2 2.

(** The protected-mode 80286 of [PC.cpuProt] with DS = 0018, a read-only
    segment of 4K at 0x30000. *)
Definition cpuRom : CPU :=
  mkCPU 0x1 0x2 80286 0x08 0x18 0x10 0x10 0 0
        (PC.segExecOnly 0x10000) (segReadOnly 0x30000 0x1000)
        (PC.segProt 0x20000 0x1000) (PC.segProt 0x20000 0x1000)
        PC.segNone PC.segNone PC.memory false 0 0.

Definition dbgRom : Debugger := PC.dbg cpuRom.

(** A temporary breakpoint on the linear address [a]. *)
Definition tempAt (a : Z) : DbgAddr :=
  mkDbgAddr 0 None (Some a) None true false false None None.

(** The real-mode machine with a temporary execution breakpoint on 0x100
    before a breakpoint on 0x200 that stays. *)
Definition dbgTemp : Debugger :=
  PC.dbgWith PC.cpuReal 0 [tempAt 0x100; PC.linear 0x200] (fun _ => false).

(** The real-mode machine with a read breakpoint on 0x100 and a write
    breakpoint on 0x2000. *)
Definition dbgMem : Debugger :=
  mkDebugger PC.cpuReal PC.loader 0xffffff 0 (PC.noBreaks "exec")
             (mkBreakList "read" [PC.linear 0x100])
             (mkBreakList "write" [PC.linear 0x2000]) [] 0 []
             Debugger_aaOpDescs (fun _ => false) (fun _ => None) [] [].

(** The real-mode machine with a breakpoint on 0x200, a history ring of two
    slots with the second one next, and the table of opcode counts. *)
Definition dbgRing : Debugger :=
  mkDebugger PC.cpuReal PC.loader 0xffffff 0
             (mkBreakList "exec" [PC.linear 0x200]) (PC.noBreaks "read")
             (PC.noBreaks "write") [PC.linear 0; PC.linear 0] 1
             (List.map (fun i => (Z.of_nat i, 0)) (List.seq 0 256))
             Debugger_aaOpDescs (fun _ => false) (fun _ => None) [] [].

(** Interrupts enabled, both privilege levels 0, IP = 0100. *)
Definition ring0 : Privilege := mkPrivilege 0x200 0 0 0x100.

End Lab.

(** ** Vocabulary of the properties *)

(** The number of execution breakpoints: the array without its name. *)
Definition execBreakpoints (g : Debugger) : nat := List.length (entries (aBreakExec g)).

(** The condition under which instructions are tracked in a release build. *)
Definition trackingCondition {env : Env} (g : Debugger) : Prop :=
  (1 <= execBreakpoints g)%nat \/ messageEnabled g (MESSAGES_INT msgs) = true.

(** [d'] is [d] not advanced: same offset and selector, and the same cached
    linear address unless there was none and the invalid sentinel was
    stored. *)
Definition notAdvanced {env : Env} (d d' : DbgAddr) : Prop :=
  off d' = off d /\ sel d' = sel d
  /\ (addr d' = addr d \/ (addr d = None /\ addr d' = Some (ADDR_INVALID x86))).

(** The debugger while a breakpoint lookup runs: the nesting counter is one
    higher. *)
Definition checking (g : Debugger) : Debugger :=
  set_nSuppressBreaks g (nSuppressBreaks g + 1).

(** The linear address, after the alias fold, that [checkBreakpoint]
    computes for a breakpoint entry. *)
Definition breakAddr {env : Env} (g : Debugger) (e : DbgAddr) : Z :=
  fst (resolveBreak (checking g) e).

(** The entry a successful [addBreakpoint] has stored: the last one. *)
Definition storedBreak (g : Debugger) (k : BreakKind) (d : DbgAddr) : DbgAddr :=
  List.last (entries (getBreak g k)) d.

(** A string without any of the binary operators. *)
Fixpoint noBinOp (s : string) : bool :=
  match s with
  | EmptyString => true
  | String c s' => negb (isBinOp c) && noBinOp s'
  end.

(** [s] is written as an operand and [parseValue] reads it as [v]. *)
Definition Operand {env : Env} (parseValue : string -> option Z) (s : string) (v : Z)
  : Prop :=
  noBinOp s = true /\ trim str s <> EmptyString /\ parseValue (trim str s) = Some v.

(** [binop], then [| 0] as [evalExpression] stores the result. *)
Definition binop32 (chOp : ascii) (val1 val2 : Z) : option Z :=
  match binop chOp val1 val2 with
  | Some valNew => Some (JS.bor valNew 0)
  | None => None
  end.

(** *** The reading of an expression by precedence and left associativity

    Written from the words of the specification, to compare
    [parseExpression] with: operators of a higher precedence are applied
    before those of a lower one, and operators of the same precedence from
    left to right. *)

(** One pass over [v op1 w1 op2 w2 ...] that applies, left to right, the
    operators of precedence [p]. *)
Fixpoint reduceLevel (p : Z) (v : Z) (rest : list (ascii * Z))
  : option (Z * list (ascii * Z)) :=
  match rest with
  | [] => Some (v, [])
  | (op, w) :: rest' =>
    if JS.eq_opt (aBinOpPrecedence op) (Some p) then
      match binop32 op v w with
      | Some r => reduceLevel p r rest'
      | None => None
      end
    else
      match reduceLevel p w rest' with
      | Some (w', l) => Some (v, (op, w') :: l)
      | None => None
      end
  end.

Fixpoint reduceLevels (levels : list Z) (v : Z) (rest : list (ascii * Z)) : option Z :=
  match levels with
  | [] => match rest with [] => Some v | _ :: _ => None end
  | p :: levels' =>
    match reduceLevel p v rest with
    | Some (v', rest') => reduceLevels levels' v' rest'
    | None => None
    end
  end.

Fixpoint operatorsOf (s : string) : list ascii :=
  match s with
  | EmptyString => []
  | String c s' => if isBinOp c then c :: operatorsOf s' else operatorsOf s'
  end.

Fixpoint valuesOf {env : Env} (parseValue : string -> option Z) (l : list string)
  : option (list Z) :=
  match l with
  | [] => Some []
  | s :: l' =>
    match parseValue (trim str s), valuesOf parseValue l' with
    | Some v, Some vs => Some (v :: vs)
    | _, _ => None
    end
  end.

(** The value of an expression read by precedence, highest first, and from
    left to right within a precedence. *)
Definition precedenceValue {env : Env} (parseValue : string -> option Z) (sExp : string)
  : option Z :=
  match valuesOf parseValue (split sExp) with
  | Some (v :: vs) => reduceLevels [5; 4; 2; 1; 0] v (List.combine (operatorsOf sExp) vs)
  | _ => None
  end.

(** The reduction made when the incoming operator is of lower precedence
    than the one on top of the stack. *)
Definition reduceIfLower (chOp : ascii) (aVals : list Z) (aOps : list ascii)
  : list Z * list ascii :=
  match aOps with
  | top :: _ =>
    if lt_opt (aBinOpPrecedence chOp) (aBinOpPrecedence top)
    then (snd (fst (evalExpression aVals aOps (Some 1))),
          snd (evalExpression aVals aOps (Some 1)))
    else (aVals, aOps)
  | [] => (aVals, aOps)
  end.


(** What an expression with two operators evaluates to. *)
Definition twoOperators (c1 c2 : ascii) (v1 v2 v3 : Z) : option Z :=
  if lt_opt (aBinOpPrecedence c2) (aBinOpPrecedence c1) then
    match binop32 c1 v1 v2 with
    | Some x => binop32 c2 x v3
    | None => None
    end
  else
    match binop32 c2 v2 v3 with
    | Some x => binop32 c1 v1 x
    | None => None
    end.


(** *** The reading of an expression that [parseExpression] documents

    The comment of the function says: we pop one binop and two values
    whenever a binop of lower priority than its predecessor is encountered,
    evaluate and push the result.  So the operations wait, each with its
    left operand, for their right operand: going from left to right, an
    incoming operator of strictly lower precedence than the last operation
    waiting has that one operation applied, and no other; at the end the
    operations still waiting are applied from the last to the first.  An
    operation that fails leaves the expression without a value. *)

(** The operations waiting at the end, the last one first, applied to the
    last operand [v]. *)
Fixpoint applyPending (pending : list (Z * ascii)) (v : Z) : option Z :=
  match pending with
  | [] => Some v
  | (u, op) :: pending' =>
    match binop32 op u v with
    | Some r => applyPending pending' r
    | None => None
    end
  end.

(** From left to right over [v op1 w1 op2 w2 ...], with the operations
    waiting. *)
Fixpoint onePending (pending : list (Z * ascii)) (v : Z) (rest : list (ascii * Z))
  : option Z :=
  match rest with
  | [] => applyPending pending v
  | (op, w) :: rest' =>
    match pending with
    | (u, top) :: pending' =>
      if lt_opt (aBinOpPrecedence op) (aBinOpPrecedence top) then
        match binop32 top u v with
        | Some r => onePending ((r, op) :: pending') w rest'
        | None => None
        end
      else onePending ((v, op) :: pending) w rest'
    | [] => onePending [(v, op)] w rest'
    end
  end.

(** The values of the operands: none when an operand is blank or is not
    read by [parseValue]. *)
Fixpoint operandValues {env : Env} (parseValue : string -> option Z) (l : list string)
  : option (list Z) :=
  match l with
  | [] => Some []
  | s :: l' =>
    match trim str s with
    | EmptyString => None
    | String _ _ =>
      match parseValue (trim str s), operandValues parseValue l' with
      | Some v, Some vs => Some (v :: vs)
      | _, _ => None
      end
    end
  end.

(** The value of an expression read in this way. *)
Definition pendingValue {env : Env} (parseValue : string -> option Z) (sExp : string)
  : option Z :=
  match operandValues parseValue (split sExp) with
  | Some (v :: vs) => onePending [] v (List.combine (operatorsOf sExp) vs)
  | _ => None
  end.

(** The address 0:0100 advanced by [n] bytes, with its linear address
    cached; the other fields are those of [d]. *)
Definition at0100 (n : Z) (d : DbgAddr) : DbgAddr :=
  set_addr (set_sel (set_off d (0x100 + n)) (Some 0)) (Some (0x100 + n)).

(** The scenario of the bytes [B8 34 12] at 0:0100 with a 16-bit operand
    size: the address, a segment [seg] that maps 0:0100 to the linear
    address 0x100 and is 64K long, the three bytes in memory there, and what
    the collaborators must provide (the prefix and string opcodes are not
    0xB8, the table of the debugger has the entry of the static table, four
    hexadecimal digits are printed for 0x1234, the CPU is an 8086 or
    later). *)
Definition MovScenario {env : Env} (g : Debugger) (seg : Seg) (d : DbgAddr) : Prop :=
  (off d = 0x100 /\ sel d = Some 0 /\ addr d = None /\ fData32 d = false)
  /\ (getSegment g (Some 0) (fProt d) = Some seg
      /\ checkRead seg 0x100 1 = 0x100
      /\ addrMask seg = 0xFFFF /\ offMax seg = 0x10000
      /\ (ADDR_INVALID x86 < 0x100 \/ 0x103 < ADDR_INVALID x86))
  /\ (probeAddr (cpu g) 0x100 = 0xB8
      /\ probeAddr (cpu g) 0x101 = 0x34
      /\ probeAddr (cpu g) 0x102 = 0x12)
  /\ (OPCODE_OS x86 <> 0xB8 /\ OPCODE_AS x86 <> 0xB8
      /\ isStringIns 0xB8 = false
      /\ js_index (aaOpDescs g) 0xB8 = js_index Debugger_aaOpDescs 0xB8
      /\ toHex str (Some 0x1234) (Some 4) = "1234"
      /\ 8086 <= model (cpu g)).

(** The line [getInstruction] builds for it: address, bytes, mnemonic and
    operands. *)
Definition movLine {env : Env} (g : Debugger) (d : DbgAddr) : string :=
  let dIns := newAddr g (Some 0x100) (Some 0) None (fProt d) None None in
  (((hexAddr dIns ++ " ")
    ++ pad str ((toHex str (Some 0xB8) (Some 2) ++ toHex str (Some 0x34) (Some 2))
                ++ toHex str (Some 0x12) (Some 2))
           (if fAddr32 dIns then 24 else 16))
   ++ pad str "MOV" 8) ++ " " ++ "AX,1234".

(** *** Strings read from memory *)

(** A printable ASCII character other than the dollar sign. *)
Definition plainChar (c : ascii) : Prop :=
  (32 <= nat_of_ascii c < 128)%nat /\ c <> "$"%char.

(** [n] full stops. *)
Fixpoint dots (n : nat) : string :=
  match n with
  | O => EmptyString
  | S n' => String "."%char (dots n')
  end.

(** *** What the breakpoint functions leave of the debugger *)

(** [g'] is [g] but for the breakpoint arrays, the history buffers, the
    lines printed, the calls made to the bus, and the scratch segment
    register [segDebugger], which the source reloads in place whenever a
    selector is looked up that is in no segment register of the CPU. *)
Definition sameMachine (g g' : Debugger) : Prop :=
  cpu g' = cpu g /\ maskAddr g' = maskAddr g
  /\ nSuppressBreaks g' = nSuppressBreaks g /\ messageEnabled g' = messageEnabled g
  /\ aaOpDescs g' = aaOpDescs g /\ findSymbolAtAddr g' = findSymbolAtAddr g.

(** [g'] resolves addresses as [g] does: the fields that [getSegment],
    [getAddr], [mapBreakpoint] and [messageEnabled] read are equal.  The
    loaders of the scratch register are functions of the selector here, so
    this is about what a lookup returns, not about the register object. *)
Definition resolvesAs (g g' : Debugger) : Prop :=
  cpu g' = cpu g /\ segDebugger g' = segDebugger g /\ maskAddr g' = maskAddr g
  /\ nSuppressBreaks g' = nSuppressBreaks g /\ messageEnabled g' = messageEnabled g
  /\ aaOpDescs g' = aaOpDescs g /\ findSymbolAtAddr g' = findSymbolAtAddr g.

(** The number of entries of a breakpoint array, its name apart. *)
Definition countBreaks (g : Debugger) (k : BreakKind) : nat :=
  List.length (entries (getBreak g k)).

(** The breakpoint entry on which [checkBreakpoint] stops: the first one
    for which the loop over the byte range succeeds. *)
Definition hitEntry {env : Env} (g : Debugger) (a nb : Z) (k : BreakKind)
  : option DbgAddr :=
  List.find (fun e => rangeHit (Z.to_nat nb) (mapBreakpoint g a) 0 nb (breakAddr g e))
            (entries (getBreak g k)).

(** A call that sets a memory breakpoint inside the block of [size] bytes
    at [a]. *)
Definition addsInside (a size : Z) (c : BusCall) : Prop :=
  match c with
  | AddMemBreak x _ => a <= x < a + size
  | RemoveMemBreak _ _ => False
  end.

Definition BreakKind_eq_dec (k k' : BreakKind) : {k = k'} + {k <> k'}.
Proof. decide equality. Defined.

(** *** Reading at a linear address *)




(** *** The history ring *)

(** The index of the next history slot is a slot of the ring; without a
    ring it is zero. *)
Definition historyOK (g : Debugger) : Prop :=
  (aOpcodeHistory g = [] /\ iOpcodeHistory g = 0)
  \/ 0 <= iOpcodeHistory g < Z.of_nat (List.length (aOpcodeHistory g)).

(** * Properties *)

(** ** Reads through an address that does not resolve *)

Section AddressUnitFacts.

Context {env : Env}.

Lemma getAddr_off g d fWrite nb : off (snd (getAddr g d fWrite nb)) = off d.
Proof.
  unfold getAddr. destruct (addr d); [reflexivity|].
  destruct (getSegment g (sel d) (fProt d)); reflexivity.
Qed.

Lemma getAddr_sel g d fWrite nb : sel (snd (getAddr g d fWrite nb)) = sel d.
Proof.
  unfold getAddr. destruct (addr d); [reflexivity|].
  destruct (getSegment g (sel d) (fProt d)); reflexivity.
Qed.

Lemma getAddr_fProt g d fWrite nb : fProt (snd (getAddr g d fWrite nb)) = fProt d.
Proof.
  unfold getAddr. destruct (addr d); [reflexivity|].
  destruct (getSegment g (sel d) (fProt d)); reflexivity.
Qed.

(** After [getAddr] the cache holds the address returned, unless no
    segment was found for an address without a cache. *)
Lemma getAddr_cache g d fWrite nb :
  addr (snd (getAddr g d fWrite nb)) = Some (fst (getAddr g d fWrite nb))
  \/ (addr d = None /\ getSegment g (sel d) (fProt d) = None
      /\ getAddr g d fWrite nb = (ADDR_INVALID x86, d)).
Proof.
  unfold getAddr. destruct (addr d) eqn:Ha.
  - left. simpl. exact Ha.
  - destruct (getSegment g (sel d) (fProt d)).
    + left. reflexivity.
    + right. auto.
Qed.

(** A read whose address does not resolve returns its initial value and
    leaves the address as [getAddr] left it. *)
Lemma getByte_invalid g d inc :
  fst (getAddr g d false (Some 1)) = ADDR_INVALID x86 ->
  getByte g d inc = (0xff, snd (getAddr g d false (Some 1))).
Proof.
  intros H. unfold getByte. destruct (getAddr g d false (Some 1)) as [a d'].
  simpl in H. subst a. rewrite Z.eqb_refl. reflexivity.
Qed.

Lemma getShort_invalid g d inc :
  fst (getAddr g d false (Some 2)) = ADDR_INVALID x86 ->
  getShort g d inc = (0xffff, snd (getAddr g d false (Some 2))).
Proof.
  intros H. unfold getShort. destruct (getAddr g d false (Some 2)) as [a d'].
  simpl in H. subst a. rewrite Z.eqb_refl. reflexivity.
Qed.

Lemma getLong_invalid g d inc :
  fst (getAddr g d false (Some 4)) = ADDR_INVALID x86 ->
  getLong g d inc = (-1, snd (getAddr g d false (Some 4))).
Proof.
  intros H. unfold getLong. destruct (getAddr g d false (Some 4)) as [a d'].
  simpl in H. subst a. rewrite Z.eqb_refl. reflexivity.
Qed.

(** What a failed resolution leaves of the address: everything but the
    cache, which keeps its value or takes the sentinel. *)
Lemma getAddr_invalid_frame g d fWrite nb :
  fst (getAddr g d fWrite nb) = ADDR_INVALID x86 ->
  notAdvanced d (snd (getAddr g d fWrite nb)).
Proof.
  intros H. unfold notAdvanced.
  split; [apply getAddr_off|]. split; [apply getAddr_sel|].
  revert H. unfold getAddr. destruct (addr d) eqn:Ha.
  - intros _. left. simpl. congruence.
  - destruct (getSegment g (sel d) (fProt d)).
    + simpl. intros ->. right. auto.
    + intros _. left. simpl. congruence.
Qed.

(** C9.  When the address does not resolve ([getAddr] yields
    [ADDR_INVALID] for the size read), [getByte] returns 0xFF, [getShort]
    0xFFFF, and [getLong] the number -1, which is the 32-bit value with
    all bits set (0xFFFFFFFF as an unsigned number).  The three functions
    are total: no error is raised. *)
Theorem invalid_read_all_ones (g : Debugger) (d : DbgAddr) (inc : Z) :
  (fst (getAddr g d false (Some 1)) = ADDR_INVALID x86 ->
   fst (getByte g d inc) = 0xFF)
  /\ (fst (getAddr g d false (Some 2)) = ADDR_INVALID x86 ->
      fst (getShort g d inc) = 0xFFFF)
  /\ (fst (getAddr g d false (Some 4)) = ADDR_INVALID x86 ->
      fst (getLong g d inc) = -1
      /\ JS.toUint32 (fst (getLong g d inc)) = 0xFFFFFFFF
      /\ forall i, 0 <= i < 32 -> Z.testbit (fst (getLong g d inc)) i = true).
Proof.
  split; [|split]; intros H.
  - rewrite (getByte_invalid _ _ _ H). reflexivity.
  - rewrite (getShort_invalid _ _ _ H). reflexivity.
  - rewrite (getLong_invalid _ _ _ H). simpl fst.
    split; [reflexivity|]. split; [reflexivity|].
    intros i Hi. apply (Z.bits_m1 i). lia.
Qed.

(** C10, as amended.  A read that does not resolve does not advance the
    address, whatever increment was asked: offset and selector are as
    before, and the cached linear address is as before when there was one;
    when there was none it stays unset or is set to the invalid sentinel,
    which [getAddr] stores when it found a segment. *)
Theorem invalid_read_not_advanced (g : Debugger) (d : DbgAddr) (inc : Z) :
  (fst (getAddr g d false (Some 1)) = ADDR_INVALID x86 ->
   notAdvanced d (snd (getByte g d inc)))
  /\ (fst (getAddr g d false (Some 2)) = ADDR_INVALID x86 ->
      notAdvanced d (snd (getShort g d inc)))
  /\ (fst (getAddr g d false (Some 4)) = ADDR_INVALID x86 ->
      notAdvanced d (snd (getLong g d inc))).
Proof.
  split; [|split]; intros H.
  - rewrite (getByte_invalid _ _ _ H). simpl snd.
    exact (getAddr_invalid_frame _ _ _ _ H).
  - rewrite (getShort_invalid _ _ _ H). simpl snd.
    exact (getAddr_invalid_frame _ _ _ _ H).
  - rewrite (getLong_invalid _ _ _ H). simpl snd.
    exact (getAddr_invalid_frame _ _ _ _ H).
Qed.

End AddressUnitFacts.

(** ** 32-bit coercions *)

Lemma toInt32_range z : - 2^31 <= JS.toInt32 z < 2^31.
Proof.
  unfold JS.toInt32.
  pose proof (Z.mod_pos_bound (z + 2^31) (2^32) ltac:(lia)). lia.
Qed.

Lemma toInt32_small z : - 2^31 <= z < 2^31 -> JS.toInt32 z = z.
Proof.
  intros H. unfold JS.toInt32. rewrite Z.mod_small; lia.
Qed.

Lemma toInt32_idem z : JS.toInt32 (JS.toInt32 z) = JS.toInt32 z.
Proof. apply toInt32_small, toInt32_range. Qed.

Lemma toInt32_high z : 2^31 <= z < 2^32 -> JS.toInt32 z = z - 2^32.
Proof.
  intros H. unfold JS.toInt32.
  replace (z + 2^31) with ((z - 2^31) + 1 * 2^32) by lia.
  rewrite Z.mod_add by lia. rewrite Z.mod_small; lia.
Qed.

(** [x & 0xfffff] is a number between 0 and 0xfffff. *)
Lemma band_low20_range x : 0 <= JS.band x 0x000fffff <= 0xfffff.
Proof.
  unfold JS.band. change (JS.toInt32 1048575) with (Z.ones 20).
  rewrite Z.land_ones by lia.
  pose proof (Z.mod_pos_bound (JS.toInt32 x) (2^20) ltac:(lia)). lia.
Qed.

Lemma band_low20_idem x : JS.band (JS.band x 0x000fffff) 0x000fffff = JS.band x 0x000fffff.
Proof.
  pose proof (band_low20_range x) as H.
  unfold JS.band at 1. rewrite toInt32_small by lia.
  unfold JS.band. rewrite <- Z.land_assoc, Z.land_diag. reflexivity.
Qed.

(** [m & ~0xffff] clears the low 16 bits of [m]. *)
Lemma band_bnot16 m :
  JS.band m (JS.bnot 0xffff) = Z.shiftl (Z.shiftr (JS.toInt32 m) 16) 16.
Proof.
  unfold JS.band, JS.bnot.
  change (JS.toInt32 65535) with (Z.ones 16).
  rewrite (toInt32_small (Z.lnot (Z.ones 16))).
  - rewrite <- Z.ldiff_land. apply Z.ldiff_ones_r. lia.
  - change (Z.lnot (Z.ones 16)) with (-65536). lia.
Qed.

Lemma clear16_range z : - 2^31 <= z < 2^31 ->
  - 2^31 <= Z.shiftl (Z.shiftr z 16) 16 < 2^31.
Proof.
  intros H. rewrite Z.shiftr_div_pow2, Z.shiftl_mul_pow2 by lia.
  pose proof (Z.mul_div_le z (2^16) ltac:(lia)).
  assert (- 2^15 <= z / 2^16) by (apply Z.div_le_lower_bound; lia).
  lia.
Qed.

(** An address all of whose bits under the mask are set has, above bit 16,
    all the bits of the bus limit. *)
Lemma band_mask_covers x m :
  JS.band x (JS.band m (JS.bnot 0xffff)) = JS.band m (JS.bnot 0xffff) ->
  Z.land (Z.shiftr (JS.toInt32 x) 16) (Z.shiftr (JS.toInt32 m) 16)
  = Z.shiftr (JS.toInt32 m) 16.
Proof.
  rewrite band_bnot16. intros H.
  unfold JS.band in H.
  rewrite (toInt32_small (Z.shiftl _ _)) in H
    by (apply clear16_range, toInt32_range).
  apply (f_equal (fun v => Z.shiftr v 16)) in H.
  rewrite Z.shiftr_land in H.
  rewrite Z.shiftr_shiftl_l in H by lia.
  replace (16 - 16) with 0 in H by lia. rewrite Z.shiftl_0_r in H.
  exact H.
Qed.

(** ** The alias fold *)

Section AliasFold.

Context {env : Env}.

Lemma mapBreakpoint_invalid g : mapBreakpoint g (ADDR_INVALID x86) = ADDR_INVALID x86.
Proof. unfold mapBreakpoint. rewrite Z.eqb_refl. reflexivity. Qed.

Lemma mapBreakpoint_cases g a :
  mapBreakpoint g a = a \/ mapBreakpoint g a = JS.band a 0x000fffff.
Proof.
  unfold mapBreakpoint.
  destruct (negb (a =? ADDR_INVALID x86)); [|left; reflexivity].
  destruct (_ =? _); [right|left]; reflexivity.
Qed.

Lemma mapBreakpoint_idem g a : mapBreakpoint g (mapBreakpoint g a) = mapBreakpoint g a.
Proof.
  destruct (mapBreakpoint_cases g a) as [H|H]; rewrite H.
  - exact H.
  - destruct (mapBreakpoint_cases g (JS.band a 0x000fffff)) as [H'|H'];
      rewrite H'; [reflexivity|apply band_low20_idem].
Qed.

(** On a bus of [k] address bits, an address below the top 64Kb is not
    folded. *)
Lemma mapBreakpoint_below g a k :
  16 <= k <= 32 -> maskAddr g = 2^k - 1 -> 0 <= a < 2^k - 2^16 ->
  mapBreakpoint g a = a.
Proof.
  intros Hk HM Ha. unfold mapBreakpoint.
  destruct (a =? ADDR_INVALID x86); cbn [negb]; [reflexivity|].
  destruct (JS.band a (JS.band (maskAddr g) (JS.bnot 65535))
            =? JS.band (maskAddr g) (JS.bnot 65535)) eqn:Hm; [|reflexivity].
  exfalso. apply Z.eqb_eq in Hm. apply band_mask_covers in Hm.
  rewrite HM in Hm.
  assert (Hpow : 2^k = 2^(k-16) * 2^16)
    by (rewrite <- Z.pow_add_r by lia; f_equal; lia).
  assert (Hp1 : 1 <= 2^(k-16)) by (apply (Z.pow_le_mono_r 2 0 (k-16)); lia).
  assert (Hk32 : 2^k <= 2^32) by (apply Z.pow_le_mono_r; lia).
  destruct (Z.eq_dec k 32) as [->|Hne].
  - change (JS.toInt32 (2^32 - 1)) with (-1) in Hm.
    change (Z.shiftr (-1) 16) with (-1) in Hm.
    rewrite Z.land_m1_r in Hm.
    rewrite Z.shiftr_div_pow2 in Hm by lia.
    assert (Hr : -65536 <= JS.toInt32 a < 0).
    { pose proof (Z.mul_div_le (JS.toInt32 a) (2^16) ltac:(lia)).
      pose proof (Z.mul_succ_div_gt (JS.toInt32 a) (2^16) ltac:(lia)).
      lia. }
    destruct (Z_lt_le_dec a (2^31)).
    + rewrite toInt32_small in Hr; lia.
    + rewrite toInt32_high in Hr; lia.
  - assert (Hk31 : 2^k <= 2^31) by (apply Z.pow_le_mono_r; lia).
    rewrite (toInt32_small (2^k - 1)) in Hm by lia.
    rewrite (toInt32_small a) in Hm by lia.
    rewrite !Z.shiftr_div_pow2 in Hm by lia.
    assert (Hones : (2^k - 1) / 2^16 = Z.ones (k - 16)).
    { rewrite Z.ones_equiv. symmetry.
      apply (Z.div_unique (2^k - 1) (2^16) (Z.pred (2^(k-16))) (2^16 - 1)); lia. }
    rewrite Hones, Z.land_ones in Hm by lia.
    assert (Hq : 0 <= a / 2^16 < 2^(k-16) - 1).
    { split; [apply Z.div_pos; lia|].
      apply Z.div_lt_upper_bound; lia. }
    rewrite Z.mod_small in Hm by lia.
    rewrite Z.ones_equiv in Hm. lia.
Qed.

Lemma mapBreakpoint_16Mb g :
  maskAddr g = 0xFFFFFF -> ADDR_INVALID x86 <> 0xFFFF0000 ->
  mapBreakpoint g 0xFFFF0000 = 0x000F0000.
Proof.
  intros HM Hinv. unfold mapBreakpoint. rewrite HM.
  destruct (Z.eqb_spec 4294901760 (ADDR_INVALID x86)) as [E|_]; [congruence|].
  reflexivity.
Qed.

(** C5.  [mapBreakpoint] is idempotent; the invalid sentinel and, on a
    bus of [k] address bits, every address below the top 64Kb are returned
    unchanged; with the 16Mb mask 0xFFFF0000 folds to 0x000F0000. *)
Theorem mapBreakpoint_fold (g : Debugger) (a : Z) :
  mapBreakpoint g (mapBreakpoint g a) = mapBreakpoint g a
  /\ mapBreakpoint g (ADDR_INVALID x86) = ADDR_INVALID x86
  /\ (forall k, 16 <= k <= 32 -> maskAddr g = 2^k - 1 ->
      0 <= a < 2^k - 2^16 -> mapBreakpoint g a = a)
  /\ (maskAddr g = 0xFFFFFF -> ADDR_INVALID x86 <> 0xFFFF0000 ->
      mapBreakpoint g 0xFFFF0000 = 0x000F0000).
Proof.
  split; [apply mapBreakpoint_idem|].
  split; [apply mapBreakpoint_invalid|].
  split; [intros k; apply mapBreakpoint_below|apply mapBreakpoint_16Mb].
Qed.

End AliasFold.

(** ** History gating *)

Section HistoryGating.

Context {env : Env}.

Lemma isEmpty_true {A : Type} (l : list A) : isEmpty l = true <-> l = [].
Proof. destruct l; simpl; split; congruence. Qed.

Lemma isEmpty_false {A : Type} (l : list A) : isEmpty l = false <-> l <> [].
Proof. destruct l; simpl; split; congruence. Qed.

Lemma checksEnabled_release g fRelease :
  DEBUG = false ->
  checksEnabled g fRelease
  = (0 <? Z.of_nat (execBreakpoints g)) || messageEnabled g (MESSAGES_INT msgs).
Proof.
  intros HD. unfold checksEnabled, aBreak_length, execBreakpoints. rewrite HD.
  cbn [andb]. f_equal.
  destruct (Z.ltb_spec 1 (1 + Z.of_nat (List.length (entries (aBreakExec g)))));
    destruct (Z.ltb_spec 0 (Z.of_nat (List.length (entries (aBreakExec g)))));
    try reflexivity; lia.
Qed.

Lemma historyInit_disabled g :
  checksEnabled g false = false ->
  aOpcodeHistory (historyInit g) = [] /\ aaOpcodeCounts (historyInit g) = [].
Proof.
  intros H. unfold historyInit. rewrite H. cbn [negb].
  split; reflexivity.
Qed.

Lemma repeat_nonempty {A : Type} (x : A) (n : nat) :
  (0 < n)%nat -> List.repeat x n <> [].
Proof. destruct n; [lia|discriminate]. Qed.

Lemma history_limit_pos : (0 < Z.to_nat HISTORY_LIMIT)%nat.
Proof. unfold HISTORY_LIMIT. lia. Qed.

Lemma historyInit_enabled g :
  checksEnabled g false = true ->
  aOpcodeHistory (historyInit g) <> []
  /\ aaOpcodeCounts (historyInit g) <> []
  /\ (aOpcodeHistory g = [] ->
      Z.of_nat (List.length (aOpcodeHistory (historyInit g))) = HISTORY_LIMIT)
  /\ (aaOpcodeCounts g = [] ->
      List.length (aaOpcodeCounts (historyInit g)) = 256%nat).
Proof.
  intros H. unfold historyInit. rewrite H. cbn [negb].
  destruct (aOpcodeHistory g) as [|h0 hs] eqn:Hh; cbn [isEmpty];
    destruct (aaOpcodeCounts g) as [|c0 cs] eqn:Hc;
    cbn [println set_history aaOpcodeCounts aOpcodeHistory isEmpty];
    rewrite ?Hc, ?Hh;
    cbn [println set_history aaOpcodeCounts aOpcodeHistory isEmpty].
  - split; [apply repeat_nonempty, history_limit_pos|].
    split; [discriminate|].
    split; intros _.
    + rewrite List.repeat_length. unfold HISTORY_LIMIT. lia.
    + rewrite List.length_map, List.length_seq. reflexivity.
  - split; [apply repeat_nonempty, history_limit_pos|].
    split; [discriminate|].
    split; [intros _|discriminate].
    rewrite List.repeat_length. unfold HISTORY_LIMIT. lia.
  - split; [discriminate|].
    split; [discriminate|].
    split; [discriminate|intros _].
    rewrite List.length_map, List.length_seq. reflexivity.
  - repeat split; discriminate.
Qed.

(** C3, as amended.  In a release build tracking is enabled if and only
    if at least one execution breakpoint exists (the array holds more than
    its name) or the interrupt message category is active; [historyInit]
    leaves the history and count buffers allocated exactly when that holds,
    and empty otherwise. *)
Theorem history_tracking_enabled_iff (g : Debugger) (fRelease : bool) :
  DEBUG = false ->
  (checksEnabled g fRelease = true <-> trackingCondition g)
  /\ (trackingCondition g ->
      aOpcodeHistory (historyInit g) <> [] /\ aaOpcodeCounts (historyInit g) <> []
      /\ (aOpcodeHistory g = [] ->
          Z.of_nat (List.length (aOpcodeHistory (historyInit g))) = HISTORY_LIMIT)
      /\ (aaOpcodeCounts g = [] ->
          List.length (aaOpcodeCounts (historyInit g)) = 256%nat))
  /\ (~ trackingCondition g ->
      aOpcodeHistory (historyInit g) = [] /\ aaOpcodeCounts (historyInit g) = []).
Proof.
  intros HD.
  assert (Hiff : forall r, checksEnabled g r = true <-> trackingCondition g).
  { intros r. rewrite (checksEnabled_release g r HD). unfold trackingCondition.
    rewrite Bool.orb_true_iff, Z.ltb_lt.
    split; (intros [H|H]; [left; lia|right; exact H]). }
  split; [apply Hiff|]. split.
  - intros He. apply historyInit_enabled. apply (proj2 (Hiff false)). exact He.
  - intros Hn. apply historyInit_disabled.
    destruct (checksEnabled g false) eqn:E; [|reflexivity].
    exfalso. apply Hn. apply (proj1 (Hiff false)). exact E.
Qed.

End HistoryGating.

(** ** The breakpoint engine *)

Section BreakpointFacts.

Context {env : Env}.

(** *** What the state updates leave alone *)

Lemma getBreak_setBreak g k a : getBreak (setBreak g k a) k = a.
Proof. destruct k; reflexivity. Qed.

Lemma getBreak_println g s k : getBreak (println g s) k = getBreak g k.
Proof. destruct k; reflexivity. Qed.

Lemma getBreak_busCall g c k : getBreak (busCall g c) k = getBreak g k.
Proof. destruct k; reflexivity. Qed.

Lemma getBreak_set_nSuppressBreaks g n k :
  getBreak (set_nSuppressBreaks g n) k = getBreak g k.
Proof. destruct k; reflexivity. Qed.

Lemma getBreak_historyInit g k : getBreak (historyInit g) k = getBreak g k.
Proof.
  unfold historyInit.
  destruct (negb (checksEnabled g false)).
  - destruct (negb (isEmpty (aOpcodeHistory g))); destruct k; reflexivity.
  - destruct (isEmpty (aOpcodeHistory g));
      match goal with |- context [isEmpty (aaOpcodeCounts ?x)] =>
        destruct (isEmpty (aaOpcodeCounts x)) end;
      destruct k; reflexivity.
Qed.

(** [findBreakpoint] hands back the address as [getAddr] left it. *)
Lemma findBreakpoint_addr g k d fRemove :
  snd (findBreakpoint g k d fRemove) = snd (getAddr g d false None).
Proof.
  unfold findBreakpoint.
  destruct (getAddr g d false None) as [a0 d1].
  destruct (scanBreak g (mapBreakpoint g a0) d1 (entries (getBreak g k)))
    as [[v h] r].
  destruct h; [destruct fRemove|]; reflexivity.
Qed.

(** *** Temporary breakpoints *)

Lemma addBreakpoint_temp_stored g k d :
  fst (fst (addBreakpoint g k d true)) = true ->
  let d' := snd (addBreakpoint g k d true) in
  storedBreak (snd (fst (addBreakpoint g k d true))) k d = d'
  /\ fTempBreak d' = true
  /\ off d' = off d
  /\ (JS.truthy_opt (addr d') = true -> sel d' = None)
  /\ (JS.truthy_opt (addr d') = false -> sel d' = sel d).
Proof.
  unfold addBreakpoint, storedBreak.
  pose proof (findBreakpoint_addr (checking g) k d false) as Hd.
  unfold checking in Hd.
  destruct (findBreakpoint (set_nSuppressBreaks g (nSuppressBreaks g + 1)) k d false)
    as [[f g1] d1].
  simpl in Hd.
  destruct f; cbn [negb fst snd]; [discriminate|]. intros _.
  set (d2 := set_fTempBreak d1 true).
  assert (Hsel : sel d2 = sel d) by (subst d2 d1; apply getAddr_sel).
  assert (Hoff : off d2 = off d) by (subst d2 d1; apply getAddr_off).
  assert (Htmp : fTempBreak d2 = true) by reflexivity.
  clearbody d2. clear Hd.
  assert (Hres : exists a3 d3,
             (if negb (isExec k) then getAddr g1 d2 false None else (0, d2)) = (a3, d3)
             /\ sel d3 = sel d /\ off d3 = off d /\ fTempBreak d3 = true).
  { destruct (isExec k); cbn [negb].
    - exists 0, d2. auto.
    - pose proof (getAddr_sel g1 d2 false None).
      pose proof (getAddr_off g1 d2 false None).
      assert (fTempBreak (snd (getAddr g1 d2 false None)) = true).
      { unfold getAddr. destruct (addr d2); [exact Htmp|].
        destruct (getSegment g1 (sel d2) (fProt d2)); exact Htmp. }
      destruct (getAddr g1 d2 false None) as [a3 d3]. exists a3, d3.
      simpl in *. repeat split; congruence. }
  destruct Hres as (a3 & d3 & -> & Hsel3 & Hoff3 & Htmp3).
  cbn [negb fst snd].
  rewrite getBreak_set_nSuppressBreaks.
  match goal with |- context [List.last (entries (getBreak ?gg k)) d] =>
    assert (Hent : entries (getBreak gg k)
                   = (entries (getBreak g1 k)
                      ++ [if JS.truthy_opt (addr d3) then set_sel d3 None else d3])%list)
  end.
  { destruct (isExec k); cbn [negb];
      rewrite ?getBreak_busCall, getBreak_setBreak; reflexivity. }
  rewrite Hent, List.last_last.
  destruct (JS.truthy_opt (addr d3)) eqn:Ht.
  - cbn [set_sel sel addr off fTempBreak]. rewrite Ht. repeat split; auto.
    discriminate.
  - rewrite Ht. repeat split; auto. discriminate.
Qed.

(** C4, as amended.  A temporary breakpoint that is added is stored with
    its selector cleared when a linear address is stored in it (the source
    tests [dbgAddr.addr]; here for every address that resolved and is not
    zero); when no linear address could be stored the selector is kept. *)
Theorem temp_breakpoint_selector (g : Debugger) (k : BreakKind) (d : DbgAddr) :
  fst (fst (addBreakpoint g k d true)) = true ->
  storedBreak (snd (fst (addBreakpoint g k d true))) k d
  = snd (addBreakpoint g k d true)
  /\ (forall a, addr (snd (addBreakpoint g k d true)) = Some a ->
      a <> 0 -> a <> ADDR_INVALID x86 ->
      sel (snd (addBreakpoint g k d true)) = None)
  /\ (addr (snd (addBreakpoint g k d true)) = None ->
      sel (snd (addBreakpoint g k d true)) = sel d).
Proof.
  intros H. destruct (addBreakpoint_temp_stored g k d H) as (Hs & _ & _ & Ht & Hf).
  split; [exact Hs|]. split.
  - intros a Ha Hnz _. apply Ht. rewrite Ha. unfold JS.truthy_opt, JS.truthy.
    destruct (Z.eqb_spec a 0); [contradiction|reflexivity].
  - intros Ha. apply Hf. rewrite Ha. reflexivity.
Qed.

(** *** Matching *)

Lemma rangeHit_sound fuel a nb : forall n ab,
  rangeHit fuel a n nb ab = true ->
  exists j, 0 <= j /\ ab = a + n + j /\ n + 2 * j < nb.
Proof.
  induction fuel as [|fuel IH]; intros n ab H; simpl in H; [discriminate|].
  destruct (Z.ltb_spec n nb) as [Hn|Hn]; [|discriminate].
  destruct (Z.eqb_spec (a + n) ab) as [E|E].
  - exists 0. lia.
  - apply IH in H. destruct H as (j & Hj & Hab & Hlt).
    exists (j + 1). lia.
Qed.

Lemma rangeHit_complete a nb : forall (j : nat) fuel n ab,
  (j < fuel)%nat -> ab = a + n + Z.of_nat j -> n + 2 * Z.of_nat j < nb ->
  rangeHit fuel a n nb ab = true.
Proof.
  induction j as [|j IH]; intros fuel n ab Hf Hab Hlt;
    (destruct fuel as [|fuel]; [lia|]); simpl.
  - destruct (Z.ltb_spec n nb); [|lia].
    destruct (Z.eqb_spec (a + n) ab); [reflexivity|lia].
  - destruct (Z.ltb_spec n nb); [|lia].
    destruct (Z.eqb_spec (a + n) ab); [reflexivity|].
    apply IH; lia.
Qed.

(** The positions the inner loop of [checkBreakpoint] compares: with the
    two increments of [n] in each iteration, [addr + j] for [2 j < nb]. *)
Lemma rangeHit_exact a nb ab :
  rangeHit (Z.to_nat nb) a 0 nb ab = true
  <-> exists j, 0 <= j /\ 2 * j < nb /\ ab = a + j.
Proof.
  split.
  - intros H. apply rangeHit_sound in H. destruct H as (j & ? & ? & ?).
    exists j. lia.
  - intros (j & Hj & Hlt & ->).
    apply (rangeHit_complete a nb (Z.to_nat j)); lia.
Qed.

Lemma checkLoop_fst g a nb k fTemp : forall rest visited,
  fst (checkLoop g a nb k fTemp visited rest)
  = List.existsb (fun e => rangeHit (Z.to_nat nb) a 0 nb (fst (resolveBreak g e))) rest.
Proof.
  induction rest as [|e rest IH]; intros visited; [reflexivity|].
  cbn [checkLoop List.existsb].
  destruct (resolveBreak g e) as [ab e'] eqn:Hr. cbn [fst].
  destruct (rangeHit (Z.to_nat nb) a 0 nb ab); [reflexivity|].
  cbn [orb]. apply IH.
Qed.

Lemma checkBreakpoint_suppressed g a nb k fTemp :
  nSuppressBreaks g <> 0 -> fst (checkBreakpoint g a nb k fTemp) = false.
Proof.
  intros H. unfold checkBreakpoint, JS.truthy.
  destruct (Z.eqb_spec (nSuppressBreaks g) 0); [contradiction|]. reflexivity.
Qed.

Lemma checkBreakpoint_scan g a nb k fTemp :
  nSuppressBreaks g = 0 ->
  messageEnabled g (JS.bor (MESSAGES_INT msgs) (MESSAGES_HALT msgs)) = false ->
  fst (checkBreakpoint g a nb k fTemp)
  = List.existsb
      (fun e => rangeHit (Z.to_nat nb) (mapBreakpoint g a) 0 nb (breakAddr g e))
      (entries (getBreak g k)).
Proof.
  intros Hn Hm. unfold checkBreakpoint, JS.truthy. rewrite Hn.
  cbn [Z.eqb negb].
  change (messageEnabled (set_nSuppressBreaks g (0 + 1))
                         (JS.bor (MESSAGES_INT msgs) (MESSAGES_HALT msgs)))
    with (messageEnabled g (JS.bor (MESSAGES_INT msgs) (MESSAGES_HALT msgs))).
  rewrite Hm.
  destruct (checkLoop _ _ _ _ _ _ _) as [b g'] eqn:Hc.
  cbn [fst]. apply (f_equal fst) in Hc. rewrite checkLoop_fst in Hc.
  cbn [fst] in Hc. subst b.
  rewrite getBreak_set_nSuppressBreaks.
  unfold breakAddr, checking. rewrite Hn. reflexivity.
Qed.

(** The entries a check finds when no other lookup runs and the INT3 test
    is off (the INT and HALT categories are not both enabled): those that
    resolve, after the alias fold, to the folded address plus [j] for some
    [j] with [2 j < nb], the first half of the byte range. *)
Lemma checkBreakpoint_first_half (g : Debugger) (a nb : Z) (k : BreakKind) (fTemp : bool) :
  nSuppressBreaks g = 0 ->
  messageEnabled g (JS.bor (MESSAGES_INT msgs) (MESSAGES_HALT msgs)) = false ->
  fst (checkBreakpoint g a nb k fTemp) = true
  <-> exists e j, List.In e (entries (getBreak g k))
                  /\ 0 <= j /\ 2 * j < nb /\ breakAddr g e = mapBreakpoint g a + j.
Proof.
  intros Hn Hm. rewrite (checkBreakpoint_scan g a nb k fTemp Hn Hm).
  split.
  - intros H. apply List.existsb_exists in H. destruct H as (e & Hin & Hhit).
    apply rangeHit_exact in Hhit. destruct Hhit as (j & ? & ? & ?).
    exists e, j. auto.
  - intros (e & j & Hin & Hj & Hlt & He). apply List.existsb_exists.
    exists e. split; [exact Hin|].
    apply rangeHit_exact. exists j. auto.
Qed.

End BreakpointFacts.

(** ** The expression evaluator *)

Section ExpressionFacts.

Context {env : Env}.
Variable parseValue : string -> option Z.

(** *** Splitting *)

Lemma split_operand s : noBinOp s = true -> split s = [s].
Proof.
  induction s as [|c s IH]; intros H; [reflexivity|].
  simpl in H. apply Bool.andb_true_iff in H. destruct H as [Hc Hs].
  simpl. destruct (isBinOp c); [discriminate|]. rewrite (IH Hs). reflexivity.
Qed.

Lemma split_app s c r :
  noBinOp s = true -> isBinOp c = true ->
  split (s ++ String c r) = s :: split r.
Proof.
  intros Hs Hc. induction s as [|c0 s IH].
  - simpl. rewrite Hc. reflexivity.
  - simpl in Hs. apply Bool.andb_true_iff in Hs. destruct Hs as [Hc0 Hs].
    simpl. destruct (isBinOp c0); [discriminate|]. rewrite (IH Hs). reflexivity.
Qed.

Lemma substring_at_end s : substring (String.length s) 1 s = EmptyString.
Proof. induction s as [|c s IH]; [reflexivity|exact IH]. Qed.

Lemma substring_at_op s c r :
  substring (String.length s) 1 (s ++ String c r) = String c EmptyString.
Proof.
  induction s as [|c0 s IH]; [|exact IH].
  simpl. destruct r; reflexivity.
Qed.

Lemma substr_from_app s c r :
  substr_from (String.length s + 1) (s ++ String c r) = r.
Proof. induction s as [|c0 s IH]; [reflexivity|exact IH]. Qed.

(** *** One turn of the loop of [parseExpression] *)

Lemma parseLoop_operand sValue v c sExp rest aVals aOps :
  Operand parseValue sValue v ->
  parseLoop parseValue (sValue :: rest) (sValue ++ String c sExp) aVals aOps
  = parseLoop parseValue rest sExp
              (fst (reduceIfLower c (v :: aVals) aOps))
              (c :: snd (reduceIfLower c (v :: aVals) aOps)).
Proof.
  intros (_ & Ht & Hv). cbn [parseLoop].
  destruct (trim str sValue) as [|t0 ts] eqn:E; [contradiction|].
  rewrite Hv, substring_at_op, substr_from_app.
  unfold reduceIfLower. destruct aOps as [|top aOps]; [reflexivity|].
  destruct (lt_opt (aBinOpPrecedence c) (aBinOpPrecedence top)); [|reflexivity].
  destruct (evalExpression (v :: aVals) (top :: aOps) (Some 1)) as [[ok vs] os].
  reflexivity.
Qed.

Lemma parseLoop_last sValue v rest aVals aOps :
  Operand parseValue sValue v ->
  parseLoop parseValue (sValue :: rest) sValue aVals aOps
  = mkParseState false (v :: aVals) aOps sValue.
Proof.
  intros (_ & Ht & Hv). cbn [parseLoop].
  destruct (trim str sValue) as [|t0 ts] eqn:E; [contradiction|].
  rewrite Hv, substring_at_end. reflexivity.
Qed.

(** *** Evaluation steps *)

Lemma evalLoop_step val2 val1 aVals chOp aOps cOps :
  cOps <> 0 ->
  evalLoop (val2 :: val1 :: aVals) (chOp :: aOps) cOps
  = match binop32 chOp val1 val2 with
    | Some r => evalLoop (r :: aVals) aOps (cOps - 1)
    | None => (false, aVals, aOps)
    end.
Proof.
  intros H. cbn [evalLoop]. unfold JS.truthy, binop32.
  destruct (Z.eqb_spec cOps 0); [contradiction|]. cbn [negb].
  destruct (binop chOp val1 val2); reflexivity.
Qed.

Lemma evalLoop_done aVals cOps : evalLoop aVals [] cOps = (true, aVals, []).
Proof. cbn [evalLoop]. destruct (negb (JS.truthy cOps)); reflexivity. Qed.

Lemma evalLoop_stop aVals aOps : evalLoop aVals aOps 0 = (true, aVals, aOps).
Proof. destruct aOps; reflexivity. Qed.

Lemma evalLoop_short v chOp aOps cOps :
  cOps <> 0 -> evalLoop [v] (chOp :: aOps) cOps = (false, [v], aOps).
Proof.
  intros H. cbn [evalLoop]. unfold JS.truthy.
  destruct (Z.eqb_spec cOps 0); [contradiction|]. reflexivity.
Qed.

Lemma parseExpression_two s1 c1 s2 c2 s3 v1 v2 v3 :
  Operand parseValue s1 v1 -> Operand parseValue s2 v2 -> Operand parseValue s3 v3 ->
  isBinOp c1 = true -> isBinOp c2 = true ->
  fst (parseExpression parseValue (s1 ++ String c1 (s2 ++ String c2 s3)) false)
  = twoOperators c1 c2 v1 v2 v3.
Proof.
  intros H1 H2 H3 Hc1 Hc2. unfold parseExpression.
  rewrite (split_app s1 c1 _ (proj1 H1) Hc1).
  rewrite (split_app s2 c2 _ (proj1 H2) Hc2).
  rewrite (split_operand s3 (proj1 H3)).
  rewrite (parseLoop_operand s1 v1 c1 _ _ _ _ H1). cbn [reduceIfLower fst snd].
  rewrite (parseLoop_operand s2 v2 c2 _ _ _ _ H2).
  unfold reduceIfLower, twoOperators.
  destruct (lt_opt (aBinOpPrecedence c2) (aBinOpPrecedence c1)).
  - unfold evalExpression. cbn [JS.or_default].
    change (if JS.truthy 1 then 1 else -1) with 1.
    rewrite !(evalLoop_step v2 v1 [] c1 [] 1) by discriminate.
    destruct (binop32 c1 v1 v2) as [x|].
    + rewrite !evalLoop_done. cbn [fst snd].
      rewrite (parseLoop_last s3 v3 _ _ _ H3).
      cbn [ps_aVals ps_aOps ps_fError].
      rewrite evalLoop_step by discriminate.
      destruct (binop32 c2 x v3) as [y|]; [|reflexivity].
      rewrite evalLoop_done. reflexivity.
    + cbn [fst snd].
      rewrite (parseLoop_last s3 v3 _ _ _ H3).
      cbn [ps_aVals ps_aOps ps_fError].
      rewrite evalLoop_short by discriminate. reflexivity.
  - cbn [fst snd].
    rewrite (parseLoop_last s3 v3 _ _ _ H3).
    cbn [ps_aVals ps_aOps ps_fError].
    unfold evalExpression. cbn [JS.or_default].
    rewrite evalLoop_step by discriminate.
    destruct (binop32 c2 v2 v3) as [x|]; [|reflexivity].
    rewrite evalLoop_step by discriminate.
    destruct (binop32 c1 v1 x) as [y|]; [|reflexivity].
    rewrite evalLoop_done. reflexivity.
Qed.

(** An expression is an operand, or an operand, an operator and an
    expression. *)
Lemma expression_cases sExp :
  noBinOp sExp = true
  \/ exists s c r, sExp = s ++ String c r /\ noBinOp s = true /\ isBinOp c = true.
Proof.
  induction sExp as [|c0 s0 IH]; [left; reflexivity|].
  destruct (isBinOp c0) eqn:Hc.
  - right. exists "", c0, s0. auto.
  - destruct IH as [H|(s & c & r & -> & Hs & Hc')].
    + left. cbn. rewrite Hc, H. reflexivity.
    + right. exists (String c0 s), c, r. cbn. rewrite Hc, Hs. auto.
Qed.

Lemma length_operator s c r :
  (String.length r < String.length (s ++ String c r))%nat.
Proof. induction s as [|c0 s IH]; cbn; lia. Qed.

(** *** The reading with one operation applied at a time *)

Lemma operatorsOf_operand s : noBinOp s = true -> operatorsOf s = [].
Proof.
  induction s as [|c s IH]; intros H; [reflexivity|].
  cbn in H. apply Bool.andb_true_iff in H. destruct H as [Hc Hs].
  cbn. destruct (isBinOp c); [discriminate|]. apply IH. exact Hs.
Qed.

Lemma operatorsOf_app s c r :
  noBinOp s = true -> isBinOp c = true ->
  operatorsOf (s ++ String c r) = c :: operatorsOf r.
Proof.
  intros Hs Hc. induction s as [|c0 s IH].
  - cbn. rewrite Hc. reflexivity.
  - cbn in Hs. apply Bool.andb_true_iff in Hs. destruct Hs as [Hc0 Hs].
    cbn. destruct (isBinOp c0); [discriminate|]. apply IH. exact Hs.
Qed.

Lemma operandValues_cons s l v vs :
  noBinOp s = true ->
  operandValues parseValue (s :: l) = Some (v :: vs) ->
  Operand parseValue s v /\ operandValues parseValue l = Some vs.
Proof.
  intros Hs H. cbn [operandValues] in H. unfold Operand.
  destruct (trim str s) as [|t0 ts] eqn:E; [discriminate|].
  destruct (parseValue (String t0 ts)) as [v0|]; [|discriminate].
  destruct (operandValues parseValue l) as [vs0|]; [|discriminate].
  injection H as -> ->. repeat split; [exact Hs|discriminate].
Qed.

(** The final [evalExpression] applies the operations waiting, from the
    top of the stacks. *)
Lemma evalLoop_applyPending : forall pending v cOps r,
  cOps < 0 ->
  applyPending pending v = Some r ->
  evalLoop (v :: List.map fst pending) (List.map snd pending) cOps = (true, [r], []).
Proof.
  induction pending as [|[u op] pending IH]; intros v cOps r Hc H.
  - cbn in H. injection H as <-. apply evalLoop_done.
  - cbn [applyPending] in H. cbn [List.map fst snd].
    rewrite evalLoop_step by lia.
    destruct (binop32 op u v) as [x|]; [|discriminate].
    apply IH; [lia|exact H].
Qed.

(** The loop of [parseExpression] keeps on its stacks the operations
    waiting, and the final evaluation gives the value. *)
Lemma parseLoop_onePending : forall n sExp pending v vs r,
  (String.length sExp <= n)%nat ->
  operandValues parseValue (split sExp) = Some (v :: vs) ->
  onePending pending v (List.combine (operatorsOf sExp) vs) = Some r ->
  let st := parseLoop parseValue (split sExp) sExp
                      (List.map fst pending) (List.map snd pending) in
  ps_fError st = false
  /\ evalExpression (ps_aVals st) (ps_aOps st) None = (true, [r], []).
Proof.
  induction n as [|n IH]; intros sExp pending v vs r Hn Hv Hr; cbv zeta;
    (destruct (expression_cases sExp) as [H|(s & c & r' & -> & Hs & Hc)];
     [rewrite (split_operand _ H) in *;
      destruct (operandValues_cons _ _ _ _ H Hv) as [Ho Hvs];
      rewrite (operatorsOf_operand _ H) in Hr; cbn [List.combine onePending] in Hr;
      rewrite (parseLoop_last sExp v [] _ _ Ho);
      cbn [ps_fError ps_aVals ps_aOps]; split; [reflexivity|];
      unfold evalExpression; cbn [JS.or_default];
      apply evalLoop_applyPending; [lia|exact Hr]
     |]).
  - pose proof (length_operator s c r'). lia.
  - rewrite (split_app s c r' Hs Hc) in *.
    destruct (operandValues_cons _ _ _ _ Hs Hv) as [Ho Hvs].
    rewrite (operatorsOf_app s c r' Hs Hc) in Hr.
    rewrite (parseLoop_operand s v c r' _ _ _ Ho).
    destruct vs as [|w ws].
    { destruct (split r') eqn:Es; [destruct r'; cbn in Es; try discriminate;
                                   destruct (isBinOp a); [discriminate|];
                                   destruct (split r'); discriminate|].
      cbn [operandValues] in Hvs. destruct (trim str s0); [discriminate|].
      destruct (parseValue _); [|discriminate].
      destruct (operandValues parseValue l); discriminate. }
    cbn [List.combine onePending] in Hr.
    assert (Hl : (String.length r' <= n)%nat)
      by (pose proof (length_operator s c r'); lia).
    destruct pending as [|[u top] pending].
    + cbn [List.map reduceIfLower fst snd].
      exact (IH r' [(v, c)] w ws r Hl Hvs Hr).
    + cbn [List.map fst snd]. unfold reduceIfLower.
      destruct (lt_opt (aBinOpPrecedence c) (aBinOpPrecedence top)).
      * unfold evalExpression. cbn [JS.or_default].
        change (if JS.truthy 1 then 1 else -1) with 1.
        rewrite !evalLoop_step by discriminate.
        destruct (binop32 top u v) as [x|]; [|discriminate].
        change (1 - 1) with 0. rewrite !evalLoop_stop. cbn [fst snd].
        exact (IH r' ((x, c) :: pending) w ws r Hl Hvs Hr).
      * cbn [fst snd].
        exact (IH r' ((v, c) :: (u, top) :: pending) w ws r Hl Hvs Hr).
Qed.

Lemma parseExpression_onePending sExp v fPrint :
  pendingValue parseValue sExp = Some v ->
  fst (parseExpression parseValue sExp fPrint) = Some v.
Proof.
  unfold pendingValue. intros H.
  destruct (operandValues parseValue (split sExp)) as [[|v0 vs]|] eqn:Hv;
    try discriminate.
  destruct (parseLoop_onePending (String.length sExp) sExp [] v0 vs v (le_n _) Hv H)
    as [Hf He].
  cbn [List.map] in Hf, He. unfold parseExpression. rewrite He, Hf.
  destruct fPrint; reflexivity.
Qed.

(** C7, as amended.  Whenever the reading that applies one operation at a
    time gives an expression a value, [parseExpression] returns that value:
    going from left to right over the fixed precedence table, an incoming
    operator of strictly lower precedence than the last operation waiting
    has that one operation applied, and the operations still waiting at the
    end are applied from the last to the first.  So in an expression with
    two operators the one of higher precedence binds tighter, and two
    operators of equal precedence group to the right; in particular "4+4*2"
    evaluates to 12. *)
Theorem parseExpression_precedence :
  (forall sExp v fPrint,
      pendingValue parseValue sExp = Some v ->
      fst (parseExpression parseValue sExp fPrint) = Some v)
  /\ (forall s1 c1 s2 c2 s3 v1 v2 v3,
      Operand parseValue s1 v1 -> Operand parseValue s2 v2 ->
      Operand parseValue s3 v3 -> isBinOp c1 = true -> isBinOp c2 = true ->
      fst (parseExpression parseValue (s1 ++ String c1 (s2 ++ String c2 s3)) false)
      = if lt_opt (aBinOpPrecedence c2) (aBinOpPrecedence c1)
        then match binop32 c1 v1 v2 with
             | Some x => binop32 c2 x v3
             | None => None
             end
        else match binop32 c2 v2 v3 with
             | Some x => binop32 c1 v1 x
             | None => None
             end)
  /\ (Operand parseValue "4" 4 -> Operand parseValue "2" 2 ->
      fst (parseExpression parseValue "4+4*2" false) = Some 12).
Proof.
  split; [exact parseExpression_onePending|].
  split.
  - intros. apply parseExpression_two; assumption.
  - intros H4 H2.
    change "4+4*2" with ("4" ++ String "+"%char ("4" ++ String "*"%char "2")).
    rewrite (parseExpression_two "4" "+"%char "4" "*"%char "2" 4 4 2 H4 H4 H2);
      reflexivity.
Qed.

End ExpressionFacts.

(** ** The instruction decoder *)

Section DecoderFacts.

Context {env : Env}.
Variable g : Debugger.

Lemma getSegment_default s fP :
  getSegment g s (Some (match fP with Some b => b | None => getProtMode g end))
  = getSegment g s fP.
Proof. destruct fP; reflexivity. Qed.

(** A read through an address that resolves. *)
Lemma getByte_valid d inc :
  fst (getAddr g d false (Some 1)) <> ADDR_INVALID x86 ->
  getByte g d inc
  = (JS.bor (probeAddr (cpu g) (fst (getAddr g d false (Some 1)))) 0,
     if JS.truthy inc then incAddr g (snd (getAddr g d false (Some 1))) inc
     else snd (getAddr g d false (Some 1))).
Proof.
  intros H. unfold getByte. destruct (getAddr g d false (Some 1)) as [a d'].
  cbn [fst snd] in *. destruct (Z.eqb_spec a (ADDR_INVALID x86)); [contradiction|].
  reflexivity.
Qed.

Lemma getShort_valid d inc :
  fst (getAddr g d false (Some 2)) <> ADDR_INVALID x86 ->
  getShort g d inc
  = (JS.bor (probeAddr (cpu g) (fst (getAddr g d false (Some 2))))
            (JS.shl (probeAddr (cpu g) (fst (getAddr g d false (Some 2)) + 1)) 8),
     if JS.truthy inc then incAddr g (snd (getAddr g d false (Some 2))) inc
     else snd (getAddr g d false (Some 2))).
Proof.
  intros H. unfold getShort. destruct (getAddr g d false (Some 2)) as [a d'].
  cbn [fst snd] in *. destruct (Z.eqb_spec a (ADDR_INVALID x86)); [contradiction|].
  reflexivity.
Qed.

(** Advancing inside the segment: no wrap. *)
Lemma incAddr_inside d seg s a inc :
  inc <> 0 -> addr d = Some a -> sel d = Some s ->
  getSegment g (Some s) (fProt d) = Some seg ->
  JS.band (off d + inc) (addrMask seg) = off d + inc ->
  JS.shr (off d + inc) 0 < offMax seg ->
  incAddr g d inc = set_off (set_addr d (Some (a + inc))) (off d + inc).
Proof.
  intros Hinc Ha Hs Hseg Hmask Hmax. unfold incAddr, JS.truthy.
  destruct (Z.eqb_spec inc 0); [contradiction|]. cbn [negb].
  rewrite Ha. cbn [sel set_addr]. rewrite Hs.
  unfold checkLimit. cbn [sel set_off set_addr fProt off]. rewrite Hs, Hseg.
  rewrite Hmask.
  destruct (Z.leb_spec (offMax seg) (JS.shr (off d + inc) 0)); [lia|].
  destruct d; reflexivity.
Qed.

(** *** The bytes B8 34 12 at 0:0100 *)

Variable seg : Seg.

Hypothesis Hread : checkRead seg 0x100 1 = 0x100.
Hypothesis Hmask : addrMask seg = 0xFFFF.
Hypothesis Hmax : offMax seg = 0x10000.
Hypothesis Hinv : ADDR_INVALID x86 < 0x100 \/ 0x103 < ADDR_INVALID x86.
Hypothesis Hb0 : probeAddr (cpu g) 0x100 = 0xB8.
Hypothesis Hb1 : probeAddr (cpu g) 0x101 = 0x34.
Hypothesis Hb2 : probeAddr (cpu g) 0x102 = 0x12.

Lemma incAddr_at d n inc :
  getSegment g (Some 0) (fProt d) = Some seg ->
  inc <> 0 ->
  JS.band (0x100 + n + inc) 0xFFFF = 0x100 + n + inc ->
  JS.shr (0x100 + n + inc) 0 < 0x10000 ->
  incAddr g (at0100 n d) inc = at0100 (n + inc) d.
Proof.
  intros Hseg Hinc Hm Hx.
  rewrite (incAddr_inside (at0100 n d) seg 0 (0x100 + n) inc Hinc eq_refl eq_refl Hseg).
  - unfold at0100. replace (0x100 + (n + inc)) with (0x100 + n + inc) by lia.
    reflexivity.
  - rewrite Hmask. exact Hm.
  - rewrite Hmax. exact Hx.
Qed.

Lemma getByte_first d :
  getSegment g (Some 0) (fProt d) = Some seg ->
  getByte g (set_addr (set_sel (set_off d 0x100) (Some 0)) None) 1
  = (0xB8, at0100 1 d).
Proof.
  intros Hseg.
  assert (Ha : getAddr g (set_addr (set_sel (set_off d 0x100) (Some 0)) None)
                       false (Some 1) = (0x100, at0100 0 d)).
  { unfold getAddr. cbn [addr sel fProt off set_addr set_sel set_off].
    rewrite Hseg. cbn [negb].
    change (JS.or_default (Some 1) 1) with 1. rewrite Hread. reflexivity. }
  rewrite getByte_valid; rewrite Ha; cbn [fst snd]; [|lia].
  rewrite Hb0. change (JS.truthy 1) with true. cbv iota.
  rewrite (incAddr_at d 0 1 Hseg); [reflexivity|discriminate|reflexivity|reflexivity].
Qed.

Lemma getByte_next d n b :
  getSegment g (Some 0) (fProt d) = Some seg ->
  0 <= n <= 2 ->
  probeAddr (cpu g) (0x100 + n) = b -> 0 <= b < 256 ->
  getByte g (at0100 n d) 1 = (b, at0100 (n + 1) d).
Proof.
  intros Hseg Hn Hb Hr.
  rewrite getByte_valid; cbn [getAddr at0100 addr set_addr fst snd]; [|lia].
  rewrite Hb. change (JS.truthy 1) with true. cbv iota.
  assert (Hor : JS.bor b 0 = b).
  { unfold JS.bor. change (JS.toInt32 0) with 0. rewrite Z.lor_0_r.
    apply toInt32_small. lia. }
  rewrite Hor.
  assert (Hn' : n = 0 \/ n = 1 \/ n = 2) by lia.
  rewrite (incAddr_at d n 1 Hseg); [reflexivity|discriminate| |];
    destruct Hn' as [->|[->| ->]]; reflexivity.
Qed.

Lemma getShort_second d :
  getSegment g (Some 0) (fProt d) = Some seg ->
  getShort g (at0100 1 d) 2 = (0x1234, at0100 3 d).
Proof.
  intros Hseg.
  rewrite getShort_valid; cbn [getAddr at0100 addr set_addr fst snd]; [|lia].
  change (0x100 + 1 + 1) with 0x102. change (0x100 + 1) with 0x101.
  rewrite Hb1, Hb2. change (JS.truthy 2) with true. cbv iota.
  rewrite (incAddr_at d 1 2 Hseg); [reflexivity|discriminate|reflexivity|reflexivity].
Qed.

Hypothesis Hos : OPCODE_OS x86 <> 0xB8.
Hypothesis Has : OPCODE_AS x86 <> 0xB8.
Hypothesis Hstr : isStringIns 0xB8 = false.
Hypothesis Htab : js_index (aaOpDescs g) 0xB8 = js_index Debugger_aaOpDescs 0xB8.
Hypothesis Hhex : toHex str (Some 0x1234) (Some 4) = "1234".

Lemma prefixLoop_none cMax b fd fa d :
  b <> OPCODE_OS x86 -> b <> OPCODE_AS x86 ->
  prefixLoop g cMax b fd fa d = ((b, fd, fa), d).
Proof.
  intros H1 H2. destruct cMax; cbn [prefixLoop];
    destruct (Z.eqb_spec b (OPCODE_OS x86)); try contradiction;
    destruct (Z.eqb_spec b (OPCODE_AS x86)); try contradiction; reflexivity.
Qed.

Lemma opDesc_B8 : js_index Debugger_aaOpDescs 0xB8
                  = Some [INS.MOV; TYPE_AX .| TYPE_OUT; TYPE_IMM .| TYPE_VWORD .| TYPE_IN].
Proof. reflexivity. Qed.

Ltac eval_if :=
  match goal with
  | |- context [if ?c then _ else _] =>
    let v := eval vm_compute in c in
    lazymatch v with
    | true => change c with true
    | false => change c with false
    end; cbv beta iota zeta delta [bind ret gets modify]
  end.

Ltac glue := cbv beta iota zeta delta [bind ret gets modify].

Lemma getOperand_AX d :
  fData32 d = false ->
  getOperand g (TYPE_AX .| TYPE_OUT) 2 (mkOperandState (-1) None true "") (at0100 1 d)
  = ((mkOperandState (-1) (Some 0) true "", Some (Some "AX")), at0100 1 d).
Proof.
  intros Hd32. unfold getOperand. glue. repeat eval_if.
  unfold getRegOperand. repeat eval_if.
  change (fData32 (at0100 1 d)) with (fData32 d). rewrite Hd32.
  reflexivity.
Qed.

Lemma getOperand_imm16 d st :
  getSegment g (Some 0) (fProt d) = Some seg ->
  fData32 d = false -> os_typeCPU st = Some 0 ->
  getOperand g (TYPE_IMM .| TYPE_VWORD .| TYPE_IN) 2 st (at0100 1 d)
  = ((st, Some (Some (toHex str (Some 0x1234) (Some 4)))), at0100 3 d).
Proof.
  intros Hseg Hd32 Hst. unfold getOperand. rewrite Hst. glue. repeat eval_if.
  unfold getImmOperand. repeat eval_if.
  change (fData32 (at0100 1 d)) with (fData32 d). rewrite Hd32.
  unfold readShort. repeat eval_if.
  rewrite (getShort_second d Hseg). reflexivity.
Qed.

Lemma operandLoop_B8 d :
  getSegment g (Some 0) (fProt d) = Some seg ->
  fData32 d = false ->
  operandLoop g [TYPE_AX .| TYPE_OUT; TYPE_IMM .| TYPE_VWORD .| TYPE_IN] 2
              (mkOperandState (-1) None true "") (at0100 1 d)
  = (mkOperandState (-1) (Some 0) true "AX,1234", at0100 3 d).
Proof.
  intros Hseg Hd32. cbn [operandLoop]. glue.
  rewrite (getOperand_AX d Hd32). cbv beta iota.
  cbn [os_sOperands os_bModRM os_typeCPU os_fNonPrefix nonEmpty].
  erewrite getOperand_imm16; [|exact Hseg|exact Hd32|reflexivity].
  cbv beta iota. rewrite Hhex. reflexivity.
Qed.

Lemma decode_B8 d :
  getSegment g (Some 0) (fProt d) = Some seg ->
  fData32 d = false ->
  decode g (set_addr (set_sel (set_off d 0x100) (Some 0)) None)
  = (mkDecoded "MOV" "AX,1234" (Some 0) true 0, at0100 3 d).
Proof.
  intros Hseg Hd32. unfold decode, readByte. glue.
  rewrite (getByte_first d Hseg).
  rewrite prefixLoop_none by congruence.
  unfold opDesc_at. rewrite !Htab, !opDesc_B8.
  eval_if. eval_if.
  change (fData32 (at0100 1 d)) with (fData32 d). rewrite Hd32, Hstr.
  cbn [andb].
  change (Z.of_nat (List.length [INS.MOV; TYPE_AX .| TYPE_OUT;
                                 TYPE_IMM .| TYPE_VWORD .| TYPE_IN]) - 1) with 2.
  change (List.firstn (Z.to_nat 2)
            (List.tl [INS.MOV; TYPE_AX .| TYPE_OUT; TYPE_IMM .| TYPE_VWORD .| TYPE_IN]))
    with [TYPE_AX .| TYPE_OUT; TYPE_IMM .| TYPE_VWORD .| TYPE_IN].
  rewrite (operandLoop_B8 d Hseg Hd32). reflexivity.
Qed.

Hypothesis Hmodel : 8086 <= model (cpu g).

Lemma bytesLoop_B8 fuel d :
  getSegment g (Some 0) (fProt d) = Some seg ->
  bytesLoop g (S (S (S fuel))) (set_addr (set_sel (set_off d 0x100) (Some 0)) None)
            (Some 0x103) ""
  = Some ((toHex str (Some 0xB8) (Some 2) ++ toHex str (Some 0x34) (Some 2))
          ++ toHex str (Some 0x12) (Some 2), at0100 3 d).
Proof.
  intros Hseg. cbn [bytesLoop].
  rewrite (getByte_first d Hseg). cbv beta iota.
  change (JS.eq_opt (addr (at0100 1 d)) (Some 259)) with false. cbv iota.
  rewrite (getByte_next d 1 0x34 Hseg); [|lia|exact Hb1|lia]. cbv beta iota.
  change (JS.eq_opt (addr (at0100 (1 + 1) d)) (Some 259)) with false. cbv iota.
  rewrite (getByte_next d (1 + 1) 0x12 Hseg); [|lia|exact Hb2|lia]. cbv beta iota.
  change (JS.eq_opt (addr (at0100 (1 + 1 + 1) d)) (Some 259)) with true. cbv iota.
  reflexivity.
Qed.

Lemma getInstruction_B8 fuel d nSequence :
  getSegment g (Some 0) (fProt d) = Some seg ->
  fData32 d = false ->
  getInstruction g (S (S (S fuel)))
                 (set_addr (set_sel (set_off d 0x100) (Some 0)) None) None nSequence
  = Some (movLine g d, initAddrSize g (at0100 3 d) true 0).
Proof.
  intros Hseg Hd32. unfold getInstruction, movLine.
  rewrite (decode_B8 d Hseg Hd32).
  cbn [dc_typeCPU dc_sOpcode dc_sOperands dc_fNonPrefix dc_cOverrides nonEmpty].
  set (dI := newAddr g None None None (fProt d) None None).
  change (newAddr g _ _ _ _ None None)
    with (set_addr (set_sel (set_off dI 0x100) (Some 0)) None).
  assert (HsegI : getSegment g (Some 0) (fProt dI) = Some seg).
  { subst dI. cbn [newAddr fProt]. rewrite getSegment_default. exact Hseg. }
  change (JS.eq_opt (addr (set_addr (set_sel (set_off dI 256) (Some 0)) None))
                    (Some (ADDR_INVALID x86))) with false.
  change (JS.eq_opt (addr (at0100 3 d)) (Some (ADDR_INVALID x86)))
    with (259 =? ADDR_INVALID x86).
  destruct (Z.eqb_spec 259 (ADDR_INVALID x86)) as [E|_]; [lia|].
  cbn [negb andb].
  change (addr (at0100 3 d)) with (Some 0x103).
  rewrite (bytesLoop_B8 fuel dI HsegI).
  change (js_index CPUS 0) with (Some 8086). cbv beta iota.
  destruct (Z.ltb_spec (model (cpu g)) 8086) as [E|_]; [lia|].
  reflexivity.
Qed.

End DecoderFacts.

(** C1.  Decoding the bytes B8 34 12 at the segmented address 0:0100 with a
    16-bit operand size gives the mnemonic MOV and the operands AX,1234, and
    [getInstruction], given fuel for the three bytes it reads again, returns
    the line made of them and leaves the address 3 bytes further. *)
Theorem getInstruction_mov_ax_1234 {env : Env} (g : Debugger) (seg : Seg) (d : DbgAddr)
        (fuel : nat) (nSequence : option Z) :
  MovScenario g seg d -> (3 <= fuel)%nat ->
  dc_sOpcode (fst (decode g d)) = "MOV"
  /\ dc_sOperands (fst (decode g d)) = "AX,1234"
  /\ exists d',
      getInstruction g fuel d None nSequence = Some (movLine g d, d')
      /\ off d' = off d + 3 /\ sel d' = sel d /\ addr d' = Some (0x100 + 3).
Proof.
  intros ((Hoff & Hsel & Haddr & Hd32) & (Hseg & Hread & Hmask & Hmax & Hinv)
          & (Hb0 & Hb1 & Hb2) & (Hos & Has & Hstr & Htab & Hhex & Hmodel)) Hfuel.
  assert (Hd : d = set_addr (set_sel (set_off d 0x100) (Some 0)) None).
  { destruct d; cbn in *; subst; reflexivity. }
  pose proof (decode_B8 g seg Hread Hmask Hmax Hinv Hb0 Hb1 Hb2 Hos Has Hstr Htab Hhex
                        d Hseg Hd32) as Hdec.
  rewrite <- Hd in Hdec.
  split; [rewrite Hdec; reflexivity|]. split; [rewrite Hdec; reflexivity|].
  exists (initAddrSize g (at0100 3 d) true 0).
  destruct fuel as [|[|[|fuel]]]; try lia.
  split.
  - rewrite Hd at 1.
    apply (getInstruction_B8 g seg Hread Hmask Hmax Hinv Hb0 Hb1 Hb2 Hos Has Hstr Htab
                             Hhex Hmodel fuel d nSequence Hseg Hd32).
  - rewrite Hoff, Hsel. repeat split; reflexivity.
Qed.

(** ** The address cache, increments and composed reads *)

Section MemoryUnitFacts.

Context {env : Env}.

(** X1.  Once [getAddr] has resolved an address (it was cached already, or
    a segment was found), the address object carries the result: a later
    [getAddr] on it returns the same linear address and leaves the object
    alone, whatever the state of the debugger then, and whether it asks
    for a read or a write check, for one byte or several. *)
Theorem getAddr_cached (g g' : Debugger) (d : DbgAddr) (fWrite fWrite' : bool)
        (nb nb' : option Z) :
  addr d <> None \/ getSegment g (sel d) (fProt d) <> None ->
  getAddr g' (snd (getAddr g d fWrite nb)) fWrite' nb' = getAddr g d fWrite nb.
Proof.
  intros H. unfold getAddr at 2 3. destruct (addr d) eqn:Ha.
  - cbn [snd]. unfold getAddr. rewrite Ha. reflexivity.
  - destruct H as [H|H]; [congruence|].
    destruct (getSegment g (sel d) (fProt d)); [|congruence].
    cbn [snd]. reflexivity.
Qed.

Lemma shr_zero : JS.shr 0 0 = 0.
Proof. reflexivity. Qed.

(** X2.  [incAddr] keeps a segmented address inside its segment: the
    selector stays, and the new offset, read as an unsigned number, is
    below the segment's [offMax].  Either the offset is the old one plus
    the increment (1 when none is given), masked, and the cached linear
    address moved by as much; or the offset has wrapped to zero and the
    cache is dropped. *)
Theorem incAddr_within_segment (g : Debugger) (d : DbgAddr) (s : Z) (seg : Seg) (inc : Z) :
  sel d = Some s ->
  getSegment g (sel d) (fProt d) = Some seg ->
  0 < offMax seg ->
  let step := if inc =? 0 then 1 else inc in
  let d' := incAddr g d inc in
  sel d' = Some s
  /\ JS.shr (off d') 0 < offMax seg
  /\ ((off d' = JS.band (off d + step) (addrMask seg)
       /\ addr d' = option_map (fun a => a + step) (addr d))
      \/ (offMax seg <= JS.shr (JS.band (off d + step) (addrMask seg)) 0
          /\ off d' = 0 /\ addr d' = None)).
Proof.
  intros Hs Hseg Hmax step d'. subst d'. unfold incAddr, JS.truthy.
  fold step.
  replace (if negb (inc =? 0) then inc else 1) with step
    by (unfold step; destruct (inc =? 0); reflexivity).
  assert (E : sel (match addr d with
                   | Some a => set_addr d (Some (a + step))
                   | None => d
                   end) = Some s) by (destruct (addr d); exact Hs).
  rewrite E. unfold checkLimit. cbn [sel set_off fProt].
  assert (Ep : fProt (match addr d with
                      | Some a => set_addr d (Some (a + step))
                      | None => d
                      end) = fProt d) by (destruct (addr d); reflexivity).
  rewrite E, Ep, <- Hs, Hseg. cbn [off set_off].
  assert (Eo : off (match addr d with
                    | Some a => set_addr d (Some (a + step))
                    | None => d
                    end) = off d) by (destruct (addr d); reflexivity).
  rewrite Eo.
  destruct (Z.leb_spec (offMax seg) (JS.shr (JS.band (off d + step) (addrMask seg)) 0)).
  - cbn [sel set_addr set_off off addr]. rewrite E.
    split; [rewrite <- Hs; reflexivity|]. rewrite shr_zero.
    split; [exact Hmax|]. right. auto.
  - cbn [sel set_addr set_off off addr]. rewrite E.
    split; [rewrite <- Hs; reflexivity|].
    split; [assumption|]. left. split; [reflexivity|].
    destruct (addr d) eqn:Ha; cbn [addr set_addr option_map]; [reflexivity|exact Ha].
Qed.

Lemma bor_zero x : JS.bor x 0 = JS.toInt32 x.
Proof. unfold JS.bor. change (JS.toInt32 0) with 0. apply Z.lor_0_r. Qed.

Lemma bor_toInt32_l x y : JS.bor (JS.toInt32 x) y = JS.bor x y.
Proof. unfold JS.bor. rewrite toInt32_idem. reflexivity. Qed.

Lemma bor_toInt32_r x y : JS.bor x (JS.toInt32 y) = JS.bor x y.
Proof. unfold JS.bor. rewrite toInt32_idem. reflexivity. Qed.

Lemma shl_toInt32 x n : JS.shl (JS.toInt32 x) n = JS.shl x n.
Proof. unfold JS.shl. rewrite toInt32_idem. reflexivity. Qed.

Lemma toInt32_shl x n : JS.toInt32 (JS.shl x n) = JS.shl x n.
Proof. unfold JS.shl. apply toInt32_idem. Qed.

Lemma getByte_linear g d a inc :
  addr d = Some a -> a <> ADDR_INVALID x86 ->
  getByte g d inc
  = (JS.toInt32 (probeAddr (cpu g) a), if JS.truthy inc then incAddr g d inc else d).
Proof.
  intros Ha Hv. unfold getByte, getAddr. rewrite Ha.
  destruct (Z.eqb_spec a (ADDR_INVALID x86)); [contradiction|].
  cbn [negb]. rewrite bor_zero. reflexivity.
Qed.

Lemma incAddr_linear g d a inc :
  sel d = None -> addr d = Some a -> inc <> 0 ->
  incAddr g d inc = set_addr d (Some (a + inc)).
Proof.
  intros Hs Ha Hi. unfold incAddr, JS.truthy.
  destruct (Z.eqb_spec inc 0); [contradiction|]. cbn [negb].
  rewrite Ha. cbn [sel set_addr]. rewrite Hs. reflexivity.
Qed.

(** X3.  At a linear address, a 16-bit read is two byte reads and a 32-bit
    read four, the low byte first: the values combine as
    [b0 | b1 << 8 | b2 << 16 | b3 << 24], and the address ends where the
    byte reads leave it. *)
Theorem getShort_getLong_little_endian (g : Debugger) (d : DbgAddr) (a : Z) :
  sel d = None -> addr d = Some a ->
  (forall i, 0 <= i < 4 -> a + i <> ADDR_INVALID x86) ->
  let '(b0, d1) := getByte g d 1 in
  let '(b1, d2) := getByte g d1 1 in
  let '(b2, d3) := getByte g d2 1 in
  let '(b3, d4) := getByte g d3 1 in
  getShort g d 2 = (JS.bor b0 (JS.shl b1 8), d2)
  /\ getLong g d 4
     = (JS.bor (JS.bor (JS.bor b0 (JS.shl b1 8)) (JS.shl b2 16)) (JS.shl b3 24), d4).
Proof.
  intros Hs Ha Hv.
  assert (H0 : a <> ADDR_INVALID x86) by (specialize (Hv 0); rewrite Z.add_0_r in Hv; apply Hv; lia).
  assert (St : forall e x, sel e = None -> addr e = Some x -> x <> ADDR_INVALID x86 ->
               getByte g e 1 = (JS.toInt32 (probeAddr (cpu g) x), set_addr e (Some (x + 1)))).
  { intros e x Hse Hae Hx. rewrite (getByte_linear g e x 1 Hae Hx).
    cbn [JS.truthy Z.eqb negb]. rewrite (incAddr_linear g e x 1 Hse Hae) by discriminate.
    reflexivity. }
  rewrite (St d a Hs Ha H0).
  rewrite (St (set_addr d (Some (a + 1))) (a + 1) Hs eq_refl) by (apply Hv; lia).
  rewrite (St (set_addr (set_addr d (Some (a + 1))) (Some (a + 1 + 1))) (a + 1 + 1) Hs eq_refl)
    by (replace (a + 1 + 1) with (a + 2) by lia; apply Hv; lia).
  rewrite (St (set_addr (set_addr (set_addr d (Some (a + 1))) (Some (a + 1 + 1)))
                        (Some (a + 1 + 1 + 1))) (a + 1 + 1 + 1) Hs eq_refl)
    by (replace (a + 1 + 1 + 1) with (a + 3) by lia; apply Hv; lia).
  split.
  - unfold getShort, getAddr. rewrite Ha.
    destruct (Z.eqb_spec a (ADDR_INVALID x86)); [contradiction|].
    cbn [negb JS.truthy Z.eqb].
    rewrite (incAddr_linear g d a 2 Hs Ha) by discriminate.
    rewrite bor_toInt32_l, shl_toInt32.
    replace (a + 1 + 1) with (a + 2) by lia. reflexivity.
  - unfold getLong, getAddr. rewrite Ha.
    destruct (Z.eqb_spec a (ADDR_INVALID x86)); [contradiction|].
    cbn [negb JS.truthy Z.eqb].
    rewrite (incAddr_linear g d a 4 Hs Ha) by discriminate.
    rewrite bor_toInt32_l, !shl_toInt32.
    replace (a + 1 + 1 + 1 + 1) with (a + 4) by lia.
    replace (a + 1 + 1 + 1) with (a + 3) by lia.
    replace (a + 1 + 1) with (a + 2) by lia. reflexivity.
Qed.

(** X4.  [unpackAddr] undoes [packAddr] except for the mode: the array
    has no place for [fProt], so the address that comes back is the one
    saved with [fProt] undefined, and it is the same address exactly when
    it had no [fProt].  In the other direction nothing is lost. *)
Theorem unpackAddr_packAddr (d : DbgAddr) (p : PackedAddr) :
  unpackAddr (packAddr d) = set_fProt d None
  /\ (unpackAddr (packAddr d) = d <-> fProt d = None)
  /\ packAddr (unpackAddr p) = p.
Proof.
  split; [reflexivity|]. split.
  - split.
    + intros H. rewrite <- H. reflexivity.
    + intros H. destruct d. cbn in *. subst. reflexivity.
  - destruct p. reflexivity.
Qed.

(** X5.  A write is checked for write access only when the address object
    is fresh.  When [getAddr] refuses the write, [setByte] makes no call to
    the CPU and does not advance the address.  But an address object that
    a read has resolved carries its linear address, and a [setByte] through
    it writes there without any check of the segment. *)
Theorem setByte_checks_fresh_address_only (g g' : Debugger) (d : DbgAddr) (b inc : Z) :
  (fst (getAddr g d true (Some 1)) = ADDR_INVALID x86 ->
   fst (setByte g d b inc) = [] /\ notAdvanced d (snd (setByte g d b inc)))
  /\ (fst (getAddr g d false (Some 1)) <> ADDR_INVALID x86 ->
      fst (setByte g' (snd (getByte g d 0)) b inc)
      = [SetByte (fst (getAddr g d false (Some 1))) b; UpdateCPU]).
Proof.
  split.
  - intros H. unfold setByte.
    pose proof (getAddr_invalid_frame g d true (Some 1) H) as F.
    destruct (getAddr g d true (Some 1)) as [a d1]. cbn [fst snd] in *. subst a.
    rewrite Z.eqb_refl. cbn [negb fst snd]. split; [reflexivity|exact F].
  - intros H. rewrite (getByte_valid g d 0 H). cbn [JS.truthy Z.eqb negb snd].
    unfold setByte.
    assert (C : addr d <> None \/ getSegment g (sel d) (fProt d) <> None).
    { revert H. unfold getAddr. destruct (addr d); [left; discriminate|].
      destruct (getSegment g (sel d) (fProt d)); [right; discriminate|].
      cbn [fst]. congruence. }
    rewrite (getAddr_cached g g' d false true (Some 1) (Some 1) C).
    destruct (getAddr g d false (Some 1)) as [a d1]. cbn [fst snd] in *.
    destruct (Z.eqb_spec a (ADDR_INVALID x86)); [contradiction|]. reflexivity.
Qed.

Lemma chars_app s t :
  list_ascii_of_string (s ++ t) = (list_ascii_of_string s ++ list_ascii_of_string t)%list.
Proof. induction s as [|c s IH]; [reflexivity|]. cbn. rewrite IH. reflexivity. Qed.

Lemma length_app s t : String.length (s ++ t) = (String.length s + String.length t)%nat.
Proof. induction s as [|c s IH]; [reflexivity|]. cbn. rewrite IH. reflexivity. Qed.

Lemma printable_length b : String.length (printable b) = 1%nat.
Proof. unfold printable. destruct ((32 <=? b) && (b <? 128)); reflexivity. Qed.

Lemma printable_plain b :
  b <> 0x24 -> List.Forall plainChar (list_ascii_of_string (printable b)).
Proof.
  intros Hb. unfold printable.
  assert (Hdot : plainChar "."%char).
  { split; [change (nat_of_ascii ".") with 46%nat; lia|discriminate]. }
  destruct ((32 <=? b) && (b <? 128)) eqn:E.
  - apply andb_true_iff in E. destruct E as [E1 E2].
    apply Z.leb_le in E1. apply Z.ltb_lt in E2.
    constructor; [|constructor]. split.
    + rewrite nat_ascii_embedding by lia. lia.
    + intros E. apply (f_equal nat_of_ascii) in E.
      rewrite nat_ascii_embedding in E by lia.
      change (nat_of_ascii "$") with 36%nat in E. lia.
  - constructor; [exact Hdot|constructor].
Qed.

Lemma getSZ_loop_plain g n : forall d s,
  List.Forall plainChar (list_ascii_of_string s) ->
  List.Forall plainChar (list_ascii_of_string (fst (getSZ_loop g n d s)))
  /\ (String.length (fst (getSZ_loop g n d s)) <= String.length s + n)%nat.
Proof.
  induction n as [|n IH]; intros d s Hs; cbn [getSZ_loop].
  - split; [exact Hs|cbn; lia].
  - destruct (getByte g d 1) as [b d1].
    destruct (negb (JS.truthy b)) eqn:Hz; cbn [orb].
    + split; [exact Hs|cbn; lia].
    + destruct (Z.eqb_spec b 0x24) as [|Hne].
      * split; [exact Hs|cbn; lia].
      * destruct (IH d1 (s ++ printable b)) as [H1 H2].
        { rewrite chars_app. apply List.Forall_app. split; [exact Hs|].
          apply printable_plain. exact Hne. }
        split; [exact H1|]. rewrite length_app, printable_length in H2. lia.
Qed.

(** X6.  The string [getSZ] returns has at most [cchMax] characters (256
    when no maximum, or zero, is given), and every one of them is a
    printable ASCII character other than the dollar sign: the terminators
    are left out and any other byte is shown as a full stop. *)
Theorem getSZ_plain (g : Debugger) (d : DbgAddr) (cchMax : option Z) :
  (String.length (fst (getSZ g d cchMax)) <= Z.to_nat (JS.or_default cchMax 256))%nat
  /\ List.Forall plainChar (list_ascii_of_string (fst (getSZ g d cchMax))).
Proof.
  unfold getSZ.
  destruct (getSZ_loop_plain g (Z.to_nat (JS.or_default cchMax 256)) d ""
                             (List.Forall_nil _)) as [H1 H2].
  split; [exact H2|exact H1].
Qed.

Lemma getAddr_invalid_fix g d fWrite nb :
  fst (getAddr g d fWrite nb) = ADDR_INVALID x86 ->
  getAddr g (snd (getAddr g d fWrite nb)) fWrite nb
  = (ADDR_INVALID x86, snd (getAddr g d fWrite nb)).
Proof.
  intros H. destruct (getAddr_cache g d fWrite nb) as [C|(Ha & Hg & E)].
  - remember (getAddr g d fWrite nb) as X eqn:EX.
    unfold getAddr. rewrite C, H. reflexivity.
  - rewrite E. cbn [snd]. exact E.
Qed.

Lemma dots_app n : dots n ++ "." = dots (S n).
Proof. induction n as [|n IH]; [reflexivity|]. cbn [dots append]. rewrite IH. reflexivity. Qed.

Lemma getSZ_loop_fix g n : forall d s,
  getAddr g d false (Some 1) = (ADDR_INVALID x86, d) ->
  getSZ_loop g n d s = (s ++ dots n, d).
Proof.
  induction n as [|n IH]; intros d s H; cbn [getSZ_loop].
  - cbn [dots]. f_equal. induction s as [|c s IHs]; [reflexivity|]. cbn. congruence.
  - rewrite getByte_invalid by (rewrite H; reflexivity). rewrite H. cbn [snd].
    change (negb (JS.truthy 255) || (255 =? 36)) with false. cbv iota.
    rewrite (IH d _ H). f_equal. change (printable 255) with ".".
    rewrite <- dots_app.
    clear. induction s as [|c s IHs].
    + cbn [append]. induction n as [|n IHn]; [reflexivity|].
      cbn [dots append]. rewrite <- IHn. reflexivity.
    + cbn [append]. f_equal. exact IHs.
Qed.

(** X7.  At an address that does not resolve for a one-byte read, [getSZ]
    returns a string of full stops, as many as the maximum (256 when none
    is given): the value 0xFF that every failed read returns is neither a
    terminator nor printable.  The address is not advanced. *)
Theorem getSZ_unreadable (g : Debugger) (d : DbgAddr) (cchMax : option Z) :
  fst (getAddr g d false (Some 1)) = ADDR_INVALID x86 ->
  fst (getSZ g d cchMax) = dots (Z.to_nat (JS.or_default cchMax 256))
  /\ notAdvanced d (snd (getSZ g d cchMax)).
Proof.
  intros H. unfold getSZ.
  destruct (Z.to_nat (JS.or_default cchMax 256)) as [|n] eqn:En.
  - cbn. split; [reflexivity|]. unfold notAdvanced. auto.
  - cbn [getSZ_loop]. rewrite (getByte_invalid g d 1 H).
    change (negb (JS.truthy 255) || (255 =? 36)) with false. cbv iota.
    rewrite (getSZ_loop_fix g n _ _ (getAddr_invalid_fix g d false (Some 1) H)).
    cbn [fst snd]. split.
    + reflexivity.
    + exact (getAddr_invalid_frame g d false (Some 1) H).
Qed.

End MemoryUnitFacts.

(** ** Bookkeeping of the breakpoint arrays *)

Section BreakpointBookkeeping.

Context {env : Env}.

(** *** Frames *)

Lemma resolvesAs_refl g : resolvesAs g g.
Proof. unfold resolvesAs. auto 10. Qed.

Lemma resolvesAs_sameMachine g g' : resolvesAs g g' -> sameMachine g g'.
Proof. unfold resolvesAs, sameMachine. tauto. Qed.

Lemma resolvesAs_trans g1 g2 g3 :
  resolvesAs g1 g2 -> resolvesAs g2 g3 -> resolvesAs g1 g3.
Proof. unfold resolvesAs. intuition congruence. Qed.

Lemma resolvesAs_println g s : resolvesAs g (println g s).
Proof. unfold resolvesAs. cbn. auto 10. Qed.

Lemma resolvesAs_busCall g c : resolvesAs g (busCall g c).
Proof. unfold resolvesAs. cbn. auto 10. Qed.

Lemma resolvesAs_setBreak g k a : resolvesAs g (setBreak g k a).
Proof. unfold resolvesAs. destruct k; cbn; auto 10. Qed.

Lemma resolvesAs_set_history g h i c : resolvesAs g (set_history g h i c).
Proof. unfold resolvesAs. cbn. auto 10. Qed.

Lemma resolvesAs_historyInit g : resolvesAs g (historyInit g).
Proof.
  unfold historyInit.
  destruct (negb (checksEnabled g false)).
  - destruct (negb (isEmpty (aOpcodeHistory g))); unfold resolvesAs; cbn; auto 10.
  - destruct (isEmpty (aOpcodeHistory g));
      match goal with |- context [isEmpty (aaOpcodeCounts ?x)] =>
        destruct (isEmpty (aaOpcodeCounts x)) end;
      unfold resolvesAs; cbn; auto 10.
Qed.

Lemma resolvesAs_getSegment g g' s fP :
  resolvesAs g g' -> getSegment g' s fP = getSegment g s fP.
Proof.
  intros (Hc & Hs & _ & Hn & _). unfold getSegment, getProtMode.
  rewrite Hc, Hs, Hn. reflexivity.
Qed.

Lemma resolvesAs_getAddr g g' d fWrite nb :
  resolvesAs g g' -> getAddr g' d fWrite nb = getAddr g d fWrite nb.
Proof.
  intros H. unfold getAddr. rewrite (resolvesAs_getSegment g g' _ _ H). reflexivity.
Qed.

Lemma resolvesAs_mapBreakpoint g g' a :
  resolvesAs g g' -> mapBreakpoint g' a = mapBreakpoint g a.
Proof. intros (_ & _ & Hm & _). unfold mapBreakpoint. rewrite Hm. reflexivity. Qed.

Lemma busLog_println g s : busLog (println g s) = busLog g.
Proof. reflexivity. Qed.

Lemma busLog_setBreak g k a : busLog (setBreak g k a) = busLog g.
Proof. destruct k; reflexivity. Qed.

Lemma busLog_historyInit g : busLog (historyInit g) = busLog g.
Proof.
  unfold historyInit.
  destruct (negb (checksEnabled g false)).
  - destruct (negb (isEmpty (aOpcodeHistory g))); reflexivity.
  - destruct (isEmpty (aOpcodeHistory g));
      match goal with |- context [isEmpty (aaOpcodeCounts ?x)] =>
        destruct (isEmpty (aaOpcodeCounts x)) end;
      reflexivity.
Qed.

Lemma getBreak_setBreak_other g k k' a :
  k' <> k -> getBreak (setBreak g k a) k' = getBreak g k'.
Proof. destruct k, k'; intros H; try reflexivity; contradiction. Qed.

(** *** The scan of [findBreakpoint] *)

Lemma scanBreak_length g a d l :
  let '(v, h, r) := scanBreak g a d l in
  (List.length v + (match h with Some _ => 1 | None => 0 end) + List.length r
   = List.length l)%nat
  /\ (h = None -> r = []).
Proof.
  induction l as [|e l IH]; [split; reflexivity|].
  cbn [scanBreak]. destruct (matchBreak g a d e) as [hit e'].
  destruct hit.
  - split; [cbn; lia|discriminate].
  - destruct (scanBreak g a d l) as [[v h] r]. cbn [List.length].
    split; [lia|tauto].
Qed.

Lemma scanBreak_miss g a d l :
  snd (fst (scanBreak g a d l)) = None ->
  List.Forall (fun e => fst (matchBreak g a d e) = false) l.
Proof.
  induction l as [|e l IH]; [constructor|].
  cbn [scanBreak]. destruct (matchBreak g a d e) as [hit e'] eqn:Hm.
  destruct hit; [discriminate|].
  destruct (scanBreak g a d l) as [[v h] r]. cbn [fst snd] in *.
  intros H. constructor; [rewrite Hm; reflexivity|auto].
Qed.

Lemma scanBreak_hit g a d l :
  List.Exists (fun e => fst (matchBreak g a d e) = true) l ->
  snd (fst (scanBreak g a d l)) <> None.
Proof.
  intros H E. apply scanBreak_miss in E.
  apply List.Exists_exists in H. destruct H as (e & Hin & He).
  rewrite List.Forall_forall in E. rewrite (E e Hin) in He. discriminate.
Qed.

(** The three shapes of what [findBreakpoint] returns. *)
Lemma findBreakpoint_cases g k d fRemove :
  let '(a0, d1) := getAddr g d false None in
  let '(v, h, r) := scanBreak g (mapBreakpoint g a0) d1 (entries (getBreak g k)) in
  let g' := snd (fst (findBreakpoint g k d fRemove)) in
  fst (fst (findBreakpoint g k d fRemove)) = (match h with Some _ => true | None => false end)
  /\ resolvesAs g g'
  /\ (forall k', k' <> k -> getBreak g' k' = getBreak g k')
  /\ tag (getBreak g' k) = tag (getBreak g k)
  /\ entries (getBreak g' k)
     = (match h with
        | None => v
        | Some e => if fRemove then v ++ r else v ++ e :: r
        end)%list
  /\ busLog g'
     = (busLog g ++ match h with
                    | Some _ =>
                      if fRemove && negb (isExec k)
                      then [RemoveMemBreak (mapBreakpoint g a0) (isWrite k)] else []
                    | None => []
                    end)%list.
Proof.
  unfold findBreakpoint.
  destruct (getAddr g d false None) as [a0 d1].
  destruct (scanBreak g (mapBreakpoint g a0) d1 (entries (getBreak g k))) as [[v h] r].
  destruct h as [e|].
  - destruct fRemove; cbn [fst snd andb].
    + split; [reflexivity|].
      set (g1 := setBreak g k _).
      set (g2 := if negb (isExec k) then _ else g1).
      set (g3 := if negb (fTempBreak e) then _ else g2).
      assert (S1 : resolvesAs g g1) by apply resolvesAs_setBreak.
      assert (S2 : resolvesAs g1 g2)
        by (subst g2; destruct (negb (isExec k));
            [apply resolvesAs_busCall|apply resolvesAs_refl]).
      assert (S3 : resolvesAs g2 g3)
        by (subst g3; destruct (negb (fTempBreak e));
            [apply resolvesAs_println|apply resolvesAs_refl]).
      assert (B2 : forall k', getBreak g2 k' = getBreak g1 k')
        by (intros k'; subst g2; destruct (negb (isExec k));
            [apply getBreak_busCall|reflexivity]).
      assert (B3 : forall k', getBreak g3 k' = getBreak g2 k')
        by (intros k'; subst g3; destruct (negb (fTempBreak e));
            [apply getBreak_println|reflexivity]).
      split.
      { eapply resolvesAs_trans; [|apply resolvesAs_historyInit].
        eapply resolvesAs_trans; [|exact S3].
        eapply resolvesAs_trans; [exact S1|exact S2]. }
      split.
      { intros k' Hk. rewrite getBreak_historyInit, B3, B2. subst g1.
        apply getBreak_setBreak_other. exact Hk. }
      rewrite getBreak_historyInit, B3, B2. subst g1. rewrite getBreak_setBreak.
      split; [reflexivity|]. split; [reflexivity|].
      rewrite busLog_historyInit.
      assert (L3 : busLog g3 = busLog g2)
        by (subst g3; destruct (negb (fTempBreak e)); reflexivity).
      rewrite L3. subst g2. destruct (negb (isExec k)).
      * cbn [busLog busCall]. rewrite busLog_setBreak. reflexivity.
      * rewrite busLog_setBreak, List.app_nil_r. reflexivity.
    + split; [reflexivity|]. split.
      { eapply resolvesAs_trans; [apply resolvesAs_setBreak|apply resolvesAs_println]. }
      split.
      { intros k' Hk. rewrite getBreak_println. apply getBreak_setBreak_other. exact Hk. }
      rewrite getBreak_println, getBreak_setBreak.
      split; [reflexivity|]. split; [reflexivity|].
      rewrite busLog_println, busLog_setBreak, List.app_nil_r. reflexivity.
  - cbn [fst snd]. split; [reflexivity|].
    split; [apply resolvesAs_setBreak|].
    split; [intros k' Hk; apply getBreak_setBreak_other; exact Hk|].
    rewrite getBreak_setBreak. split; [reflexivity|]. split; [reflexivity|].
    rewrite busLog_setBreak, List.app_nil_r. reflexivity.
Qed.

Lemma getAddr_idem g d fWrite nb :
  getAddr g (snd (getAddr g d fWrite nb)) fWrite nb = getAddr g d fWrite nb.
Proof.
  destruct (getAddr_cache g d fWrite nb) as [C|(Ha & Hg & E)].
  - remember (getAddr g d fWrite nb) as X eqn:EX.
    unfold getAddr. rewrite C. destruct X; reflexivity.
  - rewrite E. cbn [snd]. exact E.
Qed.

Lemma getAddr_set_fTempBreak g d t fWrite nb :
  getAddr g (set_fTempBreak d t) fWrite nb
  = (fst (getAddr g d fWrite nb), set_fTempBreak (snd (getAddr g d fWrite nb)) t).
Proof.
  unfold getAddr. cbn [addr sel fProt off set_fTempBreak].
  destruct (addr d); [reflexivity|].
  destruct (getSegment g (sel d) (fProt d)); reflexivity.
Qed.

Lemma getAddr_fTempBreak g d fWrite nb :
  fTempBreak (snd (getAddr g d fWrite nb)) = fTempBreak d.
Proof.
  unfold getAddr. destruct (addr d); [reflexivity|].
  destruct (getSegment g (sel d) (fProt d)); reflexivity.
Qed.

Lemma resolvesAs_checking g : 
  cpu (checking g) = cpu g /\ segDebugger (checking g) = segDebugger g
  /\ maskAddr (checking g) = maskAddr g
  /\ nSuppressBreaks (checking g) = nSuppressBreaks g + 1.
Proof. unfold checking. cbn. auto. Qed.

Lemma resolvesAs_unchecking g g1 :
  resolvesAs (checking g) g1 ->
  resolvesAs g (set_nSuppressBreaks g1 (nSuppressBreaks g1 - 1)).
Proof.
  unfold resolvesAs, checking. cbn. intros (? & ? & ? & Hn & ? & ? & ?).
  repeat split; try assumption. lia.
Qed.

(** What [addBreakpoint] returns, by the outcome of the search. *)
Lemma addBreakpoint_cases g k d fTemp :
  let gc := checking g in
  let '(a0, d1) := getAddr gc d false None in
  let '(v, h, r) := scanBreak gc (mapBreakpoint gc a0) d1 (entries (getBreak g k)) in
  let R := addBreakpoint g k d fTemp in
  let g' := snd (fst R) in
  let stored :=
    if fTemp && JS.truthy_opt (addr d1)
    then set_sel (set_fTempBreak d1 fTemp) None else set_fTempBreak d1 fTemp in
  fst (fst R) = (match h with Some _ => false | None => true end)
  /\ resolvesAs g g'
  /\ (forall k', k' <> k -> getBreak g' k' = getBreak g k')
  /\ snd R = (match h with Some _ => d1 | None => stored end)
  /\ entries (getBreak g' k)
     = (match h with Some e => v ++ e :: r | None => v ++ [stored] end)%list
  /\ busLog g'
     = (busLog g ++ match h with
                    | Some _ => []
                    | None => if negb (isExec k)
                              then [AddMemBreak a0 (isWrite k)] else []
                    end)%list.
Proof.
  intros gc.
  pose proof (findBreakpoint_cases gc k d false) as F.
  pose proof (getAddr_idem gc d false None) as I.
  pose proof (findBreakpoint_addr gc k d false) as A.
  unfold addBreakpoint. fold (checking g). fold gc.
  destruct (getAddr gc d false None) as [a0 d1] eqn:Eg.
  change (getBreak g k) with (getBreak gc k).
  destruct (scanBreak gc (mapBreakpoint gc a0) d1 (entries (getBreak gc k)))
    as [[v h] r].
  destruct (findBreakpoint gc k d false) as [[f g1] dd].
  cbn [fst snd] in *. subst dd.
  destruct F as (Ff & Fs & Fo & Ft & Fe & Fl).
  subst f. destruct h as [e|]; cbn [negb fst snd].
  - split; [reflexivity|].
    split; [apply resolvesAs_unchecking; exact Fs|].
    split; [intros k' Hk; rewrite getBreak_set_nSuppressBreaks; apply Fo; exact Hk|].
    split; [reflexivity|].
    rewrite getBreak_set_nSuppressBreaks.
    split; [exact Fe|]. cbn [busLog set_nSuppressBreaks]. exact Fl.
  - assert (G : getAddr g1 (set_fTempBreak d1 fTemp) false None
                = (a0, set_fTempBreak d1 fTemp)).
    { rewrite getAddr_set_fTempBreak, (resolvesAs_getAddr gc g1 _ _ _ Fs), I.
      reflexivity. }
    assert (E3 : (if negb (isExec k)
                  then getAddr g1 (set_fTempBreak d1 fTemp) false None
                  else (0, set_fTempBreak d1 fTemp))
                 = ((if negb (isExec k) then a0 else 0), set_fTempBreak d1 fTemp)).
    { destruct (negb (isExec k)); [exact G|reflexivity]. }
    rewrite E3. cbn [addr set_fTempBreak].
    set (stored := if fTemp && JS.truthy_opt (addr d1)
                   then set_sel (set_fTempBreak d1 fTemp) None
                   else set_fTempBreak d1 fTemp).
    assert (Es : (if fTemp
                  then if JS.truthy_opt (addr d1)
                       then set_sel (set_fTempBreak d1 fTemp) None
                       else set_fTempBreak d1 fTemp
                  else set_fTempBreak d1 fTemp) = stored)
      by (subst stored; destruct fTemp; reflexivity).
    rewrite Es.
    set (g2 := setBreak g1 k _).
    set (g3 := if negb (isExec k) then _ else g2).
    set (g4 := if fTemp then g3 else _).
    set (g5 := if negb fTemp then _ else g4).
    assert (S2 : resolvesAs g1 g2) by apply resolvesAs_setBreak.
    assert (S3 : resolvesAs g2 g3)
      by (subst g3; destruct (negb (isExec k));
          [apply resolvesAs_busCall|apply resolvesAs_refl]).
    assert (S4 : resolvesAs g3 g4)
      by (subst g4; destruct fTemp; [apply resolvesAs_refl|apply resolvesAs_println]).
    assert (S5 : resolvesAs g4 g5)
      by (subst g5; destruct (negb fTemp);
          [apply resolvesAs_historyInit|apply resolvesAs_refl]).
    assert (B3 : forall k', getBreak g3 k' = getBreak g2 k')
      by (intros k'; subst g3; destruct (negb (isExec k));
          [apply getBreak_busCall|reflexivity]).
    assert (B4 : forall k', getBreak g4 k' = getBreak g3 k')
      by (intros k'; subst g4; destruct fTemp; [reflexivity|apply getBreak_println]).
    assert (B5 : forall k', getBreak g5 k' = getBreak g4 k')
      by (intros k'; subst g5; destruct (negb fTemp);
          [apply getBreak_historyInit|reflexivity]).
    cbn [fst snd].
    split; [reflexivity|].
    split.
    { apply resolvesAs_unchecking.
      eapply resolvesAs_trans; [exact Fs|].
      eapply resolvesAs_trans; [exact S2|].
      eapply resolvesAs_trans; [exact S3|].
      eapply resolvesAs_trans; [exact S4|exact S5]. }
    split.
    { intros k' Hk. rewrite getBreak_set_nSuppressBreaks, B5, B4, B3. subst g2.
      rewrite getBreak_setBreak_other by exact Hk. apply Fo. exact Hk. }
    split; [reflexivity|].
    rewrite getBreak_set_nSuppressBreaks, B5, B4, B3. subst g2.
    rewrite getBreak_setBreak. cbn [entries]. rewrite Fe.
    split; [reflexivity|].
    change (busLog (set_nSuppressBreaks g5 (nSuppressBreaks g5 - 1))) with (busLog g5).
    change (busLog gc) with (busLog g) in Fl.
    assert (L5 : busLog g5 = busLog g4)
      by (subst g5; destruct (negb fTemp); [apply busLog_historyInit|reflexivity]).
    assert (L4 : busLog g4 = busLog g3)
      by (subst g4; destruct fTemp; reflexivity).
    rewrite L5, L4. subst g3. destruct (negb (isExec k)).
    + cbn [busLog busCall]. rewrite busLog_setBreak, Fl, List.app_nil_r. reflexivity.
    + rewrite busLog_setBreak, Fl. reflexivity.
Qed.

Lemma checkLoop_resolvesAs g a nb k fTemp : forall rest visited,
  resolvesAs g (snd (checkLoop g a nb k fTemp visited rest)).
Proof.
  induction rest as [|e rest IH]; intros visited; cbn [checkLoop].
  - apply resolvesAs_setBreak.
  - destruct (resolveBreak g e) as [ab e'].
    destruct (rangeHit (Z.to_nat nb) a 0 nb ab); [|apply IH].
    cbn [snd]. set (g1 := setBreak g k _).
    assert (S1 : resolvesAs g g1) by apply resolvesAs_setBreak.
    destruct (fTempBreak e').
    + pose proof (findBreakpoint_cases g1 k e' true) as F.
      destruct (getAddr g1 e' false None) as [a0 d1].
      destruct (scanBreak g1 (mapBreakpoint g1 a0) d1 (entries (getBreak g1 k)))
        as [[v h] r].
      destruct F as (_ & F & _). eapply resolvesAs_trans; [exact S1|exact F].
    + destruct (negb fTemp); [|exact S1].
      eapply resolvesAs_trans; [exact S1|apply resolvesAs_println].
Qed.

Lemma addBreakpoint_frame g k d fTemp :
  resolvesAs g (snd (fst (addBreakpoint g k d fTemp))).
Proof.
  pose proof (addBreakpoint_cases g k d fTemp) as H. cbv zeta in H.
  destruct (getAddr (checking g) d false None) as [a0 d1].
  destruct (scanBreak (checking g) (mapBreakpoint (checking g) a0) d1
                      (entries (getBreak g k))) as [[v h] r].
  exact (proj1 (proj2 H)).
Qed.

Lemma findBreakpoint_frame g k d fRemove :
  resolvesAs g (snd (fst (findBreakpoint g k d fRemove))).
Proof.
  pose proof (findBreakpoint_cases g k d fRemove) as F.
  destruct (getAddr g d false None) as [a0 d1].
  destruct (scanBreak g (mapBreakpoint g a0) d1 (entries (getBreak g k)))
    as [[v h] r].
  exact (proj1 (proj2 F)).
Qed.

Lemma checkBreakpoint_frame g a nb k fTemp :
  resolvesAs g (snd (checkBreakpoint g a nb k fTemp)).
Proof.
  unfold checkBreakpoint. fold (checking g).
  destruct (negb (JS.truthy (nSuppressBreaks g))).
  - set (fBreak := if messageEnabled _ _ then _ else false).
    destruct fBreak.
    + cbn [snd]. apply resolvesAs_unchecking, resolvesAs_refl.
    + pose proof (checkLoop_resolvesAs (checking g)
                    (mapBreakpoint (checking g) a) nb k fTemp
                    (entries (getBreak (checking g) k)) []) as C.
      destruct (checkLoop _ _ _ _ _ _ _) as [b g1]. cbn [snd] in *.
      apply resolvesAs_unchecking. exact C.
  - cbn [snd]. apply resolvesAs_unchecking, resolvesAs_refl.
Qed.

(** X8.  The nesting counter, which [addBreakpoint] and [checkBreakpoint]
    raise while they work, is back at its value when the breakpoint
    functions return: added or not, found or not, removed or not, hit or
    not, and also when [checkBreakpoint] has removed a temporary
    breakpoint on its way. *)
Theorem breakpoint_functions_balanced (g : Debugger) (k : BreakKind) (d : DbgAddr)
        (fTemp fRemove : bool) (a nb : Z) :
  nSuppressBreaks (snd (fst (addBreakpoint g k d fTemp))) = nSuppressBreaks g
  /\ nSuppressBreaks (snd (fst (findBreakpoint g k d fRemove))) = nSuppressBreaks g
  /\ nSuppressBreaks (snd (checkBreakpoint g a nb k fTemp)) = nSuppressBreaks g
  /\ nSuppressBreaks (fst (setTempBreakpoint g d)) = nSuppressBreaks g.
Proof.
  split; [exact (proj1 (proj2 (proj2 (proj2 (addBreakpoint_frame g k d fTemp)))))|].
  split; [exact (proj1 (proj2 (proj2 (proj2 (findBreakpoint_frame g k d fRemove)))))|].
  split; [exact (proj1 (proj2 (proj2 (proj2 (checkBreakpoint_frame g a nb k fTemp)))))|].
  unfold setTempBreakpoint. pose proof (addBreakpoint_frame g BreakExec d true) as A.
  destruct (addBreakpoint g BreakExec d true) as [[ok g1] d1].
  exact (proj1 (proj2 (proj2 (proj2 A)))).
Qed.

Lemma addBreakpoint_length g k d fTemp :
  countBreaks (snd (fst (addBreakpoint g k d fTemp))) k
  = (countBreaks g k + (if fst (fst (addBreakpoint g k d fTemp)) then 1 else 0))%nat.
Proof.
  pose proof (addBreakpoint_cases g k d fTemp) as H. cbv zeta in H.
  pose proof (scanBreak_length (checking g)
                (mapBreakpoint (checking g) (fst (getAddr (checking g) d false None)))
                (snd (getAddr (checking g) d false None))
                (entries (getBreak g k))) as L.
  destruct (getAddr (checking g) d false None) as [a0 d1]. cbn [fst snd] in L.
  destruct (scanBreak (checking g) (mapBreakpoint (checking g) a0) d1
                      (entries (getBreak g k))) as [[v h] r].
  destruct H as (Hok & _ & _ & _ & He & _). destruct L as [L Lr].
  unfold countBreaks. rewrite Hok, He.
  destruct h.
  - rewrite List.length_app. cbn [List.length] in *. lia.
  - rewrite (Lr eq_refl) in L. rewrite List.length_app. cbn [List.length] in *. lia.
Qed.

(** X9.  [addBreakpoint] returns true exactly when it stores the address:
    the array it was given is then one entry longer and its last entry is
    the address object as the function leaves it; when it returns false
    the array has as many entries as before.  The other two arrays are
    not touched. *)
Theorem addBreakpoint_count (g : Debugger) (k : BreakKind) (d : DbgAddr) (fTemp : bool) :
  let R := addBreakpoint g k d fTemp in
  countBreaks (snd (fst R)) k
  = (countBreaks g k + (if fst (fst R) then 1 else 0))%nat
  /\ (fst (fst R) = true -> storedBreak (snd (fst R)) k d = snd R)
  /\ (forall k', k' <> k -> getBreak (snd (fst R)) k' = getBreak g k').
Proof.
  cbv zeta. split; [apply addBreakpoint_length|].
  pose proof (addBreakpoint_cases g k d fTemp) as H. cbv zeta in H.
  destruct (getAddr (checking g) d false None) as [a0 d1].
  destruct (scanBreak (checking g) (mapBreakpoint (checking g) a0) d1
                      (entries (getBreak g k))) as [[v h] r].
  destruct H as (Hok & _ & Ho & Hd & He & _).
  unfold storedBreak. rewrite Hok, He, Hd.
  split; [|exact Ho].
  destruct h; [discriminate|]. intros _. apply List.last_last.
Qed.

Lemma scanBreak_linear_present g a2 d2 l e a :
  List.In e l -> addr e = Some a ->
  mapBreakpoint g a2 = mapBreakpoint g a ->
  mapBreakpoint g a <> ADDR_INVALID x86 ->
  snd (fst (scanBreak g (mapBreakpoint g a2) d2 l)) <> None.
Proof.
  intros Hin Ha Hm Hv. apply scanBreak_hit. apply List.Exists_exists.
  exists e. split; [exact Hin|]. unfold matchBreak. rewrite Hm.
  destruct (Z.eqb_spec (mapBreakpoint g a) (ADDR_INVALID x86)); [contradiction|].
  cbn [negb]. unfold getAddr. rewrite Ha. cbn [fst]. apply Z.eqb_refl.
Qed.

(** After a successful [addBreakpoint] of an address with a linear
    address, the array holds an entry with that linear address. *)
Lemma addBreakpoint_linear_stored g k d a fTemp :
  addr d = Some a ->
  fst (fst (addBreakpoint g k d fTemp)) = true ->
  exists e, List.In e (entries (getBreak (snd (fst (addBreakpoint g k d fTemp))) k))
            /\ addr e = Some a.
Proof.
  intros Ha Hok.
  pose proof (addBreakpoint_cases g k d fTemp) as H. cbv zeta in H.
  assert (G : getAddr (checking g) d false None = (a, d))
    by (unfold getAddr; rewrite Ha; reflexivity).
  rewrite G in H.
  destruct (scanBreak (checking g) (mapBreakpoint (checking g) a) d
                      (entries (getBreak g k))) as [[v h] r].
  destruct H as (Hf & _ & _ & _ & He & _).
  rewrite Hok in Hf. destruct h; [discriminate|].
  rewrite He. eexists. split; [apply List.in_or_app; right; left; reflexivity|].
  destruct (fTemp && JS.truthy_opt (addr d)); exact Ha.
Qed.

(** X10.  A linear address is stored once.  After [addBreakpoint] has
    stored an address whose linear address is known and does not fold to
    the invalid sentinel, a search of the same array for any address with
    the same folded linear address succeeds, and a second [addBreakpoint]
    of such an address returns false and leaves the number of entries as
    it is. *)
Theorem addBreakpoint_linear_once (g : Debugger) (k : BreakKind) (d d2 : DbgAddr)
        (a a2 : Z) (fTemp fTemp2 : bool) :
  addr d = Some a -> mapBreakpoint g a <> ADDR_INVALID x86 ->
  addr d2 = Some a2 -> mapBreakpoint g a2 = mapBreakpoint g a ->
  fst (fst (addBreakpoint g k d fTemp)) = true ->
  let g1 := snd (fst (addBreakpoint g k d fTemp)) in
  fst (fst (findBreakpoint g1 k d2 false)) = true
  /\ fst (fst (addBreakpoint g1 k d2 fTemp2)) = false
  /\ countBreaks (snd (fst (addBreakpoint g1 k d2 fTemp2))) k = countBreaks g1 k.
Proof.
  intros Ha Hv Ha2 Hm Hok g1.
  destruct (addBreakpoint_linear_stored g k d a fTemp Ha Hok) as (e & Hin & Hea).
  fold g1 in Hin.
  assert (S1 : resolvesAs g g1) by apply addBreakpoint_frame.
  assert (M : forall x, mapBreakpoint g1 x = mapBreakpoint g x)
    by (intros x; apply resolvesAs_mapBreakpoint; exact S1).
  assert (Mc : forall x, mapBreakpoint (checking g1) x = mapBreakpoint g x)
    by (intros x; rewrite <- M; reflexivity).
  split; [|split].
  - pose proof (findBreakpoint_cases g1 k d2 false) as F.
    assert (G : getAddr g1 d2 false None = (a2, d2))
      by (unfold getAddr; rewrite Ha2; reflexivity).
    rewrite G in F.
    pose proof (scanBreak_linear_present g1 a2 d2 (entries (getBreak g1 k)) e a
                  Hin Hea) as P.
    rewrite !M in P. specialize (P Hm Hv). rewrite M in F.
    rewrite <- (M a2) in P at 1. rewrite <- (M a2) in F.
    destruct (scanBreak g1 (mapBreakpoint g1 a2) d2 (entries (getBreak g1 k)))
      as [[v h] r].
    cbn [fst snd] in P. destruct F as (F & _). rewrite F.
    destruct h; [reflexivity|contradiction].
  - pose proof (addBreakpoint_cases g1 k d2 fTemp2) as H. cbv zeta in H.
    assert (G : getAddr (checking g1) d2 false None = (a2, d2))
      by (unfold getAddr; rewrite Ha2; reflexivity).
    rewrite G in H.
    pose proof (scanBreak_linear_present (checking g1) a2 d2
                  (entries (getBreak g1 k)) e a Hin Hea) as P.
    rewrite !Mc in P. specialize (P Hm Hv).
    rewrite <- (Mc a2) in P.
    destruct (scanBreak (checking g1) (mapBreakpoint (checking g1) a2) d2
                        (entries (getBreak g1 k))) as [[v h] r].
    cbn [fst snd] in P. destruct H as (F & _). rewrite F.
    destruct h; [reflexivity|contradiction].
  - rewrite (addBreakpoint_length g1 k d2 fTemp2).
    pose proof (addBreakpoint_cases g1 k d2 fTemp2) as H. cbv zeta in H.
    assert (G : getAddr (checking g1) d2 false None = (a2, d2))
      by (unfold getAddr; rewrite Ha2; reflexivity).
    rewrite G in H.
    pose proof (scanBreak_linear_present (checking g1) a2 d2
                  (entries (getBreak g1 k)) e a Hin Hea) as P.
    rewrite !Mc in P. specialize (P Hm Hv).
    rewrite <- (Mc a2) in P.
    destruct (scanBreak (checking g1) (mapBreakpoint (checking g1) a2) d2
                        (entries (getBreak g1 k))) as [[v h] r].
    cbn [fst snd] in P. destruct H as (F & _). rewrite F.
    destruct h; [lia|contradiction].
Qed.

Lemma findBreakpoint_length g k d fRemove :
  (countBreaks (snd (fst (findBreakpoint g k d fRemove))) k
   + (if fst (fst (findBreakpoint g k d fRemove)) && fRemove then 1 else 0)
   = countBreaks g k)%nat.
Proof.
  pose proof (findBreakpoint_cases g k d fRemove) as F.
  pose proof (scanBreak_length g
                (mapBreakpoint g (fst (getAddr g d false None)))
                (snd (getAddr g d false None))
                (entries (getBreak g k))) as L.
  destruct (getAddr g d false None) as [a0 d1]. cbn [fst snd] in L.
  destruct (scanBreak g (mapBreakpoint g a0) d1 (entries (getBreak g k)))
    as [[v h] r].
  destruct F as (Hok & _ & _ & _ & He & _). destruct L as [L Lr].
  unfold countBreaks. rewrite Hok, He.
  destruct h.
  - destruct fRemove; rewrite List.length_app; cbn [List.length andb] in *; lia.
  - rewrite (Lr eq_refl) in L. cbn [List.length andb] in *. lia.
Qed.

(** X11.  [findBreakpoint] removes at most one entry, and only when asked
    to: the array has one entry less when the function was called with
    [fRemove] and returns true, and as many entries as before in every
    other case.  The other two arrays are not touched. *)
Theorem findBreakpoint_count (g : Debugger) (k : BreakKind) (d : DbgAddr) (fRemove : bool) :
  let R := findBreakpoint g k d fRemove in
  (countBreaks (snd (fst R)) k + (if fst (fst R) && fRemove then 1 else 0)
   = countBreaks g k)%nat
  /\ (forall k', k' <> k -> getBreak (snd (fst R)) k' = getBreak g k').
Proof.
  cbv zeta. split; [apply findBreakpoint_length|].
  pose proof (findBreakpoint_cases g k d fRemove) as F.
  destruct (getAddr g d false None) as [a0 d1].
  destruct (scanBreak g (mapBreakpoint g a0) d1 (entries (getBreak g k)))
    as [[v h] r].
  exact (proj1 (proj2 (proj2 F))).
Qed.

(** X12.  Removing undoes adding.  After [addBreakpoint] has stored an
    address whose linear address is known and does not fold to the invalid
    sentinel, [findBreakpoint] with [fRemove], asked for any address with
    the same folded linear address, returns true and leaves the array with
    as many entries as it had before the address was added. *)
Theorem findBreakpoint_removes_added (g : Debugger) (k : BreakKind) (d d2 : DbgAddr)
        (a a2 : Z) (fTemp : bool) :
  addr d = Some a -> mapBreakpoint g a <> ADDR_INVALID x86 ->
  addr d2 = Some a2 -> mapBreakpoint g a2 = mapBreakpoint g a ->
  fst (fst (addBreakpoint g k d fTemp)) = true ->
  let g1 := snd (fst (addBreakpoint g k d fTemp)) in
  fst (fst (findBreakpoint g1 k d2 true)) = true
  /\ countBreaks (snd (fst (findBreakpoint g1 k d2 true))) k = countBreaks g k.
Proof.
  intros Ha Hv Ha2 Hm Hok g1.
  destruct (addBreakpoint_linear_stored g k d a fTemp Ha Hok) as (e & Hin & Hea).
  fold g1 in Hin.
  assert (S1 : resolvesAs g g1) by apply addBreakpoint_frame.
  assert (M : forall x, mapBreakpoint g1 x = mapBreakpoint g x)
    by (intros x; apply resolvesAs_mapBreakpoint; exact S1).
  assert (Found : fst (fst (findBreakpoint g1 k d2 true)) = true).
  { pose proof (findBreakpoint_cases g1 k d2 true) as F.
    assert (G : getAddr g1 d2 false None = (a2, d2))
      by (unfold getAddr; rewrite Ha2; reflexivity).
    rewrite G in F.
    pose proof (scanBreak_linear_present g1 a2 d2 (entries (getBreak g1 k)) e a
                  Hin Hea) as P.
    rewrite !M in P. specialize (P Hm Hv).
    rewrite <- (M a2) in P.
    destruct (scanBreak g1 (mapBreakpoint g1 a2) d2 (entries (getBreak g1 k)))
      as [[v h] r].
    cbn [fst snd] in P. destruct F as (F & _). rewrite F.
    destruct h; [reflexivity|contradiction]. }
  split; [exact Found|].
  pose proof (findBreakpoint_length g1 k d2 true) as L. rewrite Found in L.
  pose proof (addBreakpoint_length g k d fTemp) as L1. rewrite Hok in L1.
  fold g1 in L1. cbn [andb] in L. lia.
Qed.

(** X13.  The calls to the bus.  [addBreakpoint] calls the bus only when it
    stores a read or a write breakpoint, once, with the linear address of
    the breakpoint as [getAddr] gives it; [findBreakpoint] calls it only
    when it removes a read or a write breakpoint, once, with the folded
    linear address it searched for.  Execution breakpoints never reach the
    bus. *)
Theorem breakpoint_bus_calls (g : Debugger) (k : BreakKind) (d : DbgAddr)
        (fTemp fRemove : bool) :
  busLog (snd (fst (addBreakpoint g k d fTemp)))
  = (busLog g
     ++ if fst (fst (addBreakpoint g k d fTemp)) && negb (isExec k)
        then [AddMemBreak (fst (getAddr (checking g) d false None)) (isWrite k)]
        else [])%list
  /\ busLog (snd (fst (findBreakpoint g k d fRemove)))
     = (busLog g
        ++ if fst (fst (findBreakpoint g k d fRemove)) && fRemove && negb (isExec k)
           then [RemoveMemBreak (mapBreakpoint g (fst (getAddr g d false None)))
                                (isWrite k)]
           else [])%list.
Proof.
  split.
  - pose proof (addBreakpoint_cases g k d fTemp) as H. cbv zeta in H.
    destruct (getAddr (checking g) d false None) as [a0 d1].
    destruct (scanBreak (checking g) (mapBreakpoint (checking g) a0) d1
                        (entries (getBreak g k))) as [[v h] r].
    destruct H as (Hok & _ & _ & _ & _ & Hl). rewrite Hl, Hok.
    destruct h; reflexivity.
  - pose proof (findBreakpoint_cases g k d fRemove) as F.
    destruct (getAddr g d false None) as [a0 d1].
    destruct (scanBreak g (mapBreakpoint g a0) d1 (entries (getBreak g k)))
      as [[v h] r].
    destruct F as (Hok & _ & _ & _ & _ & Hl). rewrite Hl, Hok.
    destruct h; reflexivity.
Qed.

(** *** An entry is always found by a search for itself *)

Lemma eq_opt_refl o : JS.eq_opt o o = true.
Proof. destruct o; [apply Z.eqb_refl|reflexivity]. Qed.

Lemma matchBreak_self g e :
  fst (matchBreak g (mapBreakpoint g (fst (getAddr g e false None)))
                  (snd (getAddr g e false None)) e) = true.
Proof.
  unfold matchBreak.
  destruct (negb (mapBreakpoint g (fst (getAddr g e false None)) =? ADDR_INVALID x86)).
  - destruct (getAddr g e false None) as [ae e']. cbn [fst]. apply Z.eqb_refl.
  - cbn [fst]. rewrite getAddr_sel, getAddr_off, eq_opt_refl, Z.eqb_refl. reflexivity.
Qed.

Lemma findBreakpoint_self g k e fRemove :
  List.In e (entries (getBreak g k)) ->
  fst (fst (findBreakpoint g k e fRemove)) = true.
Proof.
  intros Hin.
  pose proof (findBreakpoint_cases g k e fRemove) as F.
  pose proof (matchBreak_self g e) as M.
  destruct (getAddr g e false None) as [a0 d1]. cbn [fst snd] in M.
  assert (P : snd (fst (scanBreak g (mapBreakpoint g a0) d1 (entries (getBreak g k))))
              <> None).
  { apply scanBreak_hit. apply List.Exists_exists. exists e. auto. }
  destruct (scanBreak g (mapBreakpoint g a0) d1 (entries (getBreak g k)))
    as [[v h] r].
  cbn [fst snd] in P. destruct F as (F & _). rewrite F.
  destruct h; [reflexivity|contradiction].
Qed.

Lemma resolveBreak_fTempBreak g e :
  fTempBreak (snd (resolveBreak g e)) = fTempBreak e.
Proof.
  unfold resolveBreak.
  pose proof (getAddr_fTempBreak g (match sel e with
                                    | Some _ => set_addr e None
                                    | None => e
                                    end) false None) as H.
  destruct (getAddr g _ false None) as [a e']. cbn [snd] in *.
  rewrite H. destruct (sel e); reflexivity.
Qed.

Lemma checkLoop_count g a nb k fTemp : forall rest visited,
  match List.find (fun e => rangeHit (Z.to_nat nb) a 0 nb (fst (resolveBreak g e))) rest
  with
  | None =>
    fst (checkLoop g a nb k fTemp visited rest) = false
    /\ countBreaks (snd (checkLoop g a nb k fTemp visited rest)) k
       = (List.length visited + List.length rest)%nat
  | Some e =>
    fst (checkLoop g a nb k fTemp visited rest) = true
    /\ (countBreaks (snd (checkLoop g a nb k fTemp visited rest)) k
        + (if fTempBreak e then 1 else 0)
        = List.length visited + List.length rest)%nat
  end.
Proof.
  induction rest as [|e rest IH]; intros visited; cbn [checkLoop List.find].
  - cbn [fst snd]. unfold countBreaks. rewrite getBreak_setBreak. cbn.
    split; [reflexivity|lia].
  - pose proof (resolveBreak_fTempBreak g e) as T.
    destruct (resolveBreak g e) as [ab e']. cbn [fst snd] in *.
    destruct (rangeHit (Z.to_nat nb) a 0 nb ab).
    + cbn [fst snd]. split; [reflexivity|].
      set (g1 := setBreak g k _).
      assert (C1 : countBreaks g1 k = (List.length visited + S (List.length rest))%nat).
      { unfold countBreaks. subst g1. rewrite getBreak_setBreak. cbn [entries].
        rewrite List.length_app. reflexivity. }
      rewrite <- T. destruct (fTempBreak e').
      * pose proof (findBreakpoint_length g1 k e' true) as L.
        rewrite findBreakpoint_self in L.
        -- cbn [andb List.length] in *. lia.
        -- subst g1. rewrite getBreak_setBreak. cbn [entries].
           apply List.in_or_app. right. left. reflexivity.
      * assert (C : countBreaks (if negb fTemp
                                 then println g1 (breakLine "breakpoint hit: " e'
                                                            (getBreak g k))
                                 else g1) k = countBreaks g1 k).
        { destruct (negb fTemp); [|reflexivity]. unfold countBreaks.
          rewrite getBreak_println. reflexivity. }
        rewrite C. cbn [List.length]. lia.
    + specialize (IH (visited ++ [e'])%list).
      destruct (List.find _ rest) as [e0|];
        rewrite List.length_app in IH; cbn [List.length] in *;
        destruct IH as [I1 I2]; split; try exact I1; lia.
Qed.

(** X14.  A temporary breakpoint fires once.  With the nesting counter at
    zero and the INT3 test off, [checkBreakpoint] stops on the first entry
    for which the loop over the byte range succeeds: the array then has
    one entry less when that entry is temporary, and as many as before
    when it is not.  Without such an entry the result is false and the
    number of entries is unchanged. *)
Theorem checkBreakpoint_temp_fires_once (g : Debugger) (a nb : Z) (k : BreakKind)
        (fTemp : bool) :
  nSuppressBreaks g = 0 ->
  messageEnabled g (JS.bor (MESSAGES_INT msgs) (MESSAGES_HALT msgs)) = false ->
  let R := checkBreakpoint g a nb k fTemp in
  match hitEntry g a nb k with
  | None => fst R = false /\ countBreaks (snd R) k = countBreaks g k
  | Some e =>
    fst R = true
    /\ (countBreaks (snd R) k + (if fTempBreak e then 1 else 0) = countBreaks g k)%nat
  end.
Proof.
  intros Hn Hm. cbv zeta. unfold checkBreakpoint, JS.truthy. rewrite Hn.
  cbn [Z.eqb negb].
  change (messageEnabled (set_nSuppressBreaks g (0 + 1))
                         (JS.bor (MESSAGES_INT msgs) (MESSAGES_HALT msgs)))
    with (messageEnabled g (JS.bor (MESSAGES_INT msgs) (MESSAGES_HALT msgs))).
  rewrite Hm.
  pose proof (checkLoop_count (set_nSuppressBreaks g (0 + 1))
                (mapBreakpoint (set_nSuppressBreaks g (0 + 1)) a) nb k fTemp
                (entries (getBreak (set_nSuppressBreaks g (0 + 1)) k)) []) as C.
  unfold hitEntry, breakAddr, checking. rewrite Hn.
  change (mapBreakpoint g a) with (mapBreakpoint (set_nSuppressBreaks g (0 + 1)) a).
  change (getBreak g k) with (getBreak (set_nSuppressBreaks g (0 + 1)) k) at 1.
  destruct (List.find _ _) as [e|];
    destruct (checkLoop _ _ _ _ _ _ _) as [b g1]; cbn [fst snd List.length] in *;
    unfold countBreaks in *; rewrite getBreak_set_nSuppressBreaks;
    destruct C as [C1 C2]; (split; [exact C1|]);
    rewrite getBreak_set_nSuppressBreaks in C2; exact C2.
Qed.

End BreakpointBookkeeping.

(** ** Clearing and re-applying breakpoints; the history buffers *)

Section ClearingFacts.

Context {env : Env}.

Lemma removeMemBreaks_spec fWrite : forall l g,
  resolvesAs g (removeMemBreaks g l fWrite)
  /\ (forall k, getBreak (removeMemBreaks g l fWrite) k = getBreak g k)
  /\ busLog (removeMemBreaks g l fWrite)
     = (busLog g
        ++ List.map (fun e => RemoveMemBreak (fst (getAddr g e false None)) fWrite) l)%list.
Proof.
  induction l as [|e l IH]; intros g; cbn [removeMemBreaks List.fold_left List.map].
  - split; [apply resolvesAs_refl|]. split; [reflexivity|].
    rewrite List.app_nil_r. reflexivity.
  - set (g1 := busCall g _).
    assert (S1 : resolvesAs g g1) by apply resolvesAs_busCall.
    destruct (IH g1) as (I1 & I2 & I3). fold (removeMemBreaks g1 l fWrite).
    split; [eapply resolvesAs_trans; [exact S1|exact I1]|].
    split; [intros k; rewrite I2; apply getBreak_busCall|].
    rewrite I3.
    change (busLog g1)
      with (busLog g ++ [RemoveMemBreak (fst (getAddr g e false None)) fWrite])%list.
    rewrite (List.map_ext
               (fun e0 => RemoveMemBreak (fst (getAddr g1 e0 false None)) fWrite)
               (fun e0 => RemoveMemBreak (fst (getAddr g e0 false None)) fWrite))
      by (intros x; rewrite (resolvesAs_getAddr g g1 x false None S1); reflexivity).
    rewrite <- List.app_assoc. reflexivity.
Qed.

Lemma map_remove_same g g' fWrite l :
  resolvesAs g g' ->
  List.map (fun e => RemoveMemBreak (fst (getAddr g' e false None)) fWrite) l
  = List.map (fun e => RemoveMemBreak (fst (getAddr g e false None)) fWrite) l.
Proof.
  intros S. apply List.map_ext. intros x.
  rewrite (resolvesAs_getAddr g g' x false None S). reflexivity.
Qed.

(** X15.  [clearBreakpoints] empties the three arrays and keeps their
    names, sets the nesting counter to zero, and calls the bus once for
    every read breakpoint and then once for every write breakpoint that
    was set, with the linear address [getAddr] gives for it.  Afterwards
    no address hits a breakpoint (the INT3 test apart), and by the release
    criteria instructions are checked only if the interrupt messages are
    on. *)
Theorem clearBreakpoints_clears (g : Debugger) :
  let g' := clearBreakpoints g in
  aBreakExec g' = mkBreakList "exec" []
  /\ aBreakRead g' = mkBreakList "read" []
  /\ aBreakWrite g' = mkBreakList "write" []
  /\ nSuppressBreaks g' = 0
  /\ busLog g'
     = (busLog g
        ++ List.map (fun e => RemoveMemBreak (fst (getAddr g e false None)) false)
                    (entries (aBreakRead g))
        ++ List.map (fun e => RemoveMemBreak (fst (getAddr g e false None)) true)
                    (entries (aBreakWrite g)))%list
  /\ checksEnabled g' true = messageEnabled g (MESSAGES_INT msgs)
  /\ (messageEnabled g (JS.bor (MESSAGES_INT msgs) (MESSAGES_HALT msgs)) = false ->
      forall a nb k fTemp, fst (checkBreakpoint g' a nb k fTemp) = false).
Proof.
  cbv zeta. unfold clearBreakpoints.
  set (g1 := setBreak g BreakExec _).
  set (g2 := removeMemBreaks g1 _ false).
  set (g3 := setBreak g2 BreakRead _).
  set (g4 := removeMemBreaks g3 _ true).
  set (g5 := setBreak g4 BreakWrite _).
  assert (S1 : resolvesAs g g1) by apply resolvesAs_setBreak.
  destruct (removeMemBreaks_spec false (entries (aBreakRead g1)) g1) as (S2 & B2 & L2).
  fold g2 in S2, B2, L2.
  assert (S3 : resolvesAs g2 g3) by apply resolvesAs_setBreak.
  destruct (removeMemBreaks_spec true (entries (aBreakWrite g3)) g3) as (S4 & B4 & L4).
  fold g4 in S4, B4, L4.
  assert (S5 : resolvesAs g4 g5) by apply resolvesAs_setBreak.
  assert (S13 : resolvesAs g g3).
  { eapply resolvesAs_trans; [exact S1|].
    eapply resolvesAs_trans; [exact S2|exact S3]. }
  assert (S15 : resolvesAs g g5).
  { eapply resolvesAs_trans; [exact S13|].
    eapply resolvesAs_trans; [exact S4|exact S5]. }
  assert (E : aBreakExec g5 = mkBreakList "exec" []).
  { change (getBreak g5 BreakExec = mkBreakList "exec" []).
    subst g5. rewrite getBreak_setBreak_other by discriminate. rewrite B4.
    subst g3. rewrite getBreak_setBreak_other by discriminate. rewrite B2.
    subst g1. apply getBreak_setBreak. }
  assert (R : aBreakRead g5 = mkBreakList "read" []).
  { change (getBreak g5 BreakRead = mkBreakList "read" []).
    subst g5. rewrite getBreak_setBreak_other by discriminate. rewrite B4.
    subst g3. apply getBreak_setBreak. }
  assert (W : aBreakWrite g5 = mkBreakList "write" []).
  { change (getBreak g5 BreakWrite = mkBreakList "write" []).
    subst g5. apply getBreak_setBreak. }
  split; [exact E|]. split; [exact R|]. split; [exact W|].
  split; [reflexivity|]. split; [|split].
  - change (busLog (set_nSuppressBreaks g5 0)) with (busLog g5).
    subst g5. rewrite busLog_setBreak, L4.
    assert (W3 : entries (aBreakWrite g3) = entries (aBreakWrite g)).
    { change (entries (getBreak g3 BreakWrite) = entries (getBreak g BreakWrite)).
      subst g3. rewrite getBreak_setBreak_other by discriminate. rewrite B2.
      subst g1. rewrite getBreak_setBreak_other by discriminate. reflexivity. }
    rewrite W3. subst g3. rewrite busLog_setBreak, L2.
    assert (R1 : entries (aBreakRead g1) = entries (aBreakRead g)).
    { change (entries (getBreak g1 BreakRead) = entries (getBreak g BreakRead)).
      subst g1. rewrite getBreak_setBreak_other by discriminate. reflexivity. }
    rewrite R1. subst g1. rewrite busLog_setBreak, <- List.app_assoc.
    rewrite (map_remove_same g _ false _ S1), (map_remove_same g _ true _ S13).
    reflexivity.
  - unfold checksEnabled.
    change (aBreakExec (set_nSuppressBreaks g5 0)) with (aBreakExec g5).
    rewrite E. rewrite Bool.andb_false_r.
    change (messageEnabled (set_nSuppressBreaks g5 0)) with (messageEnabled g5).
    destruct S15 as (_ & _ & _ & _ & M & _). rewrite M. reflexivity.
  - intros Hm a nb k fTemp. rewrite checkBreakpoint_scan.
    + rewrite getBreak_set_nSuppressBreaks.
      destruct k; [change (getBreak g5 BreakExec) with (aBreakExec g5); rewrite E
                  |change (getBreak g5 BreakRead) with (aBreakRead g5); rewrite R
                  |change (getBreak g5 BreakWrite) with (aBreakWrite g5); rewrite W];
        reflexivity.
    + reflexivity.
    + change (messageEnabled (set_nSuppressBreaks g5 0)) with (messageEnabled g5).
      destruct S15 as (_ & _ & _ & _ & M & _). rewrite M. exact Hm.
Qed.

(** *** Re-applying the memory breakpoints *)

Lemma redoLoop_spec a size fWrite : forall rest g,
  resolvesAs g (snd (redoLoop g a size fWrite rest))
  /\ (forall k, getBreak (snd (redoLoop g a size fWrite rest)) k = getBreak g k)
  /\ List.length (fst (redoLoop g a size fWrite rest)) = List.length rest
  /\ exists calls,
      busLog (snd (redoLoop g a size fWrite rest)) = (busLog g ++ calls)%list
      /\ List.Forall (addsInside a size) calls
      /\ (List.length calls <= List.length rest)%nat.
Proof.
  induction rest as [|e rest IH]; intros g; cbn [redoLoop].
  - cbn [fst snd]. split; [apply resolvesAs_refl|]. split; [reflexivity|].
    split; [reflexivity|]. exists []. rewrite List.app_nil_r.
    split; [reflexivity|]. split; [constructor|cbn; lia].
  - destruct (getAddr g e false None) as [ab e'].
    set (g1 := if (a <=? ab) && (ab <? a + size) then _ else g).
    assert (S1 : resolvesAs g g1)
      by (subst g1; destruct ((a <=? ab) && (ab <? a + size));
          [apply resolvesAs_busCall|apply resolvesAs_refl]).
    assert (B1 : forall k, getBreak g1 k = getBreak g k)
      by (intros k; subst g1; destruct ((a <=? ab) && (ab <? a + size));
          [apply getBreak_busCall|reflexivity]).
    assert (L1 : exists c1, busLog g1 = (busLog g ++ c1)%list
                            /\ List.Forall (addsInside a size) c1
                            /\ (List.length c1 <= 1)%nat).
    { subst g1. destruct (Z.leb_spec a ab); destruct (Z.ltb_spec ab (a + size));
        cbn [andb].
      - exists [AddMemBreak ab fWrite]. split; [reflexivity|].
        split; [constructor; [cbn; lia|constructor]|cbn; lia].
      - exists []. rewrite List.app_nil_r. split; [reflexivity|].
        split; [constructor|cbn; lia].
      - exists []. rewrite List.app_nil_r. split; [reflexivity|].
        split; [constructor|cbn; lia].
      - exists []. rewrite List.app_nil_r. split; [reflexivity|].
        split; [constructor|cbn; lia]. }
    destruct (IH g1) as (I1 & I2 & I3 & calls & I4 & I5 & I6).
    destruct (redoLoop g1 a size fWrite rest) as [es g2]. cbn [fst snd] in *.
    split; [eapply resolvesAs_trans; [exact S1|exact I1]|].
    split; [intros k; rewrite I2; apply B1|].
    split; [cbn [List.length]; lia|].
    destruct L1 as (c1 & L1 & F1 & N1).
    exists (c1 ++ calls)%list. rewrite I4, L1, List.app_assoc.
    split; [reflexivity|]. split; [apply List.Forall_app; auto|].
    rewrite List.length_app. cbn [List.length]. lia.
Qed.

Lemma redoBreakpointsIn_spec g a size k :
  resolvesAs g (redoBreakpointsIn g a size k)
  /\ (forall k', countBreaks (redoBreakpointsIn g a size k) k' = countBreaks g k')
  /\ (forall k', k' <> k -> getBreak (redoBreakpointsIn g a size k) k' = getBreak g k')
  /\ exists calls,
      busLog (redoBreakpointsIn g a size k) = (busLog g ++ calls)%list
      /\ List.Forall (addsInside a size) calls
      /\ (List.length calls <= countBreaks g k)%nat.
Proof.
  unfold redoBreakpointsIn.
  destruct (redoLoop_spec a size (isWrite k) (entries (getBreak g k)) g)
    as (I1 & I2 & I3 & calls & I4 & I5 & I6).
  destruct (redoLoop g a size (isWrite k) (entries (getBreak g k))) as [es g1].
  cbn [fst snd] in *.
  split; [eapply resolvesAs_trans; [exact I1|apply resolvesAs_setBreak]|].
  split.
  { intros k'. unfold countBreaks.
    destruct (BreakKind_eq_dec k' k) as [->|Hne].
    - rewrite getBreak_setBreak. cbn [entries]. exact I3.
    - rewrite getBreak_setBreak_other by exact Hne. rewrite I2. reflexivity. }
  split.
  { intros k' Hne. rewrite getBreak_setBreak_other by exact Hne. apply I2. }
  exists calls. rewrite busLog_setBreak. auto.
Qed.

(** X16.  [redoBreakpoints] only tells the bus of memory breakpoints that
    lie in the block: every call it makes sets a breakpoint at an address
    from [addr] up to, and not including, [addr + size], and it makes at
    most one call for each read or write breakpoint.  It removes nothing:
    the three arrays keep their number of entries, and the execution
    breakpoints are not touched at all. *)
Theorem redoBreakpoints_inside (g : Debugger) (a size : Z) :
  let g' := redoBreakpoints g a size None in
  (exists calls,
      busLog g' = (busLog g ++ calls)%list
      /\ List.Forall (addsInside a size) calls
      /\ (List.length calls <= countBreaks g BreakRead + countBreaks g BreakWrite)%nat)
  /\ (forall k, countBreaks g' k = countBreaks g k)
  /\ aBreakExec g' = aBreakExec g
  /\ sameMachine g g'.
Proof.
  cbv zeta. unfold redoBreakpoints.
  destruct (redoBreakpointsIn_spec g a size BreakRead) as (S1 & C1 & O1 & c1 & L1 & F1 & N1).
  set (g1 := redoBreakpointsIn g a size BreakRead) in *.
  destruct (redoBreakpointsIn_spec g1 a size BreakWrite)
    as (S2 & C2 & O2 & c2 & L2 & F2 & N2).
  split; [|split; [|split]].
  - exists (c1 ++ c2)%list. rewrite L2, L1, List.app_assoc.
    split; [reflexivity|]. split; [apply List.Forall_app; auto|].
    rewrite List.length_app. rewrite C1 in N2. lia.
  - intros k. rewrite C2. apply C1.
  - change (getBreak (redoBreakpointsIn g1 a size BreakWrite) BreakExec
            = getBreak g BreakExec).
    rewrite O2 by discriminate. apply O1. discriminate.
  - apply resolvesAs_sameMachine. eapply resolvesAs_trans; [exact S1|exact S2].
Qed.

(** *** Clearing the temporary breakpoints *)

Lemma firstTemp_spec l :
  match firstTemp l with
  | None => List.Forall (fun e => fTempBreak e = false) l
  | Some (before, e, after) => l = (before ++ e :: after)%list /\ fTempBreak e = true
  end.
Proof.
  induction l as [|e l IH]; cbn [firstTemp]; [constructor|].
  destruct (fTempBreak e) eqn:He.
  - split; [reflexivity|exact He].
  - destruct (firstTemp l) as [[[before t] after]|].
    + destruct IH as [-> Ht]. split; [reflexivity|exact Ht].
    + constructor; assumption.
Qed.

Lemma firstTemp_none l :
  List.Forall (fun e => fTempBreak e = false) l -> firstTemp l = None.
Proof.
  induction 1 as [|e l He _ IH]; [reflexivity|].
  cbn [firstTemp]. rewrite He, IH. reflexivity.
Qed.

Lemma clearTempLoop_spec : forall fuel g,
  (countBreaks g BreakExec < fuel)%nat ->
  exists g',
    clearTempLoop fuel g = Some g'
    /\ resolvesAs g g'
    /\ List.Forall (fun e => fTempBreak e = false) (entries (aBreakExec g'))
    /\ (countBreaks g' BreakExec <= countBreaks g BreakExec)%nat
    /\ aBreakRead g' = aBreakRead g /\ aBreakWrite g' = aBreakWrite g.
Proof.
  induction fuel as [|fuel IH]; intros g Hf; [lia|].
  cbn [clearTempLoop].
  pose proof (firstTemp_spec (entries (aBreakExec g))) as T.
  destruct (firstTemp (entries (aBreakExec g))) as [[[before e] after]|].
  - destruct T as [El Et].
    set (e1 := snd (getAddr g e false None)).
    set (g1 := setBreak g BreakExec _).
    assert (S1 : resolvesAs g g1) by apply resolvesAs_setBreak.
    assert (C1 : countBreaks g1 BreakExec = countBreaks g BreakExec).
    { unfold countBreaks. subst g1. rewrite getBreak_setBreak. cbn [entries getBreak].
      rewrite El, !List.length_app. reflexivity. }
    assert (In1 : List.In e1 (entries (getBreak g1 BreakExec))).
    { subst g1. rewrite getBreak_setBreak. cbn [entries].
      apply List.in_or_app. right. left. reflexivity. }
    pose proof (findBreakpoint_self g1 BreakExec e1 true In1) as Found.
    pose proof (findBreakpoint_length g1 BreakExec e1 true) as L.
    pose proof (findBreakpoint_frame g1 BreakExec e1 true) as S2.
    pose proof (findBreakpoint_cases g1 BreakExec e1 true) as F.
    destruct (getAddr g1 e1 false None) as [a0 d1].
    destruct (scanBreak g1 (mapBreakpoint g1 a0) d1 (entries (getBreak g1 BreakExec)))
      as [[v h] r].
    destruct F as (_ & _ & Fo & _).
    destruct (findBreakpoint g1 BreakExec e1 true) as [[f g2] d2].
    cbn [fst snd] in *. subst f. cbn [negb andb] in *.
    assert (Hpos : (0 < countBreaks g BreakExec)%nat).
    { unfold countBreaks. cbn [getBreak]. rewrite El, List.length_app.
      cbn [List.length]. lia. }
    destruct (IH g2) as (g' & E & S3 & N & C & R & W); [lia|].
    exists g'. split; [exact E|].
    split; [eapply resolvesAs_trans; [exact S1|];
            eapply resolvesAs_trans; [exact S2|exact S3]|].
    split; [exact N|]. split; [lia|].
    split.
    + rewrite R. change (getBreak g2 BreakRead = getBreak g BreakRead).
      rewrite Fo by discriminate. subst g1.
      apply getBreak_setBreak_other. discriminate.
    + rewrite W. change (getBreak g2 BreakWrite = getBreak g BreakWrite).
      rewrite Fo by discriminate. subst g1.
      apply getBreak_setBreak_other. discriminate.
  - exists g. split; [reflexivity|]. split; [apply resolvesAs_refl|].
    split; [exact T|]. split; [lia|]. split; reflexivity.
Qed.

(** X17.  [clearTempBreakpoint()] comes to an end, after at most one
    search for each execution breakpoint, and leaves no temporary entry in
    the array of execution breakpoints.  It adds no entry, does not touch
    the read and write breakpoints, and when the array holds no temporary
    entry it changes nothing at all. *)
Theorem clearTempBreakpoint_all (fuel : nat) (g : Debugger) :
  (countBreaks g BreakExec < fuel)%nat ->
  exists g',
    clearTempBreakpoint fuel g None = Some g'
    /\ List.Forall (fun e => fTempBreak e = false) (entries (aBreakExec g'))
    /\ (countBreaks g' BreakExec <= countBreaks g BreakExec)%nat
    /\ aBreakRead g' = aBreakRead g /\ aBreakWrite g' = aBreakWrite g
    /\ sameMachine g g'
    /\ (List.Forall (fun e => fTempBreak e = false) (entries (aBreakExec g)) -> g' = g).
Proof.
  intros Hf. destruct (clearTempLoop_spec fuel g Hf) as (g' & E & S & N & C & R & W).
  apply resolvesAs_sameMachine in S.
  exists g'. cbn [clearTempBreakpoint]. repeat (split; [assumption|]).
  intros Hn. destruct fuel as [|fuel]; [lia|].
  cbn [clearTempLoop] in E. rewrite (firstTemp_none _ Hn) in E. congruence.
Qed.

(** *** The history buffers *)

Lemma checksEnabled_historyInit g fRelease :
  checksEnabled (historyInit g) fRelease = checksEnabled g fRelease.
Proof.
  unfold checksEnabled.
  change (aBreakExec (historyInit g)) with (getBreak (historyInit g) BreakExec).
  rewrite getBreak_historyInit.
  destruct (resolvesAs_historyInit g) as (_ & _ & _ & _ & M & _). rewrite M.
  reflexivity.
Qed.

Lemma historyInit_allocated g :
  checksEnabled g false = true ->
  aOpcodeHistory g <> [] -> aaOpcodeCounts g <> [] ->
  historyInit g = g.
Proof.
  intros H Hh Hc. unfold historyInit. rewrite H. cbn [negb].
  destruct (aOpcodeHistory g); [contradiction|]. cbn [isEmpty].
  destruct (aaOpcodeCounts g); [contradiction|]. reflexivity.
Qed.

(** X18.  [historyInit] can be called any number of times: a second call
    changes nothing.  While the checks are enabled and the two buffers are
    allocated, a call changes nothing either, so the history recorded so
    far and the counts are kept when a breakpoint is added or removed. *)
Theorem historyInit_idempotent (g : Debugger) :
  historyInit (historyInit g) = historyInit g
  /\ (checksEnabled g false = true ->
      aOpcodeHistory g <> [] -> aaOpcodeCounts g <> [] -> historyInit g = g).
Proof.
  split; [|apply historyInit_allocated].
  destruct (checksEnabled g false) eqn:H.
  - destruct (historyInit_enabled g H) as (Hh & Hc & _).
    apply historyInit_allocated; [|exact Hh|exact Hc].
    rewrite checksEnabled_historyInit. exact H.
  - unfold historyInit at 1. rewrite checksEnabled_historyInit, H. cbn [negb].
    destruct (historyInit_disabled g H) as (Hh & Hc). rewrite Hh. cbn [isEmpty negb].
    unfold historyInit. rewrite H. cbn [negb]. reflexivity.
Qed.

End ClearingFacts.

(** ** More of the expression evaluator *)

Section ExpressionMore.

Context {env : Env}.
Variable parseValue : string -> option Z.

(** An operand that cannot be read stops the loop with an error. *)
Lemma parseLoop_unread sValue rest sExp aVals aOps :
  trim str sValue = "" \/ parseValue (trim str sValue) = None ->
  ps_fError (parseLoop parseValue (sValue :: rest) sExp aVals aOps) = true.
Proof.
  intros H. cbn [parseLoop].
  destruct (trim str sValue) as [|t0 ts] eqn:E; [reflexivity|].
  destruct H as [H|H]; [discriminate|]. rewrite H. reflexivity.
Qed.

Lemma operand_or_unread s :
  noBinOp s = true ->
  (exists v, Operand parseValue s v)
  \/ trim str s = "" \/ parseValue (trim str s) = None.
Proof.
  intros Hs. destruct (trim str s) as [|t0 ts] eqn:E; [right; left; reflexivity|].
  destruct (parseValue (String t0 ts)) as [v|] eqn:Ev; [|right; right; reflexivity].
  left. exists v. unfold Operand. rewrite E. split; [exact Hs|].
  split; [discriminate|exact Ev].
Qed.

(** The loop does not end without an error before it has met every
    operand: an operand that trims to nothing is an error. *)
Lemma parseLoop_empty_piece : forall n sExp aVals aOps p,
  (String.length sExp <= n)%nat ->
  List.In p (split sExp) -> trim str p = "" ->
  ps_fError (parseLoop parseValue (split sExp) sExp aVals aOps) = true.
Proof.
  induction n as [|n IH]; intros sExp aVals aOps p Hn Hin Hp.
  - destruct sExp; [|cbn in Hn; lia]. cbn in Hin. destruct Hin as [<-|[]].
    apply parseLoop_unread. left. exact Hp.
  - destruct (expression_cases sExp) as [H|(s & c & r & -> & Hs & Hc)].
    + rewrite (split_operand _ H) in *. destruct Hin as [<-|[]].
      apply parseLoop_unread. left. exact Hp.
    + rewrite (split_app s c r Hs Hc) in *.
      destruct (operand_or_unread s Hs) as [(v & Hv)|Hu];
        [|apply parseLoop_unread; exact Hu].
      destruct Hin as [<-|Hin].
      * apply parseLoop_unread. left. exact Hp.
      * rewrite (parseLoop_operand parseValue s v c r _ _ _ Hv).
        apply (IH r _ _ p); [|exact Hin|exact Hp].
        pose proof (length_operator s c r). lia.
Qed.

(** X19.  An operand must stand on each side of every operator: when one
    of the pieces between the operators of an expression is empty or
    blank, as for a leading sign, an operator at the end, or two operators
    in a row, [parseExpression] returns [undefined]. *)
Theorem parseExpression_empty_operand (sExp p : string) (fPrint : bool) :
  List.In p (split sExp) -> trim str p = "" ->
  fst (parseExpression parseValue sExp fPrint) = None.
Proof.
  intros Hin Hp. unfold parseExpression.
  rewrite (parseLoop_empty_piece (String.length sExp) sExp [] [] p (le_n _) Hin Hp).
  destruct (evalExpression _ _ None) as [[ok aVals] aOps].
  destruct (negb ok || negb (Z.of_nat (List.length aVals) =? 1)); reflexivity.
Qed.

(** X20.  An expression that is a single operand has the value
    [parseValue] reads, as it is: no operator is applied, so the value is
    not brought to 32 bits. *)
Theorem parseExpression_single_operand (s : string) (v : Z) (fPrint : bool) :
  Operand parseValue s v ->
  fst (parseExpression parseValue s fPrint) = Some v.
Proof.
  intros Hv. unfold parseExpression.
  rewrite (split_operand s (proj1 Hv)), (parseLoop_last parseValue s v [] [] [] Hv).
  cbn [ps_aVals ps_aOps ps_fError]. unfold evalExpression.
  rewrite evalLoop_done. cbn. reflexivity.
Qed.

(** *** Results of operators are 32-bit *)

Lemma evalLoop_top_int32 : forall aOps aVals cOps v rest os,
  aOps <> [] -> cOps <> 0 ->
  evalLoop aVals aOps cOps = (true, v :: rest, os) ->
  - 2 ^ 31 <= v < 2 ^ 31.
Proof.
  induction aOps as [|chOp aOps IH]; intros aVals cOps v rest os Hne Hc E;
    [contradiction|].
  destruct aVals as [|val2 [|val1 aVals]].
  - cbn [evalLoop] in E. unfold JS.truthy in E.
    destruct (Z.eqb_spec cOps 0); [contradiction|]. discriminate.
  - rewrite evalLoop_short in E by exact Hc. discriminate.
  - rewrite evalLoop_step in E by exact Hc. unfold binop32 in E.
    destruct (binop chOp val1 val2) as [r|]; [|discriminate].
    destruct aOps as [|chOp2 aOps].
    + rewrite evalLoop_done in E. injection E as <- _ _.
      rewrite bor_zero. apply toInt32_range.
    + destruct (Z.eq_dec (cOps - 1) 0) as [Hz|Hz].
      * rewrite Hz, evalLoop_stop in E. injection E as <- _ _.
        rewrite bor_zero. apply toInt32_range.
      * apply (IH _ _ _ _ _ ltac:(discriminate) Hz E).
Qed.

(** Once an operator is on the stack, the loop ends with an operator on
    the stack or with an error. *)
Lemma parseLoop_keeps_operator : forall n sExp aVals aOps,
  (String.length sExp <= n)%nat ->
  aOps <> [] ->
  ps_fError (parseLoop parseValue (split sExp) sExp aVals aOps) = false ->
  ps_aOps (parseLoop parseValue (split sExp) sExp aVals aOps) <> [].
Proof.
  induction n as [|n IH]; intros sExp aVals aOps Hn Hne Hf;
    (destruct (expression_cases sExp) as [H|(s & c & r & -> & Hs & Hc)];
     [rewrite (split_operand _ H) in *;
      destruct (operand_or_unread sExp H) as [(v & Hv)|Hu];
      [rewrite (parseLoop_last parseValue sExp v [] aVals aOps Hv); exact Hne
      |rewrite (parseLoop_unread _ _ _ _ _ Hu) in Hf; discriminate]
     |]).
  - pose proof (length_operator s c r). lia.
  - rewrite (split_app s c r Hs Hc) in *.
    destruct (operand_or_unread s Hs) as [(v & Hv)|Hu];
      [|rewrite (parseLoop_unread _ _ _ _ _ Hu) in Hf; discriminate].
    rewrite (parseLoop_operand parseValue s v c r _ _ _ Hv) in *.
    apply IH; [|discriminate|exact Hf].
    pose proof (length_operator s c r). lia.
Qed.

(** X21.  The value of an expression with at least one operator is a
    32-bit integer: every result of an operator is brought to 32 bits
    with [| 0] before it is stored, and the value returned is the last
    result. *)
Theorem parseExpression_int32 (sExp : string) (fPrint : bool) (v : Z) :
  (2 <= List.length (split sExp))%nat ->
  fst (parseExpression parseValue sExp fPrint) = Some v ->
  - 2 ^ 31 <= v < 2 ^ 31.
Proof.
  intros Hl. unfold parseExpression.
  destruct (expression_cases sExp) as [H|(s & c & r & -> & Hs & Hc)].
  { rewrite (split_operand _ H) in Hl. cbn in Hl. lia. }
  rewrite (split_app s c r Hs Hc).
  destruct (operand_or_unread s Hs) as [(v1 & Hv)|Hu].
  - rewrite (parseLoop_operand parseValue s v1 c r _ _ _ Hv).
    cbn [reduceIfLower fst snd].
    pose proof (parseLoop_keeps_operator (String.length r) r [v1] [c] (le_n _)
                  ltac:(discriminate)) as K.
    set (st := parseLoop parseValue (split r) r [v1] [c]) in *.
    destruct (evalExpression (ps_aVals st) (ps_aOps st) None) as [[ok aVals] aOps] eqn:E.
    destruct ok; cbn [negb orb].
    + destruct (Z.eqb_spec (Z.of_nat (List.length aVals)) 1); cbn [negb].
      * destruct (ps_fError st) eqn:Hf; cbn [negb]; [discriminate|].
        destruct aVals as [|value rest]; [discriminate|].
        cbn [fst]. intros [= <-].
        unfold evalExpression in E. cbn [JS.or_default] in E.
        apply (evalLoop_top_int32 (ps_aOps st) (ps_aVals st) (-1) value rest aOps);
          [apply K; reflexivity|discriminate|exact E].
      * discriminate.
    + discriminate.
  - rewrite (parseLoop_unread _ _ _ _ _ Hu).
    destruct (evalExpression _ _ None) as [[ok aVals] aOps].
    destruct (negb ok || negb (Z.of_nat (List.length aVals) =? 1)); discriminate.
Qed.

End ExpressionMore.

(** ** How far the decoder reads *)

Section DecoderBounds.

Context {env : Env}.
Variable g : Debugger.






























Hypothesis Htable : List.Forall (fun r : OpDesc => (List.length r <= 4)%nat) (aaOpDescs g).





End DecoderBounds.



(** X23.  A general register operand of variable size is printed by its
    number: register [n] has the [n]-th of the names AX, CX, DX, BX, SP,
    BP, SI, DI when the operand size is 16 bits, and that same name after
    an E when it is 32 bits.  So the operand is never undefined. *)
Theorem getRegOperand_operand_size {env : Env} (g : Debugger) (bReg type : Z) (d : DbgAddr) :
  0 <= bReg < 8 ->
  JS.band type TYPE_MODE <> TYPE_SEGREG -> JS.band type TYPE_MODE <> TYPE_CTLREG ->
  JS.band type TYPE_MODE <> TYPE_DBGREG -> JS.band type TYPE_MODE <> TYPE_TSTREG ->
  JS.band type TYPE_SIZE = TYPE_VWORD ->
  getRegOperand g bReg type d
  = Some ((if fData32 d then "E" else "")
          ++ List.nth (Z.to_nat bReg) ["AX"; "CX"; "DX"; "BX"; "SP"; "BP"; "SI"; "DI"] "").
Proof.
  intros Hb H1 H2 H3 H4 Hsz. unfold getRegOperand. cbv zeta.
  apply Z.eqb_neq in H1, H2, H3, H4. rewrite H1, H2, H3, H4, Hsz.
  assert (C : bReg = 0 \/ bReg = 1 \/ bReg = 2 \/ bReg = 3
              \/ bReg = 4 \/ bReg = 5 \/ bReg = 6 \/ bReg = 7) by lia.
  destruct C as [->|[->|[->|[->|[->|[->|[->| ->]]]]]]];
    destruct (fData32 d); reflexivity.
Qed.

(** ** Instruction tracking and the history ring *)

(** *** A principle for invariants of the breakpoint functions *)

Section Invariance.

Context {env : Env}.

Variable P : Debugger -> Prop.

Hypothesis P_println : forall g s, P g -> P (println g s).
Hypothesis P_busCall : forall g c, P g -> P (busCall g c).
Hypothesis P_setBreak : forall g k a, P g -> P (setBreak g k a).
Hypothesis P_set_nSuppressBreaks : forall g n, P g -> P (set_nSuppressBreaks g n).
Hypothesis P_historyInit : forall g, P g -> P (historyInit g).

Lemma findBreakpoint_inv g k d fRemove :
  P g -> P (snd (fst (findBreakpoint g k d fRemove))).
Proof.
  intros H. unfold findBreakpoint.
  destruct (getAddr g d false None) as [a0 d1].
  destruct (scanBreak g (mapBreakpoint g a0) d1 (entries (getBreak g k))) as [[v h] r].
  destruct h as [e|]; [|cbn [fst snd]; auto].
  destruct fRemove; cbn [fst snd]; [|auto].
  apply P_historyInit.
  destruct (negb (fTempBreak e)); destruct (negb (isExec k)); auto.
Qed.

Lemma addBreakpoint_inv g k d fTemp :
  P g -> P (snd (fst (addBreakpoint g k d fTemp))).
Proof.
  intros H. unfold addBreakpoint.
  pose proof (findBreakpoint_inv (set_nSuppressBreaks g (nSuppressBreaks g + 1)) k d false
                (P_set_nSuppressBreaks _ _ H)) as F.
  destruct (findBreakpoint _ k d false) as [[f g1] d1]. cbn [fst snd] in F.
  destruct (negb f); cbn [fst snd]; [|auto].
  destruct (if negb (isExec k) then getAddr g1 (set_fTempBreak d1 fTemp) false None
            else (0, set_fTempBreak d1 fTemp)) as [a3 d3].
  cbn [fst snd]. apply P_set_nSuppressBreaks.
  destruct (negb fTemp); destruct fTemp; destruct (negb (isExec k)); auto 10.
Qed.

Lemma checkLoop_inv g a nb k fTemp : forall rest visited,
  P g -> P (snd (checkLoop g a nb k fTemp visited rest)).
Proof.
  induction rest as [|e rest IH]; intros visited H; cbn [checkLoop]; [cbn; auto|].
  destruct (resolveBreak g e) as [ab e'].
  destruct (rangeHit (Z.to_nat nb) a 0 nb ab); [|apply IH; exact H].
  cbn [snd]. destruct (fTempBreak e').
  - apply findBreakpoint_inv. auto.
  - destruct (negb fTemp); auto.
Qed.

Lemma checkBreakpoint_inv g a nb k fTemp :
  P g -> P (snd (checkBreakpoint g a nb k fTemp)).
Proof.
  intros H. unfold checkBreakpoint.
  set (g0 := set_nSuppressBreaks g (nSuppressBreaks g + 1)).
  assert (H0 : P g0) by (apply P_set_nSuppressBreaks; exact H).
  destruct (negb (JS.truthy (nSuppressBreaks g))); [|cbn [snd]; auto].
  destruct (if messageEnabled g0 (JS.bor (MESSAGES_INT msgs) (MESSAGES_HALT msgs))
            then probeAddr (cpu g0) (mapBreakpoint g0 a) =? OPCODE_INT3 x86
            else false); [cbn [snd]; auto|].
  pose proof (checkLoop_inv g0 (mapBreakpoint g0 a) nb k fTemp
                (entries (getBreak g0 k)) [] H0) as C.
  destruct (checkLoop _ _ _ _ _ _ _) as [b g1]. cbn [snd] in *. auto.
Qed.

End Invariance.

Section TrackingFacts.

Context {env : Env}.

Lemma historyOK_fields g g' :
  aOpcodeHistory g' = aOpcodeHistory g -> iOpcodeHistory g' = iOpcodeHistory g ->
  historyOK g -> historyOK g'.
Proof. unfold historyOK. intros -> ->. tauto. Qed.

Lemma historyOK_historyInit g : historyOK g -> historyOK (historyInit g).
Proof.
  intros H. unfold historyInit.
  destruct (negb (checksEnabled g false)).
  - left. split; reflexivity.
  - destruct (aOpcodeHistory g) as [|h0 hs] eqn:Eh; cbn [isEmpty].
    + match goal with |- historyOK (if ?c then ?x else ?y) =>
        assert (K : historyOK y); [|destruct c; [|exact K];
          revert K; apply historyOK_fields; reflexivity] end.
      right. cbn [println set_history aOpcodeHistory iOpcodeHistory].
      rewrite List.repeat_length. unfold HISTORY_LIMIT. lia.
    + match goal with |- historyOK (if ?c then ?x else ?y) =>
        destruct c; [|exact H]; revert H; apply historyOK_fields; reflexivity end.
Qed.

Lemma length_js_update {A} (l : list A) i v :
  0 <= i < Z.of_nat (List.length l) -> List.length (js_update l i v) = List.length l.
Proof.
  intros H. unfold js_update.
  rewrite List.length_app, List.length_firstn. cbn [List.length].
  rewrite List.length_skipn. lia.
Qed.

Lemma js_index_range {A} (l : list A) i x :
  js_index l i = Some x -> 0 <= i < Z.of_nat (List.length l).
Proof.
  unfold js_index. destruct (Z.ltb_spec i 0); [discriminate|].
  intros E. assert (List.nth_error l (Z.to_nat i) <> None) by congruence.
  apply List.nth_error_Some in H0. lia.
Qed.

Lemma js_index_update_same {A} (l : list A) i v :
  0 <= i < Z.of_nat (List.length l) -> js_index (js_update l i v) i = Some v.
Proof.
  intros H. unfold js_index, js_update.
  destruct (Z.ltb_spec i 0); [lia|].
  rewrite List.nth_error_app2 by (rewrite List.length_firstn; lia).
  rewrite List.length_firstn.
  replace (Z.to_nat i - Nat.min (Z.to_nat i) (List.length l))%nat with 0%nat by lia.
  reflexivity.
Qed.

Lemma js_index_update_other {A} (l : list A) i j v :
  0 <= i < Z.of_nat (List.length l) -> j <> i ->
  js_index (js_update l i v) j = js_index l j.
Proof.
  intros H Hj. unfold js_index, js_update.
  destruct (Z.ltb_spec j 0); [reflexivity|].
  destruct (Z.lt_ge_cases j i) as [Hlt|Hge].
  - rewrite List.nth_error_app1 by (rewrite List.length_firstn; lia).
    rewrite List.nth_error_firstn.
    destruct (Nat.ltb_spec (Z.to_nat j) (Z.to_nat i)); [reflexivity|lia].
  - rewrite List.nth_error_app2 by (rewrite List.length_firstn; lia).
    rewrite List.length_firstn.
    replace (Z.to_nat j - Nat.min (Z.to_nat i) (List.length l))%nat
      with (S (Z.to_nat j - S (Z.to_nat i)))%nat by lia.
    cbn [List.nth_error]. rewrite List.nth_error_skipn. f_equal. lia.
Qed.

Variable pv : Privilege.
Variable printMessage : Debugger -> string -> Debugger.

Lemma trackInstruction_historyOK g cI a r :
  trackInstruction pv g cI a = Some r -> historyOK (fst r).
Proof.
  unfold trackInstruction. cbv zeta.
  destruct (js_index (aaOpcodeCounts g) (probeAddr (cpu g) a)) as [[i n]|];
    [|discriminate].
  destruct (js_index (aOpcodeHistory g) (iOpcodeHistory g)) as [e|] eqn:E;
    [|discriminate].
  apply js_index_range in E. intros [= <-]. right.
  cbn [fst set_history aOpcodeHistory iOpcodeHistory].
  rewrite length_js_update by exact E.
  destruct (Z.eqb_spec (iOpcodeHistory g + 1) (Z.of_nat (List.length (aOpcodeHistory g))));
    lia.
Qed.

(** X24.  The index of the history ring always points into the ring:
    when it does (or when there is no ring and it is zero), it still does
    after [historyInit], after any of the breakpoint functions, which call
    [historyInit] when they remove or add a breakpoint, and after
    [checkInstruction] has recorded an instruction, which moves the index
    to the next slot and back to zero after the last one. *)
Theorem history_index_in_ring (g : Debugger) (k : BreakKind) (d : DbgAddr)
        (fTemp fRemove : bool) (a nb cInstructions nState : Z) :
  historyOK g ->
  historyOK (historyInit g)
  /\ historyOK (snd (fst (addBreakpoint g k d fTemp)))
  /\ historyOK (snd (fst (findBreakpoint g k d fRemove)))
  /\ historyOK (snd (checkBreakpoint g a nb k fTemp))
  /\ ((forall g0 s, historyOK g0 -> historyOK (printMessage g0 s)) ->
      forall r, checkInstruction pv printMessage g cInstructions a nState = Some r ->
                historyOK (snd (fst r))).
Proof.
  intros H.
  assert (I1 : forall g s, historyOK g -> historyOK (println g s))
    by (intros g0 s; apply historyOK_fields; reflexivity).
  assert (I2 : forall g c, historyOK g -> historyOK (busCall g c))
    by (intros g0 c; apply historyOK_fields; reflexivity).
  assert (I3 : forall g k a, historyOK g -> historyOK (setBreak g k a))
    by (intros g0 k0 a0; apply historyOK_fields; destruct k0; reflexivity).
  assert (I4 : forall g n, historyOK g -> historyOK (set_nSuppressBreaks g n))
    by (intros g0 n; apply historyOK_fields; reflexivity).
  assert (I5 : forall g, historyOK g -> historyOK (historyInit g))
    by exact historyOK_historyInit.
  assert (C : forall g a nb k fTemp,
             historyOK g -> historyOK (snd (checkBreakpoint g a nb k fTemp)))
    by (intros; apply checkBreakpoint_inv; assumption).
  split; [apply I5; exact H|].
  split; [apply addBreakpoint_inv; assumption|].
  split; [apply findBreakpoint_inv; assumption|].
  split; [apply C; exact H|].
  intros Hp r. unfold checkInstruction.
  set (stop := if 0 <? nState then _ else (false, g)).
  assert (Hs : historyOK (snd stop)).
  { subst stop. destruct (0 <? nState); [|exact H].
    pose proof (C g a 1 BreakExec false H) as C1.
    destruct (checkBreakpoint g a 1 BreakExec false) as [fBreak g1]. cbn [snd] in C1.
    destruct fBreak; [exact C1|].
    destruct (negb (JS.truthy (JS.band (regPS (cpu g1)) (PS_IF pv)))
              && (nIOPL pv <? nCPL pv)); cbn [snd]; auto. }
  destruct stop as [fStop g1]. cbn [snd] in Hs.
  destruct fStop; [intros [= <-]; exact Hs|].
  destruct ((0 <=? nState) && negb (isEmpty (aaOpcodeCounts g1)));
    [|intros [= <-]; exact Hs].
  destruct (trackInstruction pv g1 cInstructions a) as [[g2 c2]|] eqn:E; [|discriminate].
  intros [= <-]. cbn [fst snd]. exact (trackInstruction_historyOK g1 _ _ _ E).
Qed.

(** X25.  What [checkInstruction] records.  While stepping ([nState] below
    zero) it records nothing and returns false.  When an instruction
    starts ([nState] zero), the count table is allocated, the opcode byte
    at the address is an index of it and the ring index is a slot of the
    ring, it returns false without an error, adds one to the instruction
    counter and to the count of that opcode and to no other count, stores
    the address with CS and IP in the slot the index pointed at and in no
    other slot, and moves the index to the next slot, or to zero from the
    last one.  Neither table changes its length. *)
Theorem checkInstruction_records (g : Debugger) (cInstructions a nState : Z) :
  (nState < 0 ->
   checkInstruction pv printMessage g cInstructions a nState
   = Some (false, g, cInstructions))
  /\ (nState = 0 ->
      0 <= probeAddr (cpu g) a < Z.of_nat (List.length (aaOpcodeCounts g)) ->
      0 <= iOpcodeHistory g < Z.of_nat (List.length (aOpcodeHistory g)) ->
      exists g' i n e,
        checkInstruction pv printMessage g cInstructions a nState
        = Some (false, g', cInstructions + 1)
        /\ js_index (aaOpcodeCounts g) (probeAddr (cpu g) a) = Some (i, n)
        /\ js_index (aaOpcodeCounts g') (probeAddr (cpu g) a) = Some (i, n + 1)
        /\ (forall j, j <> probeAddr (cpu g) a ->
                      js_index (aaOpcodeCounts g') j = js_index (aaOpcodeCounts g) j)
        /\ js_index (aOpcodeHistory g') (iOpcodeHistory g) = Some e
        /\ addr e = Some a /\ sel e = Some (getCS (cpu g)) /\ off e = getIP pv
        /\ (forall j, j <> iOpcodeHistory g ->
                      js_index (aOpcodeHistory g') j = js_index (aOpcodeHistory g) j)
        /\ iOpcodeHistory g'
           = (iOpcodeHistory g + 1) mod Z.of_nat (List.length (aOpcodeHistory g))
        /\ List.length (aaOpcodeCounts g') = List.length (aaOpcodeCounts g)
        /\ List.length (aOpcodeHistory g') = List.length (aOpcodeHistory g)).
Proof.
  split.
  - intros Hn. unfold checkInstruction.
    destruct (Z.ltb_spec 0 nState); [lia|].
    destruct (Z.leb_spec 0 nState); [lia|]. reflexivity.
  - intros -> Hb Hi. unfold checkInstruction. cbn [Z.ltb Z.leb Z.compare andb].
    assert (Hne : isEmpty (aaOpcodeCounts g) = false).
    { destruct (aaOpcodeCounts g); [cbn in Hb; lia|reflexivity]. }
    rewrite Hne. cbn [negb]. unfold trackInstruction. cbv zeta.
    destruct (js_index (aaOpcodeCounts g) (probeAddr (cpu g) a)) as [[i n]|] eqn:Ec.
    2:{ exfalso. unfold js_index in Ec.
        destruct (Z.ltb_spec (probeAddr (cpu g) a) 0); [lia|].
        apply List.nth_error_None in Ec. lia. }
    destruct (js_index (aOpcodeHistory g) (iOpcodeHistory g)) as [e|] eqn:Eh.
    2:{ exfalso. unfold js_index in Eh.
        destruct (Z.ltb_spec (iOpcodeHistory g) 0); [lia|].
        apply List.nth_error_None in Eh. lia. }
    eexists _, i, n, _. split; [reflexivity|].
    cbn [set_history aaOpcodeCounts aOpcodeHistory iOpcodeHistory].
    split; [reflexivity|].
    split; [apply js_index_update_same; exact Hb|].
    split; [intros j Hj; apply js_index_update_other; assumption|].
    split; [apply js_index_update_same; exact Hi|].
    split; [reflexivity|]. split; [reflexivity|]. split; [reflexivity|].
    split; [intros j Hj; apply js_index_update_other; assumption|].
    split.
    + destruct (Z.eqb_spec (iOpcodeHistory g + 1)
                           (Z.of_nat (List.length (aOpcodeHistory g)))) as [E|E].
      * rewrite E, Z.mod_same by lia. reflexivity.
      * rewrite Z.mod_small by lia. reflexivity.
    + split; apply length_js_update; assumption.
Qed.

End TrackingFacts.

(** ** More of the alias fold, the prefixes and the commands *)

Section FoldMore.
Context {env : Env}.

Lemma land_top_bits m r :
  0 <= m -> 0 <= r < 2 ^ 16 ->
  Z.land (m * 2 ^ 16 + r) (m * 2 ^ 16) = m * 2 ^ 16.
Proof.
  intros Hm Hr. apply Z.bits_inj'. intros i Hi.
  rewrite Z.land_spec.
  destruct (Z.lt_ge_cases i 16) as [Hlt|Hge].
  - rewrite (Z.mul_pow2_bits_low m 16 i) by lia. apply Bool.andb_false_r.
  - assert (E : forall x, Z.testbit x i = Z.testbit (x / 2 ^ 16) (i - 16)).
    { intros x. rewrite Z.div_pow2_bits by lia. f_equal. lia. }
    rewrite (E (m * 2 ^ 16 + r)), (E (m * 2 ^ 16)).
    rewrite Z.div_add_l, Z.div_small, Z.add_0_r by lia.
    rewrite Z.div_mul by lia. apply Bool.andb_diag.
Qed.

(** X26.  On a bus of 20 to 31 address bits, an address in the top 64Kb of
    the bus is folded to the address with the same low 16 bits in the top
    64Kb of the first megabyte. *)
Theorem mapBreakpoint_top_64K (g : Debugger) (k a : Z) :
  20 <= k <= 31 -> maskAddr g = 2 ^ k - 1 ->
  2 ^ k - 2 ^ 16 <= a < 2 ^ k -> a <> ADDR_INVALID x86 ->
  mapBreakpoint g a = 0xF0000 + a mod 2 ^ 16.
Proof.
  intros Hk HM Ha Hv. unfold mapBreakpoint.
  destruct (Z.eqb_spec a (ADDR_INVALID x86)); [contradiction|]. cbn [negb].
  assert (Hk31 : 2 ^ k <= 2 ^ 31) by (apply Z.pow_le_mono_r; lia).
  assert (Hk20 : 2 ^ 20 <= 2 ^ k) by (apply Z.pow_le_mono_r; lia).
  assert (Hpow : 2 ^ k = 2 ^ (k - 16) * 2 ^ 16)
    by (rewrite <- Z.pow_add_r by lia; f_equal; lia).
  assert (Hpow20 : 2 ^ k = 2 ^ (k - 20) * 2 ^ 20)
    by (rewrite <- Z.pow_add_r by lia; f_equal; lia).
  assert (Hp1 : 1 <= 2 ^ (k - 16)) by (apply (Z.pow_le_mono_r 2 0 (k - 16)); lia).
  assert (Hp20 : 1 <= 2 ^ (k - 20)) by (apply (Z.pow_le_mono_r 2 0 (k - 20)); lia).
  assert (Em : JS.band (maskAddr g) (JS.bnot 65535) = (2 ^ (k - 16) - 1) * 2 ^ 16).
  { rewrite band_bnot16, HM, toInt32_small by lia.
    rewrite Z.shiftr_div_pow2, Z.shiftl_mul_pow2 by lia. f_equal.
    symmetry. apply (Z.div_unique (2 ^ k - 1) (2 ^ 16) _ (2 ^ 16 - 1)); lia. }
  rewrite Em.
  set (m := 2 ^ (k - 16) - 1) in *.
  set (r := a - m * 2 ^ 16).
  assert (Hr : 0 <= r < 2 ^ 16) by (subst r m; lia).
  assert (Ea : a = m * 2 ^ 16 + r) by (subst r; lia).
  assert (Eb : JS.band a (m * 2 ^ 16) = m * 2 ^ 16).
  { unfold JS.band. rewrite !toInt32_small by (subst m; lia).
    rewrite Ea. apply land_top_bits; subst m; lia. }
  rewrite Eb, Z.eqb_refl.
  unfold JS.band. rewrite toInt32_small by lia.
  change (JS.toInt32 1048575) with (Z.ones 20). rewrite Z.land_ones by lia.
  assert (Er : a mod 2 ^ 16 = r).
  { rewrite Ea, Z.add_comm, Z.mod_add by lia. apply Z.mod_small. exact Hr. }
  rewrite Er.
  replace a with ((983040 + r) + (2 ^ (k - 20) - 1) * 2 ^ 20) by (subst r m; lia).
  rewrite Z.mod_add by lia. apply Z.mod_small. lia.
Qed.

End FoldMore.

Section PrefixFacts.
Context {env : Env}.

Lemma getAddr_sizes g d fWrite nb :
  fData32 (snd (getAddr g d fWrite nb)) = fData32 d
  /\ fAddr32 (snd (getAddr g d fWrite nb)) = fAddr32 d.
Proof.
  unfold getAddr. destruct (addr d); [split; reflexivity|].
  destruct (getSegment g (sel d) (fProt d)); split; reflexivity.
Qed.

Lemma checkLimit_sizes g d :
  fData32 (checkLimit g d) = fData32 d /\ fAddr32 (checkLimit g d) = fAddr32 d.
Proof.
  unfold checkLimit. destruct (sel d); [|split; reflexivity].
  destruct (getSegment g (Some z) (fProt d)); [|split; reflexivity].
  destruct (_ <=? _); split; reflexivity.
Qed.

Lemma incAddr_sizes g d inc :
  fData32 (incAddr g d inc) = fData32 d /\ fAddr32 (incAddr g d inc) = fAddr32 d.
Proof.
  unfold incAddr.
  set (d1 := match addr d with Some a => _ | None => d end).
  assert (E : fData32 d1 = fData32 d /\ fAddr32 d1 = fAddr32 d)
    by (subst d1; destruct (addr d); split; reflexivity).
  destruct (sel d1); [|exact E].
  destruct (checkLimit_sizes g (set_off d1 (off d1 + (if JS.truthy inc then inc else 1))))
    as [E1 E2].
  rewrite E1, E2. exact E.
Qed.

Lemma getByte_sizes g d inc :
  fData32 (snd (getByte g d inc)) = fData32 d
  /\ fAddr32 (snd (getByte g d inc)) = fAddr32 d.
Proof.
  unfold getByte. pose proof (getAddr_sizes g d false (Some 1)) as E.
  destruct (getAddr g d false (Some 1)) as [a d1]. cbn [snd] in E.
  destruct (negb (a =? ADDR_INVALID x86)); cbn [snd]; [|exact E].
  destruct (JS.truthy inc); [|exact E].
  destruct (incAddr_sizes g d1 inc) as [E1 E2]. rewrite E1, E2. exact E.
Qed.

Lemma prefixLoop_sizes g cMax : forall b fd0 fa0 d,
  let r := prefixLoop g cMax b fd0 fa0 d in
  fData32 (snd r) = xorb (fData32 d) (xorb fd0 (snd (fst (fst r))))
  /\ fAddr32 (snd r) = xorb (fAddr32 d) (xorb fa0 (snd (fst r)))
  /\ (fd0 = true -> snd (fst (fst r)) = true)
  /\ (fa0 = true -> snd (fst r) = true).
Proof.
  assert (X : forall x y, xorb x (xorb y y) = x) by (intros [] []; reflexivity).
  induction cMax as [|n IH]; intros b fd0 fa0 d; cbn zeta.
  - cbn [prefixLoop]. destruct (_ || _); cbn; rewrite !X; tauto.
  - cbn [prefixLoop]. destruct ((b =? OPCODE_OS x86) || (b =? OPCODE_AS x86));
      [|cbn; rewrite !X; tauto].
    destruct (b =? OPCODE_OS x86).
    + destruct fd0; cbn [negb].
      * unfold bind, ret. cbn [fst snd].
        change (readByte g 1 d) with (getByte g d 1).
        destruct (getByte_sizes g d 1) as [E1 E2].
        destruct (getByte g d 1) as [b1 d1]. cbn [fst snd] in *.
        specialize (IH b1 true fa0 d1). cbn zeta in IH.
        rewrite E1, E2 in IH. exact IH.
      * unfold bind, ret, modify. cbn [fst snd].
        change (readByte g 1 ?x) with (getByte g x 1).
        destruct (getByte_sizes g (set_fData32 d (negb (fData32 d))) 1) as [E1 E2].
        destruct (getByte g (set_fData32 d (negb (fData32 d))) 1) as [b1 d1].
        cbn [fst snd] in *.
        specialize (IH b1 true fa0 d1). cbn zeta in IH.
        rewrite E1, E2 in IH.
        change (fData32 (set_fData32 d (negb (fData32 d)))) with (negb (fData32 d)) in IH.
        change (fAddr32 (set_fData32 d (negb (fData32 d)))) with (fAddr32 d) in IH.
        destruct IH as (I1 & I2 & I3 & I4). rewrite (I3 eq_refl) in *.
        repeat split; try assumption; try discriminate.
        rewrite I1. destruct (fData32 d); reflexivity.
    + destruct fa0; cbn [negb].
      * unfold bind, ret. cbn [fst snd].
        change (readByte g 1 d) with (getByte g d 1).
        destruct (getByte_sizes g d 1) as [E1 E2].
        destruct (getByte g d 1) as [b1 d1]. cbn [fst snd] in *.
        specialize (IH b1 fd0 true d1). cbn zeta in IH.
        rewrite E1, E2 in IH. exact IH.
      * unfold bind, ret, modify. cbn [fst snd].
        change (readByte g 1 ?x) with (getByte g x 1).
        destruct (getByte_sizes g (set_fAddr32 d (negb (fAddr32 d))) 1) as [E1 E2].
        destruct (getByte g (set_fAddr32 d (negb (fAddr32 d))) 1) as [b1 d1].
        cbn [fst snd] in *.
        specialize (IH b1 fd0 true d1). cbn zeta in IH.
        rewrite E1, E2 in IH.
        change (fAddr32 (set_fAddr32 d (negb (fAddr32 d)))) with (negb (fAddr32 d)) in IH.
        change (fData32 (set_fAddr32 d (negb (fAddr32 d)))) with (fData32 d) in IH.
        destruct IH as (I1 & I2 & I3 & I4). rewrite (I4 eq_refl) in *.
        repeat split; try assumption; try discriminate.
        rewrite I2. destruct (fAddr32 d); reflexivity.
Qed.

(** X27.  However many operand-size and address-size prefixes precede an
    opcode, each of the two sizes of the address object is switched at most
    once: after the loop the operand size is the opposite of what it was
    exactly when the loop reports an operand-size prefix, and likewise the
    address size. *)
Theorem prefixLoop_toggles_once (g : Debugger) (cMax : nat) (b : Z) (d : DbgAddr) :
  let '(_, fDataPrefix, fAddrPrefix, d') := prefixLoop g cMax b false false d in
  fData32 d' = xorb (fData32 d) fDataPrefix
  /\ fAddr32 d' = xorb (fAddr32 d) fAddrPrefix.
Proof.
  pose proof (prefixLoop_sizes g cMax b false false d) as H. cbn zeta in H.
  destruct (prefixLoop g cMax b false false d) as [[[b' fd] fa] d'].
  cbn [fst snd] in H. destruct H as (H1 & H2 & _).
  rewrite H1, H2. destruct fd, fa; tauto.
Qed.

End PrefixFacts.

Section CommandFacts.
Context {env : Env}.

Lemma println_all (lines : list string) : forall g,
  List.fold_left println lines g
  = mkDebugger (cpu g) (segDebugger g) (maskAddr g) (nSuppressBreaks g) (aBreakExec g)
               (aBreakRead g) (aBreakWrite g) (aOpcodeHistory g) (iOpcodeHistory g)
               (aaOpcodeCounts g) (aaOpDescs g) (messageEnabled g) (findSymbolAtAddr g)
               (output g ++ lines)%list (busLog g).
Proof.
  induction lines as [|s lines IH]; intros g; cbn [List.fold_left].
  - rewrite List.app_nil_r. destruct g; reflexivity.
  - rewrite IH. cbn [println cpu segDebugger maskAddr nSuppressBreaks aBreakExec
                     aBreakRead aBreakWrite aOpcodeHistory iOpcodeHistory aaOpcodeCounts
                     aaOpDescs messageEnabled findSymbolAtAddr output busLog].
    rewrite <- List.app_assoc. reflexivity.
Qed.

Lemma fold_left_println_map {A : Type} (f : A -> string) (es : list A) : forall g,
  List.fold_left (fun g e => println g (f e)) es g
  = List.fold_left println (List.map f es) g.
Proof. induction es as [|e es IH]; intros g; [reflexivity|apply IH]. Qed.

Lemma listBreakpoints_lines g k :
  listBreakpoints g k
  = (Z.of_nat (countBreaks g k),
     List.fold_left println
       (List.map (fun e => breakLine "breakpoint enabled: " e (getBreak g k))
                 (entries (getBreak g k))) g).
Proof.
  unfold listBreakpoints, countBreaks, aBreak_length.
  rewrite fold_left_println_map. f_equal. lia.
Qed.

(** X28.  The command [bl] prints one line for each breakpoint, the
    execution breakpoints first, then the read and the write breakpoints,
    each kind in the order of its array, or the line [no breakpoints] when
    the three arrays are empty; the debugger it leaves is the one it found
    with these lines after the lines printed before, and every other field
    as it was. *)
Theorem doBreakList_lines (g : Debugger) :
  let line k e := breakLine "breakpoint enabled: " e (getBreak g k) in
  let lines k := List.map (line k) (entries (getBreak g k)) in
  let all := (lines BreakExec ++ lines BreakRead ++ lines BreakWrite)%list in
  doBreakList g
  = mkDebugger (cpu g) (segDebugger g) (maskAddr g) (nSuppressBreaks g) (aBreakExec g)
               (aBreakRead g) (aBreakWrite g) (aOpcodeHistory g) (iOpcodeHistory g)
               (aaOpcodeCounts g) (aaOpDescs g) (messageEnabled g) (findSymbolAtAddr g)
               (output g ++ (if isEmpty all then ["no breakpoints"] else all))%list
               (busLog g).
Proof.
  cbn zeta. unfold doBreakList.
  rewrite (listBreakpoints_lines g BreakExec), println_all.
  set (g1 := mkDebugger _ _ _ _ _ _ _ _ _ _ _ _ _ _ _).
  rewrite (listBreakpoints_lines g1 BreakRead), println_all.
  set (g2 := mkDebugger _ _ _ _ _ _ _ _ _ _ _ _ _ _ _).
  rewrite (listBreakpoints_lines g2 BreakWrite), println_all.
  subst g2 g1. unfold countBreaks.
  cbn [getBreak cpu segDebugger maskAddr nSuppressBreaks aBreakExec
       aBreakRead aBreakWrite aOpcodeHistory iOpcodeHistory aaOpcodeCounts
       aaOpDescs messageEnabled findSymbolAtAddr output busLog].
  destruct (entries (aBreakExec g)) as [|e1 l1];
    destruct (entries (aBreakRead g)) as [|e2 l2];
    destruct (entries (aBreakWrite g)) as [|e3 l3];
    cbn [List.length List.map List.app isEmpty];
    match goal with
    | |- context [JS.truthy ?z] =>
      let T := fresh in
      assert (T : JS.truthy z = negb (z =? 0)) by reflexivity;
      rewrite T; clear T;
      destruct (Z.eqb_spec z 0) as [Ez|Ez]; try lia
    end; cbn [negb println cpu segDebugger maskAddr nSuppressBreaks aBreakExec
              aBreakRead aBreakWrite aOpcodeHistory iOpcodeHistory aaOpcodeCounts
              aaOpDescs messageEnabled findSymbolAtAddr output busLog];
    rewrite <- ?List.app_assoc; cbn [List.app]; rewrite ?List.app_nil_r; reflexivity.
Qed.

Lemma js_index_head {A} (x : A) l : js_index (x :: l) 0 = Some x.
Proof. reflexivity. Qed.

(** X29.  Once a command that is not empty has been parsed and saved, an
    empty or missing command parsed next gives the same list of commands
    again and leaves the history as it is, whatever the history was. *)
Theorem parseCommand_empty_repeats (h : CmdHistory) (c : ascii) (s : string)
        (chSep : option ascii) :
  let '(a, h1) := parseCommand h (Some (String c s)) true chSep in
  parseCommand h1 None true chSep = (a, h1)
  /\ parseCommand h1 (Some EmptyString) true chSep = (a, h1).
Proof.
  assert (K : forall l i, js_index l i = Some (String c s) ->
              parseCommand (mkCmdHistory l (i - 1)) None true chSep
              = (List.map (trim str)
                   (splitOn (match chSep with Some ch => ch | None => ";"%char end)
                            (String c s)), mkCmdHistory l (i - 1))
              /\ parseCommand (mkCmdHistory l (i - 1)) (Some EmptyString) true chSep
              = (List.map (trim str)
                   (splitOn (match chSep with Some ch => ch | None => ";"%char end)
                            (String c s)), mkCmdHistory l (i - 1))).
  { intros l i E. unfold parseCommand. cbn [aPrevCmds iPrevCmd].
    replace (i - 1 + 1) with i by lia. rewrite E. split; reflexivity. }
  unfold parseCommand at 1. cbn [aPrevCmds iPrevCmd].
  set (i := if (iPrevCmd h <? 0) && negb (isEmpty (aPrevCmds h)) then 0 else iPrevCmd h).
  destruct (i <? 0) eqn:Ei; cbn [orb aPrevCmds iPrevCmd].
  - apply (K (String c s :: aPrevCmds h) 0). reflexivity.
  - destruct (js_index (aPrevCmds h) i) as [s0|] eqn:Ej; cbn [differs].
    + destruct (String.eqb_spec (String c s) s0) as [E|E]; cbn [negb aPrevCmds iPrevCmd].
      * apply K. rewrite Ej, E. reflexivity.
      * apply (K (String c s :: aPrevCmds h) 0). reflexivity.
    + apply (K (String c s :: aPrevCmds h) 0). reflexivity.
Qed.

End CommandFacts.

(** ** The properties on the reference machine *)

Module Examples.

Local Existing Instance PC.env.

(** *** C1 *)

Lemma getInstruction_mov_ax_1234_witness :
  MovScenario PC.dbgReal (PC.segReal 0) (PC.segmented 0 0x100)
  /\ dc_sOpcode (fst (decode PC.dbgReal (PC.segmented 0 0x100))) = "MOV"
  /\ dc_sOperands (fst (decode PC.dbgReal (PC.segmented 0 0x100))) = "AX,1234"
  /\ exists d',
      getInstruction PC.dbgReal 3 (PC.segmented 0 0x100) None None
      = Some (movLine PC.dbgReal (PC.segmented 0 0x100), d')
      /\ off d' = 0x100 + 3 /\ sel d' = Some 0 /\ addr d' = Some (0x100 + 3).
Proof.
  assert (H : MovScenario PC.dbgReal (PC.segReal 0) (PC.segmented 0 0x100)).
  { unfold MovScenario.
    repeat match goal with |- _ /\ _ => split end;
      try reflexivity; try discriminate.
    left. reflexivity. }
  split; [exact H|].
  exact (getInstruction_mov_ax_1234 PC.dbgReal (PC.segReal 0) (PC.segmented 0 0x100)
                                    3 None H (le_n 3)).
Defined.

(** The line itself, with the reference string library. *)
Example getInstruction_mov_ax_1234_line :
  getInstruction PC.dbgReal 3 (PC.segmented 0 0x100) None None
  = Some ("0000:0100 B83412          MOV      AX,1234",
          mkDbgAddr 0x103 (Some 0) (Some 0x103) None false false false
                    (Some 0) (Some true)).
Proof. reflexivity. Qed.

(** *** C2 *)

(** C2.  The machine [Lab.dbgMem] has a read breakpoint on 0x100 and a
    write breakpoint on 0x2000.  A read of the two bytes 0xFF and 0x100
    does not hit the read breakpoint, and a write of the four bytes 0x1FFE
    to 0x2001 does not hit the write breakpoint, although each breakpoint
    lies in the range accessed: every turn of the inner loop adds one to
    the breakpoint address and two to the position, so that only the first
    half of the range is compared.  Accesses that have the breakpoint in
    their first half hit it. *)
Theorem checkBreakpoint_second_byte :
  entries (aBreakRead Lab.dbgMem) = [PC.linear 0x100]
  /\ entries (aBreakWrite Lab.dbgMem) = [PC.linear 0x2000]
  /\ breakAddr Lab.dbgMem (PC.linear 0x100) = 0x100
  /\ breakAddr Lab.dbgMem (PC.linear 0x2000) = 0x2000
  /\ fst (checkBreakpoint Lab.dbgMem 0xFF 2 BreakRead false) = false
  /\ fst (checkBreakpoint Lab.dbgMem 0x100 1 BreakRead false) = true
  /\ fst (checkBreakpoint Lab.dbgMem 0x1FFE 4 BreakWrite false) = false
  /\ fst (checkBreakpoint Lab.dbgMem 0x1FFF 4 BreakWrite false) = true.
Proof. repeat split; reflexivity. Qed.

(** *** C3 *)

(** The claim as stated fails: with a single execution breakpoint and no
    message category tracking is enabled. *)
Lemma history_more_than_one_counterexample :
  ~ (forall (g : Debugger) (fRelease : bool),
        checksEnabled g fRelease = true
        <-> ((1 < execBreakpoints g)%nat
             \/ messageEnabled g (MESSAGES_INT msgs) = true)).
Proof.
  intros H.
  destruct (H (PC.dbgOne 0x100) false) as [H1 _].
  destruct (H1 eq_refl) as [E|E].
  - vm_compute in E. lia.
  - discriminate E.
Qed.

Lemma history_tracking_enabled_iff_witness :
  DEBUG = false
  /\ (checksEnabled (PC.dbgOne 0x100) false = true <-> trackingCondition (PC.dbgOne 0x100))
  /\ aOpcodeHistory (historyInit (PC.dbgOne 0x100)) <> [].
Proof.
  split; [reflexivity|].
  pose proof (history_tracking_enabled_iff (PC.dbgOne 0x100) false eq_refl)
    as (H1 & H2 & _).
  split; [exact H1|].
  apply H2. left. apply le_n.
Defined.

(** *** C4 *)

(** The claim as stated fails: in protected mode a temporary breakpoint
    on a selector that is in no segment register gets no linear address and
    keeps its selector. *)
Lemma temp_breakpoint_selector_counterexample :
  ~ (forall (g : Debugger) (k : BreakKind) (d : DbgAddr),
        fst (fst (addBreakpoint g k d true)) = true ->
        sel (storedBreak (snd (fst (addBreakpoint g k d true))) k d) = None).
Proof.
  intros H.
  specialize (H PC.dbgProt BreakExec (PC.segmented 0x20 0x100) eq_refl).
  vm_compute in H. discriminate H.
Qed.

Lemma temp_breakpoint_selector_witness :
  fst (fst (addBreakpoint PC.dbgReal BreakExec (PC.segmented 0 0x100) true)) = true
  /\ sel (storedBreak
            (snd (fst (addBreakpoint PC.dbgReal BreakExec (PC.segmented 0 0x100) true)))
            BreakExec (PC.segmented 0 0x100)) = None.
Proof.
  split; [reflexivity|].
  assert (E : fst (fst (addBreakpoint PC.dbgReal BreakExec (PC.segmented 0 0x100) true))
              = true) by reflexivity.
  destruct (temp_breakpoint_selector PC.dbgReal BreakExec (PC.segmented 0 0x100) E)
    as (Hs & Ha & _).
  rewrite Hs. apply (Ha 0x100); [reflexivity|discriminate|discriminate].
Defined.

(** *** C5 *)

Lemma mapBreakpoint_fold_witness :
  (16 <= 24 <= 32 /\ maskAddr PC.dbgReal = 2^24 - 1 /\ 0 <= 0x1234 < 2^24 - 2^16)
  /\ mapBreakpoint PC.dbgReal 0x1234 = 0x1234
  /\ mapBreakpoint PC.dbgReal 0xFFFF0000 = 0x000F0000.
Proof.
  assert (H : 16 <= 24 <= 32 /\ maskAddr PC.dbgReal = 2^24 - 1
              /\ 0 <= 0x1234 < 2^24 - 2^16).
  { split; [split; discriminate|]. split; [reflexivity|].
    split; [discriminate|reflexivity]. }
  split; [exact H|].
  destruct (mapBreakpoint_fold PC.dbgReal 0x1234) as (_ & _ & Hb & Hf).
  split.
  - exact (Hb 24 (proj1 H) (proj1 (proj2 H)) (proj2 (proj2 H))).
  - apply Hf; [reflexivity|discriminate].
Defined.

(** *** C6 *)

(** C6.  The division by zero in "1/0+2|3" is reported by
    [evalExpression], which returns false, but [parseExpression] does not
    look at what the reduction inside its loop returns: the expression
    evaluates to 3 instead of having no value. *)
Theorem parseExpression_division_by_zero_lost :
  evalExpression [0; 1] ["/"%char] (Some 1) = (false, [], [])
  /\ fst (parseExpression PC.parseValue "1/0+2|3" false) = Some 3
  /\ fst (parseExpression PC.parseValue "4/0" false) = None.
Proof. repeat split; reflexivity. Qed.

(** *** C7 *)

(** The claim as stated fails: read from left to right "8-4-2" is 2, and
    by precedence "1+1*1|1" is 3; [parseExpression] gives 6 and 2. *)
Lemma parseExpression_left_to_right_counterexample :
  ~ (forall sExp : string,
        precedenceValue PC.parseValue sExp <> None ->
        fst (parseExpression PC.parseValue sExp false)
        = precedenceValue PC.parseValue sExp).
Proof.
  intros H.
  assert (E : fst (parseExpression PC.parseValue "8-4-2" false)
              = precedenceValue PC.parseValue "8-4-2").
  { apply H. vm_compute. discriminate. }
  vm_compute in E. discriminate E.
Qed.

Example parseExpression_examples :
  fst (parseExpression PC.parseValue "8-4-2" false) = Some 6
  /\ precedenceValue PC.parseValue "8-4-2" = Some 2
  /\ fst (parseExpression PC.parseValue "1+1*1|1" false) = Some 2
  /\ precedenceValue PC.parseValue "1+1*1|1" = Some 3
  /\ precedenceValue PC.parseValue "4+4*2" = Some 12.
Proof. repeat split; reflexivity. Qed.

Lemma parseExpression_precedence_witness :
  (pendingValue PC.parseValue "1+1*1|1" = Some 2
   /\ fst (parseExpression PC.parseValue "1+1*1|1" false) = Some 2)
  /\ (pendingValue PC.parseValue "8-4-2" = Some 6
      /\ fst (parseExpression PC.parseValue "8-4-2" false) = Some 6)
  /\ (Operand PC.parseValue "4" 4 /\ Operand PC.parseValue "2" 2)
  /\ fst (parseExpression PC.parseValue "4+4*2" false) = Some 12.
Proof.
  assert (H4 : Operand PC.parseValue "4" 4)
    by (repeat split; [discriminate]).
  assert (H2 : Operand PC.parseValue "2" 2)
    by (repeat split; [discriminate]).
  assert (P1 : pendingValue PC.parseValue "1+1*1|1" = Some 2) by reflexivity.
  assert (P2 : pendingValue PC.parseValue "8-4-2" = Some 6) by reflexivity.
  split; [split; [exact P1|]|].
  - exact (proj1 (parseExpression_precedence PC.parseValue) "1+1*1|1" 2 false P1).
  - split; [split; [exact P2|]|].
    + exact (proj1 (parseExpression_precedence PC.parseValue) "8-4-2" 6 false P2).
    + split; [split; assumption|].
      exact (proj2 (proj2 (parseExpression_precedence PC.parseValue)) H4 H2).
Defined.

(** *** C8 *)

(** C8.  A temporary breakpoint in an execute-only code segment: the
    address does not resolve, the sentinel stored in it counts as a linear
    address, the selector is cleared, and the comparison of selector and
    offset that stands in for the linear one fails the second time.  The
    same address is stored twice, and both calls return true. *)
Theorem addBreakpoint_twice_unreadable :
  let d := PC.segmented 0x08 0x100 in
  let r1 := addBreakpoint PC.dbgProt BreakExec d true in
  let r2 := addBreakpoint (snd (fst r1)) BreakExec d true in
  fst (getAddr (checking PC.dbgProt) d false None) = ADDR_INVALID x86
  /\ fst (fst r1) = true /\ execBreakpoints (snd (fst r1)) = 1%nat
  /\ fst (fst r2) = true /\ execBreakpoints (snd (fst r2)) = 2%nat
  /\ entries (aBreakExec (snd (fst r2))) = [snd r1; snd r1].
Proof. repeat split; reflexivity. Qed.

(** *** C9 *)

Lemma invalid_read_all_ones_witness :
  fst (getAddr PC.dbgProt (PC.segmented 0x08 0x100) false (Some 1)) = ADDR_INVALID x86
  /\ fst (getByte PC.dbgProt (PC.segmented 0x08 0x100) 1) = 0xFF
  /\ fst (getShort PC.dbgProt (PC.segmented 0x08 0x100) 2) = 0xFFFF
  /\ fst (getLong PC.dbgProt (PC.segmented 0x08 0x100) 4) = -1.
Proof.
  split; [reflexivity|].
  destruct (invalid_read_all_ones PC.dbgProt (PC.segmented 0x08 0x100) 1)
    as (H1 & _ & _).
  destruct (invalid_read_all_ones PC.dbgProt (PC.segmented 0x08 0x100) 2)
    as (_ & H2 & _).
  destruct (invalid_read_all_ones PC.dbgProt (PC.segmented 0x08 0x100) 4)
    as (_ & _ & H4).
  split; [exact (H1 eq_refl)|]. split; [exact (H2 eq_refl)|].
  exact (proj1 (H4 eq_refl)).
Defined.

(** *** C10 *)

(** The claim as stated fails: a word read at the last byte of a data
    segment does not resolve, and leaves the invalid sentinel in the cache
    of an address that had none. *)
Lemma invalid_read_unchanged_counterexample :
  ~ (forall (g : Debugger) (d : DbgAddr) (inc : Z),
        fst (getAddr g d false (Some 2)) = ADDR_INVALID x86 ->
        off (snd (getShort g d inc)) = off d
        /\ sel (snd (getShort g d inc)) = sel d
        /\ addr (snd (getShort g d inc)) = addr d).
Proof.
  intros H.
  destruct (H PC.dbgProt (PC.segmented 0x10 0xFFF) 2 eq_refl) as (_ & _ & E).
  vm_compute in E. discriminate E.
Qed.

Lemma invalid_read_not_advanced_witness :
  fst (getAddr PC.dbgProt (PC.segmented 0x10 0xFFF) false (Some 2)) = ADDR_INVALID x86
  /\ notAdvanced (PC.segmented 0x10 0xFFF)
                 (snd (getShort PC.dbgProt (PC.segmented 0x10 0xFFF) 2)).
Proof.
  split; [reflexivity|].
  exact (proj1 (proj2 (invalid_read_not_advanced PC.dbgProt (PC.segmented 0x10 0xFFF) 2))
               eq_refl).
Defined.

End Examples.

(** ** Further properties on the reference machines *)

Module Checks.

Local Existing Instance PC.env.

(** An address resolved in real mode keeps its linear address when the
    debugger of the protected-mode machine asks for a write check. *)
Lemma getAddr_cached_witness :
  (addr (PC.segmented 0 0x100) <> None
   \/ getSegment PC.dbgReal (sel (PC.segmented 0 0x100)) (fProt (PC.segmented 0 0x100))
      <> None)
  /\ getAddr PC.dbgProt (snd (getAddr PC.dbgReal (PC.segmented 0 0x100) false (Some 1)))
             true (Some 2)
     = getAddr PC.dbgReal (PC.segmented 0 0x100) false (Some 1).
Proof.
  assert (H : addr (PC.segmented 0 0x100) <> None
              \/ getSegment PC.dbgReal (sel (PC.segmented 0 0x100))
                            (fProt (PC.segmented 0 0x100)) <> None).
  { right. vm_compute. discriminate. }
  split; [exact H|].
  exact (getAddr_cached PC.dbgReal PC.dbgProt (PC.segmented 0 0x100) false true
                        (Some 1) (Some 2) H).
Defined.

(** The last byte of a real-mode segment: the next offset is zero. *)
Lemma incAddr_within_segment_witness :
  sel (PC.segmented 0x40 0xFFFF) = Some 0x40
  /\ getSegment PC.dbgReal (sel (PC.segmented 0x40 0xFFFF)) (fProt (PC.segmented 0x40 0xFFFF))
     = Some (PC.segReal 0x40)
  /\ 0 < offMax (PC.segReal 0x40)
  /\ sel (incAddr PC.dbgReal (PC.segmented 0x40 0xFFFF) 1) = Some 0x40
  /\ off (incAddr PC.dbgReal (PC.segmented 0x40 0xFFFF) 1) = 0.
Proof.
  assert (H1 : sel (PC.segmented 0x40 0xFFFF) = Some 0x40) by reflexivity.
  assert (H2 : getSegment PC.dbgReal (sel (PC.segmented 0x40 0xFFFF))
                          (fProt (PC.segmented 0x40 0xFFFF))
               = Some (PC.segReal 0x40)) by reflexivity.
  assert (H3 : 0 < offMax (PC.segReal 0x40)) by reflexivity.
  split; [exact H1|]. split; [exact H2|]. split; [exact H3|].
  split.
  - exact (proj1 (incAddr_within_segment PC.dbgReal (PC.segmented 0x40 0xFFFF) 0x40
                                         (PC.segReal 0x40) 1 H1 H2 H3)).
  - reflexivity.
Defined.

(** The bytes B8 34 12 00 at the linear address 0x100. *)
Lemma getShort_getLong_little_endian_witness :
  sel (PC.linear 0x100) = None
  /\ addr (PC.linear 0x100) = Some 0x100
  /\ (forall i, 0 <= i < 4 -> 0x100 + i <> ADDR_INVALID x86)
  /\ fst (getShort PC.dbgReal (PC.linear 0x100) 2) = 0x34B8
  /\ fst (getLong PC.dbgReal (PC.linear 0x100) 4) = 0x001234B8.
Proof.
  assert (H3 : forall i, 0 <= i < 4 -> 0x100 + i <> ADDR_INVALID x86).
  { intros i Hi. change (ADDR_INVALID x86) with (-1). lia. }
  split; [reflexivity|]. split; [reflexivity|]. split; [exact H3|].
  pose proof (getShort_getLong_little_endian PC.dbgReal (PC.linear 0x100) 0x100
                                             eq_refl eq_refl H3) as H.
  split; [exact (f_equal fst (proj1 H))|exact (f_equal fst (proj2 H))].
Defined.

(** A read-only segment: the write is refused at a fresh address, and
    made through the address a read has resolved. *)
Lemma setByte_checks_fresh_address_only_witness :
  fst (getAddr Lab.dbgRom (PC.segmented 0x18 0) true (Some 1)) = ADDR_INVALID x86
  /\ fst (getAddr Lab.dbgRom (PC.segmented 0x18 0) false (Some 1)) <> ADDR_INVALID x86
  /\ fst (setByte Lab.dbgRom (PC.segmented 0x18 0) 0x90 1) = []
  /\ fst (setByte Lab.dbgRom (snd (getByte Lab.dbgRom (PC.segmented 0x18 0) 0)) 0x90 1)
     = [SetByte 0x30000 0x90; UpdateCPU].
Proof.
  assert (H1 : fst (getAddr Lab.dbgRom (PC.segmented 0x18 0) true (Some 1))
               = ADDR_INVALID x86) by reflexivity.
  assert (H2 : fst (getAddr Lab.dbgRom (PC.segmented 0x18 0) false (Some 1))
               <> ADDR_INVALID x86) by (vm_compute; discriminate).
  split; [exact H1|]. split; [exact H2|].
  destruct (setByte_checks_fresh_address_only Lab.dbgRom Lab.dbgRom
                                              (PC.segmented 0x18 0) 0x90 1) as [A B].
  split; [exact (proj1 (A H1))|exact (B H2)].
Defined.

(** A string asked of the execute-only code segment. *)
Lemma getSZ_unreadable_witness :
  fst (getAddr PC.dbgProt (PC.segmented 0x08 0x100) false (Some 1)) = ADDR_INVALID x86
  /\ fst (getSZ PC.dbgProt (PC.segmented 0x08 0x100) (Some 8)) = "........"
  /\ off (snd (getSZ PC.dbgProt (PC.segmented 0x08 0x100) (Some 8))) = 0x100.
Proof.
  assert (H : fst (getAddr PC.dbgProt (PC.segmented 0x08 0x100) false (Some 1))
              = ADDR_INVALID x86) by reflexivity.
  split; [exact H|].
  destruct (getSZ_unreadable PC.dbgProt (PC.segmented 0x08 0x100) (Some 8) H) as [A B].
  split; [exact A|exact (proj1 B)].
Defined.

(** A breakpoint on FF0100, in the top 64K of the 16Mb bus, is found by a
    search for F0100, and F0100 cannot be added after it. *)
Lemma addBreakpoint_linear_once_witness :
  addr (PC.linear 0xFF0100) = Some 0xFF0100
  /\ mapBreakpoint PC.dbgReal 0xFF0100 <> ADDR_INVALID x86
  /\ addr (PC.linear 0xF0100) = Some 0xF0100
  /\ mapBreakpoint PC.dbgReal 0xF0100 = mapBreakpoint PC.dbgReal 0xFF0100
  /\ fst (fst (addBreakpoint PC.dbgReal BreakExec (PC.linear 0xFF0100) false)) = true
  /\ fst (fst (findBreakpoint
                 (snd (fst (addBreakpoint PC.dbgReal BreakExec (PC.linear 0xFF0100) false)))
                 BreakExec (PC.linear 0xF0100) false)) = true
  /\ fst (fst (addBreakpoint
                 (snd (fst (addBreakpoint PC.dbgReal BreakExec (PC.linear 0xFF0100) false)))
                 BreakExec (PC.linear 0xF0100) false)) = false.
Proof.
  assert (H1 : addr (PC.linear 0xFF0100) = Some 0xFF0100) by reflexivity.
  assert (H2 : mapBreakpoint PC.dbgReal 0xFF0100 <> ADDR_INVALID x86)
    by (vm_compute; discriminate).
  assert (H3 : addr (PC.linear 0xF0100) = Some 0xF0100) by reflexivity.
  assert (H4 : mapBreakpoint PC.dbgReal 0xF0100 = mapBreakpoint PC.dbgReal 0xFF0100)
    by reflexivity.
  assert (H5 : fst (fst (addBreakpoint PC.dbgReal BreakExec (PC.linear 0xFF0100) false))
               = true) by reflexivity.
  split; [exact H1|]. split; [exact H2|]. split; [exact H3|]. split; [exact H4|].
  split; [exact H5|].
  destruct (addBreakpoint_linear_once PC.dbgReal BreakExec (PC.linear 0xFF0100)
              (PC.linear 0xF0100) 0xFF0100 0xF0100 false false H1 H2 H3 H4 H5)
    as (A & B & _).
  split; [exact A|exact B].
Defined.

Lemma findBreakpoint_removes_added_witness :
  addr (PC.linear 0xFF0100) = Some 0xFF0100
  /\ mapBreakpoint PC.dbgReal 0xFF0100 <> ADDR_INVALID x86
  /\ addr (PC.linear 0xF0100) = Some 0xF0100
  /\ mapBreakpoint PC.dbgReal 0xF0100 = mapBreakpoint PC.dbgReal 0xFF0100
  /\ fst (fst (addBreakpoint PC.dbgReal BreakRead (PC.linear 0xFF0100) false)) = true
  /\ fst (fst (findBreakpoint
                 (snd (fst (addBreakpoint PC.dbgReal BreakRead (PC.linear 0xFF0100) false)))
                 BreakRead (PC.linear 0xF0100) true)) = true
  /\ countBreaks
       (snd (fst (findBreakpoint
                    (snd (fst (addBreakpoint PC.dbgReal BreakRead
                                             (PC.linear 0xFF0100) false)))
                    BreakRead (PC.linear 0xF0100) true))) BreakRead
     = countBreaks PC.dbgReal BreakRead.
Proof.
  assert (H1 : addr (PC.linear 0xFF0100) = Some 0xFF0100) by reflexivity.
  assert (H2 : mapBreakpoint PC.dbgReal 0xFF0100 <> ADDR_INVALID x86)
    by (vm_compute; discriminate).
  assert (H3 : addr (PC.linear 0xF0100) = Some 0xF0100) by reflexivity.
  assert (H4 : mapBreakpoint PC.dbgReal 0xF0100 = mapBreakpoint PC.dbgReal 0xFF0100)
    by reflexivity.
  assert (H5 : fst (fst (addBreakpoint PC.dbgReal BreakRead (PC.linear 0xFF0100) false))
               = true) by reflexivity.
  split; [exact H1|]. split; [exact H2|]. split; [exact H3|]. split; [exact H4|].
  split; [exact H5|].
  exact (findBreakpoint_removes_added PC.dbgReal BreakRead (PC.linear 0xFF0100)
           (PC.linear 0xF0100) 0xFF0100 0xF0100 false H1 H2 H3 H4 H5).
Defined.

(** The alias of the example above reaches the bus unfolded when the
    breakpoint is set and folded when it is removed. *)
Example breakpoint_bus_calls_alias :
  busLog (snd (fst (findBreakpoint
                      (snd (fst (addBreakpoint PC.dbgReal BreakRead
                                               (PC.linear 0xFF0100) false)))
                      BreakRead (PC.linear 0xFF0100) true)))
  = [AddMemBreak 0xFF0100 false; RemoveMemBreak 0xF0100 false].
Proof. reflexivity. Qed.

(** The temporary breakpoint on 0x100 is hit and removed; the breakpoint
    on 0x200 is hit and stays. *)
Lemma checkBreakpoint_temp_fires_once_witness :
  nSuppressBreaks Lab.dbgTemp = 0
  /\ messageEnabled Lab.dbgTemp (JS.bor (MESSAGES_INT msgs) (MESSAGES_HALT msgs)) = false
  /\ hitEntry Lab.dbgTemp 0x100 1 BreakExec = Some (Lab.tempAt 0x100)
  /\ fst (checkBreakpoint Lab.dbgTemp 0x100 1 BreakExec false) = true
  /\ (countBreaks (snd (checkBreakpoint Lab.dbgTemp 0x100 1 BreakExec false)) BreakExec + 1
      = countBreaks Lab.dbgTemp BreakExec)%nat
  /\ hitEntry Lab.dbgTemp 0x200 1 BreakExec = Some (PC.linear 0x200)
  /\ (countBreaks (snd (checkBreakpoint Lab.dbgTemp 0x200 1 BreakExec false)) BreakExec + 0
      = countBreaks Lab.dbgTemp BreakExec)%nat.
Proof.
  assert (H1 : nSuppressBreaks Lab.dbgTemp = 0) by reflexivity.
  assert (H2 : messageEnabled Lab.dbgTemp
                              (JS.bor (MESSAGES_INT msgs) (MESSAGES_HALT msgs)) = false)
    by reflexivity.
  assert (H3 : hitEntry Lab.dbgTemp 0x100 1 BreakExec = Some (Lab.tempAt 0x100))
    by reflexivity.
  assert (H4 : hitEntry Lab.dbgTemp 0x200 1 BreakExec = Some (PC.linear 0x200))
    by reflexivity.
  split; [exact H1|]. split; [exact H2|]. split; [exact H3|].
  pose proof (checkBreakpoint_temp_fires_once Lab.dbgTemp 0x100 1 BreakExec false H1 H2)
    as A.
  pose proof (checkBreakpoint_temp_fires_once Lab.dbgTemp 0x200 1 BreakExec false H1 H2)
    as B.
  cbv zeta in A, B. rewrite H3 in A. rewrite H4 in B.
  split; [exact (proj1 A)|]. split; [exact (proj2 A)|].
  split; [exact H4|exact (proj2 B)].
Defined.

Lemma clearTempBreakpoint_all_witness :
  (countBreaks Lab.dbgTemp BreakExec < 3)%nat
  /\ exists g',
      clearTempBreakpoint 3 Lab.dbgTemp None = Some g'
      /\ List.Forall (fun e => fTempBreak e = false) (entries (aBreakExec g'))
      /\ (countBreaks g' BreakExec <= countBreaks Lab.dbgTemp BreakExec)%nat.
Proof.
  assert (H : (countBreaks Lab.dbgTemp BreakExec < 3)%nat) by (vm_compute; lia).
  split; [exact H|].
  destruct (clearTempBreakpoint_all 3 Lab.dbgTemp H) as (g' & A & B & C & _).
  exists g'. split; [exact A|]. split; [exact B|exact C].
Defined.

(** What is left is the breakpoint on 0x200. *)
Example clearTempBreakpoint_left :
  option_map (fun g => entries (aBreakExec g)) (clearTempBreakpoint 3 Lab.dbgTemp None)
  = Some [PC.linear 0x200].
Proof. reflexivity. Qed.

Lemma clearBreakpoints_clears_witness :
  messageEnabled Lab.dbgMem (JS.bor (MESSAGES_INT msgs) (MESSAGES_HALT msgs)) = false
  /\ fst (checkBreakpoint Lab.dbgMem 0x100 1 BreakRead false) = true
  /\ fst (checkBreakpoint (clearBreakpoints Lab.dbgMem) 0x100 1 BreakRead false) = false
  /\ busLog (clearBreakpoints Lab.dbgMem)
     = [RemoveMemBreak 0x100 false; RemoveMemBreak 0x2000 true].
Proof.
  assert (H : messageEnabled Lab.dbgMem
                             (JS.bor (MESSAGES_INT msgs) (MESSAGES_HALT msgs)) = false)
    by reflexivity.
  split; [exact H|]. split; [reflexivity|].
  destruct (clearBreakpoints_clears Lab.dbgMem) as (_ & _ & _ & _ & L & _ & C).
  split; [exact (C H 0x100 1 BreakRead false)|exact L].
Defined.

(** A block of 4K at 0: the read breakpoint on 0x100 is inside, the write
    breakpoint on 0x2000 is not. *)
Example redoBreakpoints_block :
  busLog (redoBreakpoints Lab.dbgMem 0 0x1000 None) = [AddMemBreak 0x100 false].
Proof. reflexivity. Qed.

Lemma historyInit_idempotent_witness :
  checksEnabled (historyInit (PC.dbgOne 0x100)) false = true
  /\ aOpcodeHistory (historyInit (PC.dbgOne 0x100)) <> []
  /\ aaOpcodeCounts (historyInit (PC.dbgOne 0x100)) <> []
  /\ historyInit (historyInit (PC.dbgOne 0x100)) = historyInit (PC.dbgOne 0x100).
Proof.
  assert (H1 : checksEnabled (historyInit (PC.dbgOne 0x100)) false = true) by reflexivity.
  assert (H2 : aOpcodeHistory (historyInit (PC.dbgOne 0x100)) <> []).
  { apply repeat_nonempty, history_limit_pos. }
  assert (H3 : aaOpcodeCounts (historyInit (PC.dbgOne 0x100)) <> []) by discriminate.
  split; [exact H1|]. split; [exact H2|]. split; [exact H3|].
  exact (proj2 (historyInit_idempotent (historyInit (PC.dbgOne 0x100))) H1 H2 H3).
Defined.

(** A sign in front, an operator at the end, two operators in a row. *)
Lemma parseExpression_empty_operand_witness :
  List.In "" (split "-5") /\ trim str "" = ""
  /\ fst (parseExpression PC.parseValue "-5" false) = None
  /\ fst (parseExpression PC.parseValue "5-" false) = None
  /\ fst (parseExpression PC.parseValue "1+ *2" false) = None.
Proof.
  assert (H1 : List.In "" (split "-5")) by (left; reflexivity).
  assert (H2 : List.In "" (split "5-")) by (right; left; reflexivity).
  assert (H3 : List.In " " (split "1+ *2")) by (right; left; reflexivity).
  split; [exact H1|]. split; [reflexivity|].
  split; [exact (parseExpression_empty_operand PC.parseValue "-5" "" false H1 eq_refl)|].
  split; [exact (parseExpression_empty_operand PC.parseValue "5-" "" false H2 eq_refl)|].
  exact (parseExpression_empty_operand PC.parseValue "1+ *2" " " false H3 eq_refl).
Defined.

(** 2^32 alone is 2^32; with an operator it wraps. *)
Lemma parseExpression_single_operand_witness :
  Operand PC.parseValue "4294967296" 4294967296
  /\ fst (parseExpression PC.parseValue "4294967296" false) = Some 4294967296
  /\ fst (parseExpression PC.parseValue "4294967296+0" false) = Some 0.
Proof.
  assert (H : Operand PC.parseValue "4294967296" 4294967296).
  { split; [reflexivity|]. split; [discriminate|reflexivity]. }
  split; [exact H|].
  split; [exact (parseExpression_single_operand PC.parseValue "4294967296" _ false H)|].
  reflexivity.
Defined.

Lemma parseExpression_int32_witness :
  (2 <= List.length (split "2147483647+1"))%nat
  /\ fst (parseExpression PC.parseValue "2147483647+1" false) = Some (-2147483648)
  /\ - 2 ^ 31 <= -2147483648 < 2 ^ 31.
Proof.
  assert (H1 : (2 <= List.length (split "2147483647+1"))%nat) by (cbn; lia).
  assert (H2 : fst (parseExpression PC.parseValue "2147483647+1" false)
               = Some (-2147483648)) by reflexivity.
  split; [exact H1|]. split; [exact H2|].
  exact (parseExpression_int32 PC.parseValue "2147483647+1" false _ H1 H2).
Defined.


(** There the line is that of the three bytes B8 34 12. *)
Example getInstruction_linear_line :
  getInstruction PC.dbgReal 25 (PC.linear 0x100) None None
  = Some ("%00000100 B83412          MOV      AX,1234",
          mkDbgAddr 0 None (Some 0x103) None false false false (Some 0) (Some true)).
Proof. reflexivity. Qed.

Lemma getRegOperand_operand_size_witness :
  0 <= 3 < 8
  /\ JS.band (JS.bor TYPE_REG TYPE_VWORD) TYPE_MODE <> TYPE_SEGREG
  /\ JS.band (JS.bor TYPE_REG TYPE_VWORD) TYPE_MODE <> TYPE_CTLREG
  /\ JS.band (JS.bor TYPE_REG TYPE_VWORD) TYPE_MODE <> TYPE_DBGREG
  /\ JS.band (JS.bor TYPE_REG TYPE_VWORD) TYPE_MODE <> TYPE_TSTREG
  /\ JS.band (JS.bor TYPE_REG TYPE_VWORD) TYPE_SIZE = TYPE_VWORD
  /\ getRegOperand PC.dbgReal 3 (JS.bor TYPE_REG TYPE_VWORD)
                   (set_fData32 (PC.linear 0) true) = Some "EBX".
Proof.
  assert (H0 : 0 <= 3 < 8) by lia.
  assert (H1 : JS.band (JS.bor TYPE_REG TYPE_VWORD) TYPE_MODE <> TYPE_SEGREG)
    by (vm_compute; discriminate).
  assert (H2 : JS.band (JS.bor TYPE_REG TYPE_VWORD) TYPE_MODE <> TYPE_CTLREG)
    by (vm_compute; discriminate).
  assert (H3 : JS.band (JS.bor TYPE_REG TYPE_VWORD) TYPE_MODE <> TYPE_DBGREG)
    by (vm_compute; discriminate).
  assert (H4 : JS.band (JS.bor TYPE_REG TYPE_VWORD) TYPE_MODE <> TYPE_TSTREG)
    by (vm_compute; discriminate).
  assert (H5 : JS.band (JS.bor TYPE_REG TYPE_VWORD) TYPE_SIZE = TYPE_VWORD)
    by reflexivity.
  split; [exact H0|]. split; [exact H1|]. split; [exact H2|]. split; [exact H3|].
  split; [exact H4|]. split; [exact H5|].
  exact (getRegOperand_operand_size PC.dbgReal 3 (JS.bor TYPE_REG TYPE_VWORD)
           (set_fData32 (PC.linear 0) true) H0 H1 H2 H3 H4 H5).
Defined.

(** Register 3 is BX, or EBX with a 32-bit operand size. *)
Example getRegOperand_ebx :
  getRegOperand PC.dbgReal 3 (JS.bor TYPE_REG TYPE_VWORD) (PC.linear 0) = Some "BX"
  /\ getRegOperand PC.dbgReal 3 (JS.bor TYPE_REG TYPE_VWORD)
                   (set_fData32 (PC.linear 0) true) = Some "EBX".
Proof. split; reflexivity. Qed.

Lemma history_index_in_ring_witness :
  historyOK Lab.dbgRing
  /\ historyOK (snd (fst (findBreakpoint Lab.dbgRing BreakExec (PC.linear 0x200) true)))
  /\ (forall r, checkInstruction Lab.ring0 println Lab.dbgRing 0 0x100 1 = Some r ->
                historyOK (snd (fst r))).
Proof.
  assert (H : historyOK Lab.dbgRing) by (right; cbn; lia).
  split; [exact H|].
  destruct (history_index_in_ring Lab.ring0 println Lab.dbgRing BreakExec
              (PC.linear 0x200) false true 0x100 1 0 1 H) as (_ & _ & F & _ & C).
  split; [exact F|]. apply C.
  intros g0 s. apply historyOK_fields; reflexivity.
Defined.

(** Removing the only breakpoint frees the ring, and the index is zero. *)
Example history_freed :
  let g := snd (fst (findBreakpoint Lab.dbgRing BreakExec (PC.linear 0x200) true)) in
  aOpcodeHistory g = [] /\ iOpcodeHistory g = 0.
Proof. split; reflexivity. Qed.

Lemma checkInstruction_records_witness :
  0 <= probeAddr (cpu Lab.dbgRing) 0x100 < Z.of_nat (List.length (aaOpcodeCounts Lab.dbgRing))
  /\ 0 <= iOpcodeHistory Lab.dbgRing < Z.of_nat (List.length (aOpcodeHistory Lab.dbgRing))
  /\ exists g' i n e,
      checkInstruction Lab.ring0 println Lab.dbgRing 7 0x100 0 = Some (false, g', 7 + 1)
      /\ js_index (aaOpcodeCounts Lab.dbgRing) (probeAddr (cpu Lab.dbgRing) 0x100)
         = Some (i, n)
      /\ js_index (aaOpcodeCounts g') (probeAddr (cpu Lab.dbgRing) 0x100) = Some (i, n + 1)
      /\ js_index (aOpcodeHistory g') (iOpcodeHistory Lab.dbgRing) = Some e
      /\ addr e = Some 0x100
      /\ iOpcodeHistory g'
         = (iOpcodeHistory Lab.dbgRing + 1)
           mod Z.of_nat (List.length (aOpcodeHistory Lab.dbgRing)).
Proof.
  assert (H1 : 0 <= probeAddr (cpu Lab.dbgRing) 0x100
               < Z.of_nat (List.length (aaOpcodeCounts Lab.dbgRing)))
    by (vm_compute; split; [discriminate|reflexivity]).
  assert (H2 : 0 <= iOpcodeHistory Lab.dbgRing
               < Z.of_nat (List.length (aOpcodeHistory Lab.dbgRing)))
    by (vm_compute; split; [discriminate|reflexivity]).
  split; [exact H1|]. split; [exact H2|].
  destruct (proj2 (checkInstruction_records Lab.ring0 println Lab.dbgRing 7 0x100 0)
                  eq_refl H1 H2)
    as (g' & i & n & e & A & B & C & _ & D & E & _ & _ & _ & F & _).
  exists g', i, n, e. repeat (split; [assumption|]). exact F.
Defined.

(** The opcode B8 is counted once and the index is back at the first slot. *)
Example checkInstruction_ring_wraps :
  option_map (fun r => (iOpcodeHistory (snd (fst r)),
                        js_index (aaOpcodeCounts (snd (fst r))) 0xB8))
             (checkInstruction Lab.ring0 println Lab.dbgRing 7 0x100 0)
  = Some (0, Some (0xB8, 1)).
Proof. reflexivity. Qed.

Lemma mapBreakpoint_top_64K_witness :
  maskAddr PC.dbgReal = 2 ^ 24 - 1
  /\ mapBreakpoint PC.dbgReal 0xFF1234 = 0xF1234.
Proof.
  split; [reflexivity|].
  apply (mapBreakpoint_top_64K PC.dbgReal 24 0xFF1234);
    [lia|reflexivity|lia|discriminate].
Defined.

(** A recalled command run again, then Enter on an empty line. *)
Example parseCommand_recalled :
  let h := mkCmdHistory ["r"; "u 100"; "g"] 1 in
  parseCommand h (Some "u 100") true None = ([trim str "u 100"], mkCmdHistory ["r"; "u 100"; "g"] 0)
  /\ parseCommand h (Some "t;r") true None
     = ([trim str "t"; trim str "r"], mkCmdHistory ["t;r"; "r"; "u 100"; "g"] (-1)).
Proof. split; reflexivity. Qed.

End Checks.
